(** * The round-based consensus engine of mcp-consensus, embedded in Rocq

    The development follows the class [ConsensusServer] of the package
    in its version 1.2.0: the directive parser [parseToolRequests], the
    agreement evaluator [checkConsensus], the input validation
    [validateConsensusData] and the orchestrator [processConsensus] with its
    two helpers [generateDiscussionContext] and [generateDiscussionSummary],
    and the constructor with what it reads from the environment.
    The file [src/index.ts] holds version 1.0.0 of the class; what it does
    differently is in the module [Legacy].

    Conventions of the embedding.
    - A JavaScript string is a sequence of UTF-16 code units.  The strings of
      this development are the ones whose code units are all below 256: a
      Rocq [string], one [ascii] per code unit.
    - Numbers that are counts or indices are [nat].  The agreement threshold
      is the rational number the configuration writes (0.8 is 4/5) and the
      quotient [maxAgreement / responses.length] is exact.  The source
      compares the correctly rounded quotient with the double nearest to the
      threshold.  Two numbers between 0 and 1 that round to the same double
      differ by at most 2^-53, so the two comparisons agree whenever the
      threshold has at most 14 decimals and a round has fewer than 90
      responses.
    - A function that may throw returns [Outcome]; [try]/[catch] is a match on
      it.
    - The remote model is an oracle: a function that gives, for each call of
      [chat.completions.create], either the completion or what was thrown.
    - What the server writes with [console.error] when logging is enabled
      mirrors the values computed here and is not part of the embedding; the
      lines [parseToolRequests] writes with [console.warn] are. *)

From Stdlib Require Import String Ascii List Arith Bool Lia NArith ZArith QArith.
From Stdlib Require Import DecimalString Permutation Qround.
From Stdlib Require Import Qabs Qpower DecimalNat.
Import ListNotations.
Close Scope Q_scope.
Local Open Scope string_scope.
Local Open Scope nat_scope.

Set Implicit Arguments.

(** ** Code units and strings *)

Module JsString.

Definition quote : ascii := "034"%char.
Definition backslash : ascii := "092"%char.
Definition apostrophe : ascii := "039"%char.

Definition inRange (lo hi : N) (c : ascii) : bool :=
  (N.leb lo (N_of_ascii c) && N.leb (N_of_ascii c) hi)%bool.

(** [WhiteSpace] and [LineTerminator] of ECMAScript, below 256: TAB, LF, VT,
    FF, CR, SP and NBSP.  [String.prototype.trim] removes them and the
    regular expression atom [\s] matches them. *)
Definition isWhiteSpace (c : ascii) : bool :=
  (inRange 9 13 c || N.eqb (N_of_ascii c) 32 || N.eqb (N_of_ascii c) 160)%bool.

(** [toLowerCase] on one code unit: A-Z, and the Latin-1 capitals
    U+00C0..U+00DE except the multiplication sign U+00D7. *)
Definition lowerChar (c : ascii) : ascii :=
  if (inRange 65 90 c || inRange 192 214 c || inRange 216 222 c)%bool
  then ascii_of_N (N_of_ascii c + 32) else c.

Fixpoint toLowerCase (s : string) : string :=
  match s with
  | EmptyString => EmptyString
  | String c s' => String (lowerChar c) (toLowerCase s')
  end.

Fixpoint trimStart (s : string) : string :=
  match s with
  | EmptyString => EmptyString
  | String c s' => if isWhiteSpace c then trimStart s' else s
  end.

Fixpoint trimEnd (s : string) : string :=
  match s with
  | EmptyString => EmptyString
  | String c s' =>
      match trimEnd s' with
      | EmptyString => if isWhiteSpace c then EmptyString else String c EmptyString
      | t => String c t
      end
  end.

Definition trim (s : string) : string := trimEnd (trimStart s).

(** [s.substring(0, n)]. *)
Definition prefix_of_length (n : nat) (s : string) : string := substring 0 n s.

(** [s.substring(from, to)] for [from <= to]. *)
Definition slice (from to : nat) (s : string) : string := substring from (to - from) s.

Fixpoint drop (n : nat) (s : string) : string :=
  match n, s with
  | 0, _ => s
  | S n', String _ s' => drop n' s'
  | S _, EmptyString => EmptyString
  end.

(** The decimal digits of a natural number, as template literals print a
    round number or an array length. *)
Definition ofNat (n : nat) : string := NilZero.string_of_uint (Nat.to_uint n).

(** [Array.prototype.join] on strings. *)
Fixpoint join (sep : string) (l : list string) : string :=
  match l with
  | [] => ""
  | [x] => x
  | x :: l' => x ++ sep ++ join sep l'
  end.

(** Source texts below are written with an apostrophe where the JavaScript
    text has a double quote; [dq] puts the double quotes back. *)
Fixpoint dq (s : string) : string :=
  match s with
  | EmptyString => EmptyString
  | String c s' => String (if Ascii.eqb c apostrophe then quote else c) (dq s')
  end.

(** [l] at the head of [s]: the text after it. *)
Fixpoint afterPrefix (l s : string) : option string :=
  match l, s with
  | EmptyString, _ => Some s
  | String a l', String b s' => if Ascii.eqb a b then afterPrefix l' s' else None
  | String _ _, EmptyString => None
  end.

(** A string in a condition: the empty string is the only falsy one. *)
Definition truthy (s : string) : bool := negb (String.eqb s "").

End JsString.
Import JsString.

(** ** Outcomes of calls that may throw *)

(** What a [catch (e)] clause of the source looks at: [e instanceof Error]
    with its [message], or any other thrown value with [String(e)]. *)
Inductive Thrown : Type :=
| ThrownError (message : string)
| ThrownValue (asString : string).

Inductive Outcome (A : Type) : Type :=
| Returns (a : A)
| Throws (e : Thrown).
Arguments Returns {A} a.
Arguments Throws {A} e.

(** [e instanceof Error ? e.message : String(e)] *)
Definition messageOf (e : Thrown) : string :=
  match e with
  | ThrownError message => message
  | ThrownValue asString => asString
  end.

(** ** JSON.parse *)

Module Json.

(** The tree of a JSON text.  Numbers and strings keep their lexeme (for a
    string: the characters between the quotes, escapes not decoded); no
    statement below looks inside the parameters of a request. *)
Unset Elimination Schemes.
Inductive JSON : Type :=
| JNull
| JTrue
| JFalse
| JNumber (lexeme : string)
| JString (lexeme : string)
| JArray (elements : list JSON)
| JObject (members : list (string * JSON)).
Set Elimination Schemes.

Inductive Parsed (A : Type) : Type :=
| Ok (a : A) (rest : string)
| SyntaxError
| Exhausted.
Arguments Ok {A} a rest.
Arguments SyntaxError {A}.
Arguments Exhausted {A}.

(** JSON white space: TAB, LF, CR and SP only. *)
Definition isJsonSpace (c : ascii) : bool :=
  (N.eqb (N_of_ascii c) 9 || N.eqb (N_of_ascii c) 10
   || N.eqb (N_of_ascii c) 13 || N.eqb (N_of_ascii c) 32)%bool.

Fixpoint skipSpace (s : string) : string :=
  match s with
  | EmptyString => EmptyString
  | String c s' => if isJsonSpace c then skipSpace s' else s
  end.

Definition isDigit (c : ascii) : bool := inRange 48 57 c.

Definition isHexDigit (c : ascii) : bool :=
  (isDigit c || inRange 65 70 c || inRange 97 102 c)%bool.

(** The characters that may follow a backslash, [u] apart. *)
Definition isSimpleEscape (c : ascii) : bool :=
  existsb (Ascii.eqb c)
    [quote; backslash; "/"%char; "b"%char; "f"%char; "n"%char; "r"%char; "t"%char].

(** The characters of a string after its opening quote, up to the closing
    quote: the lexeme and the text after the closing quote. *)
Fixpoint stringBody (s : string) : option (string * string) :=
  match s with
  | EmptyString => None
  | String c s1 =>
      if Ascii.eqb c quote then Some (EmptyString, s1)
      else if Ascii.eqb c backslash then
        match s1 with
        | EmptyString => None
        | String e s2 =>
            if isSimpleEscape e then
              match stringBody s2 with
              | Some (l, r) => Some (String c (String e l), r)
              | None => None
              end
            else if Ascii.eqb e "u"%char then
              match s2 with
              | String h1 (String h2 (String h3 (String h4 s6))) =>
                  if (isHexDigit h1 && isHexDigit h2 && isHexDigit h3 && isHexDigit h4)%bool
                  then
                    match stringBody s6 with
                    | Some (l, r) =>
                        Some (String c (String e (String h1 (String h2 (String h3 (String h4 l))))), r)
                    | None => None
                    end
                  else None
              | _ => None
              end
            else None
        end
      else if N.ltb (N_of_ascii c) 32 then None
      else
        match stringBody s1 with
        | Some (l, r) => Some (String c l, r)
        | None => None
        end
  end.

Fixpoint spanDigits (s : string) : string * string :=
  match s with
  | EmptyString => (EmptyString, EmptyString)
  | String c s' =>
      if isDigit c then let (ds, r) := spanDigits s' in (String c ds, r)
      else (EmptyString, s)
  end.

(** An optional minus sign, then [0] or a digit from 1 to 9 followed by any
    digits. *)
Definition integerPart (s : string) : option (string * string) :=
  let (sign, s1) :=
    match s with
    | String c r => if Ascii.eqb c "-"%char then ("-", r) else ("", s)
    | EmptyString => ("", s)
    end in
  match s1 with
  | EmptyString => None
  | String d r =>
      if Ascii.eqb d "0"%char then Some (sign ++ "0", r)
      else if isDigit d then
        let (ds, r') := spanDigits r in Some (sign ++ String d ds, r')
      else None
  end.

(** An optional fraction: a dot and at least one digit. *)
Definition fractionPart (s : string) : option (string * string) :=
  match s with
  | String c r =>
      if Ascii.eqb c "."%char then
        match spanDigits r with
        | (EmptyString, _) => None
        | (ds, r') => Some (String c ds, r')
        end
      else Some ("", s)
  | EmptyString => Some ("", s)
  end.

(** An optional exponent: [e] or [E], an optional sign, at least one digit. *)
Definition exponentPart (s : string) : option (string * string) :=
  match s with
  | String e r =>
      if (Ascii.eqb e "e"%char || Ascii.eqb e "E"%char)%bool then
        let (sign, r1) :=
          match r with
          | String sg r0 =>
              if (Ascii.eqb sg "+"%char || Ascii.eqb sg "-"%char)%bool
              then (String sg "", r0) else ("", r)
          | EmptyString => ("", r)
          end in
        match spanDigits r1 with
        | (EmptyString, _) => None
        | (ds, r') => Some (String e (sign ++ ds), r')
        end
      else Some ("", s)
  | EmptyString => Some ("", s)
  end.

Definition number (s : string) : option (string * string) :=
  match integerPart s with
  | None => None
  | Some (i, r1) =>
      match fractionPart r1 with
      | None => None
      | Some (f, r2) =>
          match exponentPart r2 with
          | None => None
          | Some (e, r3) => Some (i ++ f ++ e, r3)
          end
      end
  end.

Definition startsWith (c : ascii) (s : string) : bool :=
  match s with
  | String a _ => Ascii.eqb a c
  | EmptyString => false
  end.

Definition tail (s : string) : string :=
  match s with
  | String _ r => r
  | EmptyString => EmptyString
  end.

Definition keyword (w : string) (v : JSON) (s : string) : Parsed JSON :=
  match afterPrefix w s with
  | Some r => Ok v r
  | None => SyntaxError
  end.

(** Recursive descent.  A call for a value or for members needs more fuel
    than twice the length of its text, a call for elements one more; every
    recursive call keeps that margin, so the fuel [parseText] starts with is
    never used up ([parseText_not_exhausted] below). *)
Fixpoint parseValue (fuel : nat) (s : string) {struct fuel} : Parsed JSON :=
  match fuel with
  | 0 => Exhausted
  | S fuel' =>
      match skipSpace s with
      | EmptyString => SyntaxError
      | String c r =>
          if Ascii.eqb c "{"%char then
            if startsWith "}"%char (skipSpace r) then Ok (JObject []) (tail (skipSpace r))
            else
              match parseMembers fuel' r with
              | Ok ms r' => Ok (JObject ms) r'
              | SyntaxError => SyntaxError
              | Exhausted => Exhausted
              end
          else if Ascii.eqb c "["%char then
            if startsWith "]"%char (skipSpace r) then Ok (JArray []) (tail (skipSpace r))
            else
              match parseElements fuel' r with
              | Ok vs r' => Ok (JArray vs) r'
              | SyntaxError => SyntaxError
              | Exhausted => Exhausted
              end
          else if Ascii.eqb c quote then
            match stringBody r with
            | Some (l, r') => Ok (JString l) r'
            | None => SyntaxError
            end
          else if Ascii.eqb c "t"%char then keyword "true" JTrue (String c r)
          else if Ascii.eqb c "f"%char then keyword "false" JFalse (String c r)
          else if Ascii.eqb c "n"%char then keyword "null" JNull (String c r)
          else
            match number (String c r) with
            | Some (l, r') => Ok (JNumber l) r'
            | None => SyntaxError
            end
      end
  end

(** The members of an object after its opening brace, the closing brace
    included; at least one member. *)
with parseMembers (fuel : nat) (s : string) {struct fuel}
  : Parsed (list (string * JSON)) :=
  match fuel with
  | 0 => Exhausted
  | S fuel' =>
      match skipSpace s with
      | String c r =>
          if Ascii.eqb c quote then
            match stringBody r with
            | None => SyntaxError
            | Some (key, r1) =>
                if startsWith ":"%char (skipSpace r1) then
                    match parseValue fuel' (tail (skipSpace r1)) with
                    | Ok v r3 =>
                        match skipSpace r3 with
                        | String d r4 =>
                            if Ascii.eqb d "}"%char then Ok [(key, v)] r4
                            else if Ascii.eqb d ","%char then
                              match parseMembers fuel' r4 with
                              | Ok ms r5 => Ok ((key, v) :: ms) r5
                              | SyntaxError => SyntaxError
                              | Exhausted => Exhausted
                              end
                            else SyntaxError
                        | EmptyString => SyntaxError
                        end
                    | SyntaxError => SyntaxError
                    | Exhausted => Exhausted
                    end
                else SyntaxError
            end
          else SyntaxError
      | EmptyString => SyntaxError
      end
  end

(** The elements of an array after its opening bracket, the closing bracket
    included; at least one element. *)
with parseElements (fuel : nat) (s : string) {struct fuel} : Parsed (list JSON) :=
  match fuel with
  | 0 => Exhausted
  | S fuel' =>
      match parseValue fuel' s with
      | Ok v r1 =>
          match skipSpace r1 with
          | String d r2 =>
              if Ascii.eqb d "]"%char then Ok [v] r2
              else if Ascii.eqb d ","%char then
                match parseElements fuel' r2 with
                | Ok vs r3 => Ok (v :: vs) r3
                | SyntaxError => SyntaxError
                | Exhausted => Exhausted
                end
              else SyntaxError
          | EmptyString => SyntaxError
          end
      | SyntaxError => SyntaxError
      | Exhausted => Exhausted
      end
  end.

(** [JSON.parse(text)]: one value, white space around it and nothing else. *)
Definition parseText (text : string) : Parsed JSON :=
  match parseValue (S (2 * String.length text)) text with
  | Ok v r =>
      match skipSpace r with
      | EmptyString => Ok v EmptyString
      | String _ _ => SyntaxError
      end
  | SyntaxError => SyntaxError
  | Exhausted => Exhausted
  end.

(** [Throws] stands for the [SyntaxError] that [JSON.parse] throws; the text
    of its message is not looked at.  The last case never arises
    ([parseText_not_exhausted] below). *)
Definition parse (text : string) : Outcome JSON :=
  match parseText text with
  | Ok v _ => Returns v
  | SyntaxError => Throws (ThrownError ("Unexpected token in JSON: " ++ text))
  | Exhausted => Throws (ThrownError "out of fuel")
  end.

End Json.

(** ** Regular expressions: the fragment the directive pattern is written in *)

Module RegExp.

Inductive CharClass : Type :=
| WhiteSpace              (* the atom \s *)
| NotChar (c : ascii).    (* a negated class of one character, as in [^}] *)

Definition classMatches (cl : CharClass) (a : ascii) : bool :=
  match cl with
  | WhiteSpace => isWhiteSpace a
  | NotChar c => negb (Ascii.eqb a c)
  end.

(** A pattern is a sequence of nodes.  The parentheses of a capturing group
    are nodes of their own; groups are not nested and not quantified in the
    pattern at hand, so they close in the order they open. *)
Inductive Node : Type :=
| Lit (s : string)        (* pattern characters that match themselves *)
| Star (cl : CharClass)   (* cl*, greedy *)
| Plus (cl : CharClass)   (* cl+, greedy *)
| GroupOpen
| GroupClose.

Definition Pattern := list Node.

(** The spans of the groups closed so far, in the order of their closing. *)
Definition Captures := list (nat * nat).

(** A continuation: what is left of the pattern, applied to what is left of
    the input at a position. *)
Definition Cont := string -> nat -> option (nat * Captures).

(** Greedy repetition with backtracking: take one more character of the
    class whenever the rest of the match succeeds that way, otherwise go on
    with the continuation from here. *)
Fixpoint greedy (cl : CharClass) (k : Cont) (s : string) (pos : nat)
  : option (nat * Captures) :=
  match s with
  | String a s' =>
      if classMatches cl a then
        match greedy cl k s' (S pos) with
        | Some r => Some r
        | None => k s pos
        end
      else k s pos
  | EmptyString => k s pos
  end.

(** The backtracking matcher: [matchNodes p opened caps s pos] matches the
    pattern [p] against [s], which is the input from position [pos] on, and
    gives the end position and the captures of the first match in priority
    order. *)
Fixpoint matchNodes (p : Pattern) (opened : list nat) (caps : Captures)
  (s : string) (pos : nat) {struct p} : option (nat * Captures) :=
  match p with
  | [] => Some (pos, caps)
  | Lit l :: p' =>
      match afterPrefix l s with
      | Some s' => matchNodes p' opened caps s' (pos + String.length l)
      | None => None
      end
  | Star cl :: p' => greedy cl (matchNodes p' opened caps) s pos
  | Plus cl :: p' =>
      match s with
      | String a s' =>
          if classMatches cl a
          then greedy cl (matchNodes p' opened caps) s' (S pos)
          else None
      | EmptyString => None
      end
  | GroupOpen :: p' => matchNodes p' (pos :: opened) caps s pos
  | GroupClose :: p' =>
      match opened with
      | start :: opened' => matchNodes p' opened' (caps ++ [(start, pos)])%list s pos
      | [] => None
      end
  end.

(** The array [exec] returns, with the end of the match (the [lastIndex] a
    global pattern is left with). *)
Record Match : Type := {
  index : nat;
  matched : string;          (* match[0] *)
  groups : list string;      (* match[1], match[2], ... *)
  endIndex : nat
}.

Definition group (i : nat) (m : Match) : string := nth (i - 1) (groups m) "".

(** A match that starts exactly at [pos]; [s] is [input] from [pos] on. *)
Definition matchAt (p : Pattern) (input s : string) (pos : nat) : option Match :=
  match matchNodes p [] [] s pos with
  | Some (e, caps) =>
      Some {| index := pos;
              matched := slice pos e input;
              groups := map (fun span => slice (fst span) (snd span) input) caps;
              endIndex := e |}
  | None => None
  end.

(** The leftmost match at or after [pos]. *)
Fixpoint search (p : Pattern) (input s : string) (pos : nat) : option Match :=
  match matchAt p input s pos with
  | Some m => Some m
  | None =>
      match s with
      | String _ s' => search p input s' (S pos)
      | EmptyString => None
      end
  end.

(** [pattern.exec(input)] for a global pattern whose [lastIndex] is
    [lastIndex]. *)
Definition exec (p : Pattern) (input : string) (lastIndex : nat) : option Match :=
  if String.length input <? lastIndex then None
  else search p input (drop lastIndex input) lastIndex.

(** The successive results of [exec] up to the first [null], for a pattern
    that never matches the empty string: [s] is [input] from [pos] on and
    [skip] is the number of positions still before [lastIndex]
    ([execAll_exec] below relates it to [exec]). *)
Fixpoint scan (p : Pattern) (input s : string) (pos skip : nat) : list Match :=
  match skip with
  | S skip' =>
      match s with
      | String _ s' => scan p input s' (S pos) skip'
      | EmptyString => []
      end
  | 0 =>
      match matchAt p input s pos with
      | Some m =>
          m :: match s with
               | String _ s' => scan p input s' (S pos) (endIndex m - S pos)
               | EmptyString => []
               end
      | None =>
          match s with
          | String _ s' => scan p input s' (S pos) 0
          | EmptyString => []
          end
      end
  end.

Definition execAll (p : Pattern) (input : string) : list Match :=
  scan p input input 0 0.

End RegExp.

(** ** The data model of the server *)

Record ToolRequest : Type := {
  tool : string;
  parameters : Json.JSON;
  reason : string
}.

Record AdvisorResponse : Type := {
  advisorId : string;
  response : string;
  toolRequests : option (list ToolRequest)
}.

Record DiscussionRound : Type := {
  round : nat;
  responses : list AdvisorResponse;
  consensus : option string
}.

Record AdvisorConfig : Type := {
  id : string;
  name : string;
  systemPrompt : string;
  model : string
}.

(** ** The directive parser *)

Module Directive.
Import RegExp.

(** The pattern of [parseToolRequests], node by node:
    TOOL_REQUEST:\s*{\s*"tool":\s*"([^"]+)"\s*,\s*"parameters":\s*({[^}]+})\s*,\s*"reason":\s*"([^"]+)"\s*}
    with the flag g. *)
Definition toolRegex : Pattern := Eval cbv in
  [ Lit "TOOL_REQUEST:"; Star WhiteSpace; Lit "{"; Star WhiteSpace;
    Lit (dq "'tool':"); Star WhiteSpace;
    Lit (dq "'"); GroupOpen; Plus (NotChar quote); GroupClose; Lit (dq "'");
    Star WhiteSpace; Lit ","; Star WhiteSpace;
    Lit (dq "'parameters':"); Star WhiteSpace;
    GroupOpen; Lit "{"; Plus (NotChar "}"%char); Lit "}"; GroupClose;
    Star WhiteSpace; Lit ","; Star WhiteSpace;
    Lit (dq "'reason':"); Star WhiteSpace;
    Lit (dq "'"); GroupOpen; Plus (NotChar quote); GroupClose; Lit (dq "'");
    Star WhiteSpace; Lit "}" ].

(** What one call leaves behind: the requests it returns and the lines it
    wrote with [console.warn]. *)
Record Scanned : Type := {
  requests : list ToolRequest;
  warnings : list string
}.

(** The body of the loop: [try { toolRequests.push(...) } catch (e)
    { console.warn(...) }]. *)
Definition tryPush (acc : Scanned) (m : Match) : Scanned :=
  match Json.parse (group 2 m) with
  | Returns params =>
      {| requests := (requests acc ++
           [ {| tool := group 1 m; parameters := params; reason := group 3 m |} ])%list;
         warnings := warnings acc |}
  | Throws _ =>
      {| requests := requests acc;
         warnings := (warnings acc ++
           [("Failed to parse tool request: " ++ matched m)%string])%list |}
  end.

Definition parseDirectives (response : string) : Scanned :=
  fold_left tryPush (execAll toolRegex response)
    {| requests := []; warnings := [] |}.

Definition parseToolRequests (response : string) : list ToolRequest :=
  requests (parseDirectives response).

(** The text of a directive in the format the first prompt shows: the
    marker, then the members, each a quoted key, a colon, a space and the
    text of the value, separated by a comma and a space. *)
Definition quoted (s : string) : string := String quote (s ++ String quote "").

Definition member (kv : string * string) : string := quoted (fst kv) ++ ": " ++ snd kv.

Definition directiveText (members : list (string * string)) : string :=
  "TOOL_REQUEST: {" ++ join ", " (map member members) ++ "}".

End Directive.

(** ** The object [agreementCounts] *)

(** [checkConsensus] counts the normalized texts in a plain object literal
    used as a map.  Such an object inherits from [Object.prototype], and its
    keys are enumerated in the order of ordinary objects; both are part of
    what the function computes, so both are modelled. *)
Module Counts.

(** What the reducer can store under a key: a number, or the string that
    [+ 1] makes of an inherited function, which is the source text of a
    native function, [function name() { [native code] }], followed by
    [ones] characters [1]. *)
Inductive Count : Type :=
| Number (n : nat)
| NativeText (name : string) (ones : nat).

(** The own properties, in the order of their creation. *)
Definition Obj := list (string * Count).

Fixpoint own (o : Obj) (key : string) : option Count :=
  match o with
  | [] => None
  | (k, v) :: o' => if String.eqb k key then Some v else own o' key
  end.

Fixpoint update (o : Obj) (key : string) (v : Count) : Obj :=
  match o with
  | [] => []
  | (k, w) :: o' =>
      if String.eqb k key then (k, v) :: o' else (k, w) :: update o' key v
  end.

(** The function-valued properties of [Object.prototype], each with the
    name of the function. *)
Definition prototypeFunctions : list (string * string) :=
  [ ("constructor", "Object");
    ("hasOwnProperty", "hasOwnProperty");
    ("isPrototypeOf", "isPrototypeOf");
    ("propertyIsEnumerable", "propertyIsEnumerable");
    ("toLocaleString", "toLocaleString");
    ("toString", "toString");
    ("valueOf", "valueOf");
    ("__defineGetter__", "__defineGetter__");
    ("__defineSetter__", "__defineSetter__");
    ("__lookupGetter__", "__lookupGetter__");
    ("__lookupSetter__", "__lookupSetter__") ].

Fixpoint inheritedFunction' (fs : list (string * string)) (key : string) : option string :=
  match fs with
  | [] => None
  | (k, f) :: fs' => if String.eqb k key then Some f else inheritedFunction' fs' key
  end.

Definition inheritedFunction : string -> option string :=
  inheritedFunction' prototypeFunctions.

(** The body of the reducer, [acc[response] = (acc[response] || 0) + 1],
    by the cases of the lookup [acc[response]]:
    - an own number [n]: [n + 1] is stored;
    - an own string: the string with [1] appended is stored;
    - no own property, key [__proto__]: the getter of [Object.prototype]
      gives the prototype object, [+ 1] turns it into the string
      [[object Object]1], and the setter ignores a value that is neither an
      object nor [null]: nothing is stored;
    - no own property, key of an inherited function: the function is
      truthy, [+ 1] gives its source text followed by [1], stored as a new
      own property;
    - otherwise [undefined || 0] is [0] and [1] is stored as a new own
      property. *)
Definition increment (acc : Obj) (key : string) : Obj :=
  match own acc key with
  | Some (Number n) => update acc key (Number (n + 1))
  | Some (NativeText f k) => update acc key (NativeText f (k + 1))
  | None =>
      if String.eqb key "__proto__" then acc
      else
        match inheritedFunction key with
        | Some f => (acc ++ [(key, NativeText f 1)])%list
        | None => (acc ++ [(key, Number 1)])%list
        end
  end.

(** ** The order of [Object.keys] and [Object.values] *)

Fixpoint digitsValue (acc : N) (s : string) : option N :=
  match s with
  | EmptyString => Some acc
  | String c s' =>
      if Json.isDigit c
      then digitsValue (acc * 10 + (N_of_ascii c - 48))%N s'
      else None
  end.

(** An array index: the canonical decimal form of an integer from 0 to
    2^32 - 2. *)
Definition arrayIndex (key : string) : option N :=
  match key with
  | EmptyString => None
  | String c rest =>
      if (Ascii.eqb c "0"%char && negb (String.eqb rest ""))%bool then None
      else
        match digitsValue 0 key with
        | Some n => if N.leb n 4294967294 then Some n else None
        | None => None
        end
  end.

Fixpoint insertByIndex (e : N * (string * Count)) (l : list (N * (string * Count)))
  : list (N * (string * Count)) :=
  match l with
  | [] => [e]
  | x :: l' => if N.leb (fst e) (fst x) then e :: l else x :: insertByIndex e l'
  end.

Fixpoint indexProperties (o : Obj) : list (N * (string * Count)) :=
  match o with
  | [] => []
  | kv :: o' =>
      match arrayIndex (fst kv) with
      | Some n => insertByIndex (n, kv) (indexProperties o')
      | None => indexProperties o'
      end
  end.

Definition isIndexKey (kv : string * Count) : bool :=
  match arrayIndex (fst kv) with Some _ => true | None => false end.

(** The own enumerable properties as [Object.keys] and [Object.values] list
    them: array indices in ascending order, then the other keys in the
    order of their creation. *)
Definition ordered (o : Obj) : list (string * Count) :=
  (map snd (indexProperties o) ++ filter (fun kv => negb (isIndexKey kv)) o)%list.

Definition Object_keys (o : Obj) : list string := map fst (ordered o).
Definition Object_values (o : Obj) : list Count := map snd (ordered o).

(** ** [Math.max], the quotient and the comparison *)

Inductive MaxResult : Type :=
| NaN
| NegInfinity
| Max (n : nat).

(** [Math.max(...values)]: [-Infinity] without arguments, [NaN] as soon as
    one argument converts to [NaN], as the text of a function does. *)
Fixpoint Math_max (values : list Count) : MaxResult :=
  match values with
  | [] => NegInfinity
  | v :: vs =>
      match v, Math_max vs with
      | NativeText _ _, _ => NaN
      | Number _, NaN => NaN
      | Number n, NegInfinity => Max n
      | Number n, Max m => Max (Nat.max n m)
      end
  end.

Inductive Quotient : Type :=
| QNaN
| QNegInfinity
| QPosInfinity
| QFinite (q : Q).

(** [maxAgreement / count] *)
Definition divide (maxAgreement : MaxResult) (count : nat) : Quotient :=
  match maxAgreement, count with
  | NaN, _ => QNaN
  | NegInfinity, _ => QNegInfinity
  | Max 0, 0 => QNaN
  | Max (S _), 0 => QPosInfinity
  | Max m, S c => QFinite (Z.of_nat m # Pos.of_succ_nat c)
  end.

(** [ratio >= threshold] *)
Definition atLeast (ratio : Quotient) (threshold : Q) : bool :=
  match ratio with
  | QFinite q => Qle_bool threshold q
  | QPosInfinity => true
  | QNaN | QNegInfinity => false
  end.

(** [agreementCounts[key] === maxAgreement] for an own key. *)
Definition strictEquals (v : option Count) (maxAgreement : MaxResult) : bool :=
  match v, maxAgreement with
  | Some (Number n), Max m => n =? m
  | _, _ => false
  end.

End Counts.

(** ** The agreement evaluator *)

Record ConsensusResult : Type := {
  hasConsensus : bool;
  consensusText : option string     (* the field [consensus] of the result *)
}.

(** [r.response.toLowerCase().trim()] *)
Definition normalized (r : AdvisorResponse) : string := trim (toLowerCase (response r)).

(** [[...new Set(texts)]]: the distinct texts in the order of their first
    occurrence. *)
Definition uniqueTexts (texts : list string) : list string :=
  fold_left
    (fun seen t => if existsb (String.eqb t) seen then seen else (seen ++ [t])%list)
    texts [].

Definition sameKey (text : string) (key : option string) : bool :=
  match key with
  | Some k => String.eqb text k
  | None => false
  end.

Definition checkConsensus (responses : list AdvisorResponse) (threshold : Q)
  : ConsensusResult :=
  if List.length responses <? 2 then
    {| hasConsensus := false; consensusText := None |}
  else
    let responseTexts := map normalized responses in
    let uniqueResponses := uniqueTexts responseTexts in
    if List.length uniqueResponses =? 1 then
      {| hasConsensus := true; consensusText := option_map response (hd_error responses) |}
    else
      let agreementCounts := fold_left Counts.increment responseTexts [] in
      let maxAgreement := Counts.Math_max (Counts.Object_values agreementCounts) in
      let agreementRatio := Counts.divide maxAgreement (List.length responses) in
      if Counts.atLeast agreementRatio threshold then
        let consensusResponse :=
          find (fun r =>
                  sameKey (normalized r)
                    (find (fun key =>
                             Counts.strictEquals (Counts.own agreementCounts key) maxAgreement)
                       (Counts.Object_keys agreementCounts)))
            responses in
        {| hasConsensus := true; consensusText := option_map response consensusResponse |}
      else
        {| hasConsensus := false; consensusText := None |}.

(** ** Values that arrive as the arguments of a tool call *)

(** A number of the input: the rational it denotes and the text [String(n)]
    prints for it.  The server of this version only ever prints it (when the
    list of tools is joined into the first prompt). *)
Record JsNumber : Type := {
  numberValue : Q;
  numberText : string
}.

Unset Elimination Schemes.
Inductive JSValue : Type :=
| JSUndefined
| JSNull
| JSBoolean (b : bool)
| JSNumber (n : JsNumber)
| JSString (s : string)
| JSArray (elements : list JSValue)
| JSObject (properties : list (string * JSValue)).
Set Elimination Schemes.

Module Value.

(** [!v] *)
Definition falsy (v : JSValue) : bool :=
  match v with
  | JSUndefined | JSNull => true
  | JSBoolean b => negb b
  | JSNumber n => Qeq_bool (numberValue n) 0
  | JSString s => String.eqb s ""
  | JSArray _ | JSObject _ => false
  end.

Fixpoint lookup (properties : list (string * JSValue)) (key : string) : JSValue :=
  match properties with
  | [] => JSUndefined
  | (k, v) :: rest => if String.eqb k key then v else lookup rest key
  end.

(** [data.key] for a key that no prototype defines ([problem] and
    [availableTools] are the two keys read): a [TypeError] on [undefined]
    and [null], the own property of an object, [undefined] on anything
    else. *)
Definition getProperty (data : JSValue) (key : string) : Outcome JSValue :=
  match data with
  | JSUndefined =>
      Throws (ThrownError ("Cannot read properties of undefined (reading '" ++ key ++ "')"))
  | JSNull =>
      Throws (ThrownError ("Cannot read properties of null (reading '" ++ key ++ "')"))
  | JSObject properties => Returns (lookup properties key)
  | _ => Returns JSUndefined
  end.

(** [String(v)], with the elements of an array joined by a comma. *)
Fixpoint toString (v : JSValue) : string :=
  match v with
  | JSUndefined => "undefined"
  | JSNull => "null"
  | JSBoolean true => "true"
  | JSBoolean false => "false"
  | JSNumber n => numberText n
  | JSString s => s
  | JSArray elements =>
      (fix joined (l : list JSValue) : string :=
         match l with
         | [] => ""
         | x :: l' =>
             let first :=
               match x with
               | JSUndefined | JSNull => ""
               | _ => toString x
               end in
             match l' with
             | [] => first
             | _ :: _ => first ++ "," ++ joined l'
             end
         end) elements
  | JSObject _ => "[object Object]"
  end.

(** [typeof v === 'string'] *)
Definition isString (v : JSValue) : bool :=
  match v with JSString _ => true | _ => false end.

(** [Array.isArray(v)] *)
Definition isArray (v : JSValue) : bool :=
  match v with JSArray _ => true | _ => false end.

Definition elementsOf (v : JSValue) : list JSValue :=
  match v with JSArray elements => elements | _ => [] end.

(** One element of an array under [join]: [undefined] and [null] print as
    the empty string. *)
Definition elementText (v : JSValue) : string :=
  match v with
  | JSUndefined | JSNull => ""
  | _ => toString v
  end.

End Value.

(** ** Validation of the input *)

Record ConsensusData : Type := {
  problem : string;
  availableTools : list JSValue
}.

Definition validateConsensusData (input : JSValue) : Outcome ConsensusData :=
  match Value.getProperty input "problem" with
  | Throws e => Throws e
  | Returns p =>
      if (Value.falsy p || negb (Value.isString p))%bool
      then Throws (ThrownError "Invalid problem: must be a string")
      else
        match Value.getProperty input "availableTools" with
        | Throws e => Throws e
        | Returns t =>
            if (Value.falsy t || negb (Value.isArray t))%bool
            then Throws (ThrownError "Invalid availableTools: must be an array")
            else Returns {| problem := Value.toString p;
                            availableTools := Value.elementsOf t |}
        end
  end.

(** ** The server, the remote model and one query *)

Record Server : Type := {
  disableLogging : bool;
  maxRounds : nat;
  consensusThreshold : Q;
  preConfiguredAdvisors : list AdvisorConfig
}.

(** The checks of the constructor on the two numbers: an integer from 1 to 10
    and a number from 0 to 1. *)
Definition configured (s : Server) : Prop :=
  1 <= maxRounds s <= 10 /\ (0 <= consensusThreshold s <= 1)%Q.

Record ChatMessage : Type := {
  role : string;
  content : string
}.

Record CompletionRequest : Type := {
  requestModel : string;
  messages : list ChatMessage;
  temperature : Q;
  maxCompletionTokens : option nat      (* [max_completion_tokens], when the call sets it *)
}.

(** What is read of a completion: [completion.choices[0]?.message?.content].
    [None] stands for [undefined] or [null] at that place. *)
Record Choice : Type := {
  message : option (option string)
}.

Record Completion : Type := {
  choices : option (list Choice)
}.

(** The remote model: for the call made in a phase (the number of the round,
    0 for the closing summary) for the advisor at a position of the roster,
    the completion, or what the client threw. *)
Definition Oracle := nat -> nat -> CompletionRequest -> Outcome Completion.

Definition newline : string := String "010"%char EmptyString.

Definition queryAdvisor (create : Oracle) (phase position : nat)
  (advisor : AdvisorConfig) (prompt : string) (context : option string)
  : Outcome string :=
  let messages :=
    ([ {| role := "system"; content := systemPrompt advisor |} ]
     ++ match context with
        | Some c => if truthy c then [ {| role := "user"; content := c |} ] else []
        | None => []
        end
     ++ [ {| role := "user"; content := prompt |} ])%list in
  match create phase position
          {| requestModel := model advisor; messages := messages; temperature := 7 # 10;
             maxCompletionTokens := None |} with
  | Throws e => Throws e
  | Returns completion =>
      match choices completion with
      | None => Throws (ThrownError "Cannot read properties of undefined (reading '0')")
      | Some cs =>
          let text :=
            match cs with
            | c :: _ =>
                match message c with
                | Some (Some s) => if truthy s then Some s else None
                | _ => None
                end
            | [] => None
            end in
          Returns match text with
                  | Some s => s
                  | None => "No response received"
                  end
      end
  end.

(** ** The texts built from the discussion history *)

Definition responseLine (r : AdvisorResponse) : string :=
  "- Advisor " ++ advisorId r ++ ": " ++ prefix_of_length 200 (response r) ++ "..." ++ newline.

Definition roundBlock (d : DiscussionRound) : string :=
  "Round " ++ ofNat (round d) ++ ":" ++ newline
  ++ String.concat "" (map responseLine (responses d)) ++ newline.

Definition generateDiscussionContext (discussionHistory : list DiscussionRound) : string :=
  "Previous Discussion Summary:" ++ newline ++ newline
  ++ String.concat "" (map roundBlock discussionHistory).

Record KeyPoint : Type := {
  advisor : string;
  point : string
}.

(** The object that [generateDiscussionSummary] serializes. *)
Record DiscussionSummary : Type := {
  summaryTotalRounds : nat;
  participants : list string;
  keyPoints : list KeyPoint
}.

Definition generateDiscussionSummary (discussionHistory : list DiscussionRound)
  : DiscussionSummary :=
  {| summaryTotalRounds := List.length discussionHistory;
     participants :=
       match discussionHistory with
       | first :: _ => map advisorId (responses first)
       | [] => []
       end;
     keyPoints :=
       flat_map
         (fun d =>
            map (fun r => {| advisor := advisorId r;
                             point := prefix_of_length 150 (response r) |})
              (responses d))
         discussionHistory |}.

(** ** The orchestrator *)

Inductive Settled (A : Type) : Type :=
| Fulfilled (value : A)
| Rejected (reason : Thrown).
Arguments Fulfilled {A} value.
Arguments Rejected {A} reason.

(** The value of one advisor's task in a round. *)
Record AdvisorResult : Type := {
  resultAdvisorId : string;
  resultResponse : string;
  resultToolRequests : list ToolRequest
}.

Record SummaryVariation : Type := {
  summaryAdvisorId : string;
  summary : string
}.

(** The object that becomes the text of the reply.  The three shapes are the
    three literals handed to [JSON.stringify]. *)
Inductive Payload : Type :=
| ToolRequestsPayload (status : string) (roundNumber : nat)
    (requested : list ToolRequest) (discussionSummary : DiscussionSummary)
    (nextAction : string)
| ResultPayload (status : string) (finalConsensus : string) (totalRounds : nat)
    (discussionHistory : list DiscussionRound)
    (finalSummaryVariations : list SummaryVariation) (requesterGuidance : string)
| ErrorPayload (error : string) (status : string).

Definition statusOf (p : Payload) : string :=
  match p with
  | ToolRequestsPayload status _ _ _ _ => status
  | ResultPayload status _ _ _ _ _ => status
  | ErrorPayload _ status => status
  end.

(** The reply of [processConsensus], with the discussion history the server
    object is left with. *)
Record Reply : Type := {
  payload : Payload;
  isError : bool;
  historyAfter : list DiscussionRound
}.

(** [mapi f l]: [l.map((x, i) => f(i, x))]. *)
Fixpoint mapFrom {A B : Type} (i : nat) (f : nat -> A -> B) (l : list A) : list B :=
  match l with
  | [] => []
  | x :: l' => f i x :: mapFrom (S i) f l'
  end.

Definition truthyText (t : option string) : bool :=
  match t with
  | Some s => truthy s
  | None => false
  end.

Section Orchestrator.

Variable server : Server.
Variable create : Oracle.

Definition firstPrompt (validatedInput : ConsensusData) : string :=
  "PROBLEM TO SOLVE:" ++ newline ++ problem validatedInput ++ newline ++ newline
  ++ "AVAILABLE TOOLS:" ++ newline
  ++ join ", " (map Value.elementText (availableTools validatedInput))
  ++ newline ++ newline
  ++ "Please provide your analysis and solution. If you need additional information, use the TOOL_REQUEST format."
  ++ newline ++ newline ++ "TOOL_REQUEST format example:" ++ newline
  ++ dq "TOOL_REQUEST: {'tool': 'web_search', 'parameters': {'query': 'specific search query'}, 'reason': 'I need to research current information about this topic'}".

Definition followUpPrompt (currentContext : string) : string :=
  "PREVIOUS DISCUSSION CONTEXT:" ++ newline ++ currentContext ++ newline ++ newline
  ++ "Please review the previous discussion and provide your updated analysis. Consider other advisors' perspectives and work toward consensus. If you need additional information, use the TOOL_REQUEST format.".

(** The task mapped over the roster inside [Promise.allSettled]: the query
    and the parse under [try], the failure marker under [catch]. *)
Definition advisorTask (roundNumber : nat) (prompt : string)
  (position : nat) (a : AdvisorConfig) : Settled AdvisorResult :=
  match queryAdvisor create roundNumber position a prompt None with
  | Returns text =>
      Fulfilled {| resultAdvisorId := id a;
                   resultResponse := text;
                   resultToolRequests := Directive.parseToolRequests text |}
  | Throws e =>
      Fulfilled {| resultAdvisorId := id a;
                   resultResponse := "Error querying advisor: " ++ messageOf e;
                   resultToolRequests := [] |}
  end.

(** The loop over the settled results: the responses of the round and the
    requests of all advisors. *)
Definition collectStep (acc : list AdvisorResponse * list ToolRequest)
  (result : Settled AdvisorResult) : list AdvisorResponse * list ToolRequest :=
  match result with
  | Fulfilled r =>
      ((fst acc ++
          [ {| advisorId := resultAdvisorId r;
               response := resultResponse r;
               toolRequests :=
                 if 0 <? List.length (resultToolRequests r)
                 then Some (resultToolRequests r) else None |} ])%list,
       (snd acc ++ resultToolRequests r)%list)
  | Rejected reason =>
      ((fst acc ++
          [ {| advisorId := "unknown";
               response := "Advisor failed: " ++ messageOf reason;
               toolRequests := None |} ])%list,
       snd acc)
  end.

Definition collect (results : list (Settled AdvisorResult))
  : list AdvisorResponse * list ToolRequest :=
  fold_left collectStep results ([], []).

(** The variables of the loop and the field [discussionHistory]. *)
Record RunState : Type := {
  roundNo : nat;
  currentContext : string;
  finalConsensusVar : option string;
  history : list DiscussionRound
}.

Inductive LoopOutcome : Type :=
| Left (st : RunState)                                   (* condition false, or [break] *)
| Returned (p : Payload) (h : list DiscussionRound).     (* [return] inside the loop *)

(** The responses and the requests of the round that starts in [st].  The
    tasks run concurrently; [Promise.allSettled] gives their outcomes in the
    order of the roster once all of them have settled, which is what the map
    over the roster computes with an oracle that answers per round and
    position. *)
Definition askAll (validatedInput : ConsensusData) (st : RunState)
  : list AdvisorResponse * list ToolRequest :=
  let initialPrompt :=
    if roundNo st =? 1 then firstPrompt validatedInput
    else followUpPrompt (currentContext st) in
  collect (mapFrom 0 (advisorTask (roundNo st) initialPrompt)
             (preConfiguredAdvisors server)).

(** [while (round <= this.maxRounds && !finalConsensus) { ... }].  [budget]
    bounds the number of iterations; [maxRounds] is always enough
    ([roundsLoop_budget] below), so the branch for an empty budget is never
    taken with the condition true. *)
Fixpoint roundsLoop (budget : nat) (validatedInput : ConsensusData) (st : RunState)
  : LoopOutcome :=
  if ((roundNo st <=? maxRounds server) && negb (truthyText (finalConsensusVar st)))%bool
  then
    match budget with
    | 0 => Left st
    | S budget' =>
        let (responses, allToolRequests) := askAll validatedInput st in
        let consensusResult := checkConsensus responses (consensusThreshold server) in
        let discussionRound :=
          {| round := roundNo st;
             responses := responses;
             consensus := consensusText consensusResult |} in
        let discussionHistory := (history st ++ [discussionRound])%list in
        if hasConsensus consensusResult then
          Left {| roundNo := roundNo st;
                  currentContext := currentContext st;
                  finalConsensusVar := consensusText consensusResult;
                  history := discussionHistory |}
        else if 0 <? List.length allToolRequests then
          Returned
            (ToolRequestsPayload "tool_requests_needed" (roundNo st) allToolRequests
               (generateDiscussionSummary discussionHistory)
               "Please execute the requested tools and continue the consensus process")
            discussionHistory
        else
          roundsLoop budget' validatedInput
            {| roundNo := S (roundNo st);
               currentContext := generateDiscussionContext discussionHistory;
               finalConsensusVar := finalConsensusVar st;
               history := discussionHistory |}
    end
  else Left st.

Definition summaryPrompt (finalConsensus : option string)
  (discussionHistory : list DiscussionRound) : string :=
  "FINAL SUMMARY REQUEST:" ++ newline
  ++ (match finalConsensus with
      | Some c =>
          if truthy c then "Consensus Found:" ++ newline ++ c ++ newline ++ newline else ""
      | None => ""
      end)
  ++ "Discussion Context:" ++ newline ++ generateDiscussionContext discussionHistory
  ++ newline ++ newline
  ++ "In your own words, provide a concise summary of the consensus and key reasoning (max 8 sentences).".

Definition summaryTask (prompt : string) (position : nat) (a : AdvisorConfig)
  : Settled SummaryVariation :=
  match queryAdvisor create 0 position a prompt None with
  | Returns text => Fulfilled {| summaryAdvisorId := id a; summary := text |}
  | Throws e =>
      Fulfilled {| summaryAdvisorId := id a;
                   summary := "Error generating summary: " ++ messageOf e |}
  end.

Definition summaryStep (acc : list AdvisorResponse * list SummaryVariation)
  (res : Settled SummaryVariation) : list AdvisorResponse * list SummaryVariation :=
  match res with
  | Fulfilled v =>
      ((fst acc ++ [ {| advisorId := summaryAdvisorId v;
                        response := summary v;
                        toolRequests := None |} ])%list,
       (snd acc ++ [v])%list)
  | Rejected reason =>
      (fst acc,
       (snd acc ++ [ {| summaryAdvisorId := "unknown";
                        summary := "Summary failed: " ++ messageOf reason |} ])%list)
  end.

(** What follows the loop: the summary pass, its round and the result. *)
Definition conclude (st : RunState) : Reply :=
  let finalConsensus := finalConsensusVar st in
  let prompt := summaryPrompt finalConsensus (history st) in
  let summaryResults := mapFrom 0 (summaryTask prompt) (preConfiguredAdvisors server) in
  let (summaryResponses, finalSummaryVariations) :=
    fold_left summaryStep summaryResults ([], []) in
  let discussionHistory :=
    (history st ++
       [ {| round := List.length (history st) + 1;
            responses := summaryResponses;
            consensus := finalConsensus |} ])%list in
  {| payload :=
       ResultPayload
         (if truthyText finalConsensus then "consensus_reached" else "max_rounds_reached")
         (match finalConsensus with
          | Some c =>
              if truthy c then c
              else "No consensus reached within the maximum number of rounds"
          | None => "No consensus reached within the maximum number of rounds"
          end)
         (List.length discussionHistory)
         discussionHistory
         finalSummaryVariations
         "If the consensus includes source code or requests a code artifact, please provide the full source code in your final answer (do not truncate).";
     isError := false;
     historyAfter := discussionHistory |}.

(** [processConsensus(input)] on a server whose field [discussionHistory]
    holds [before]. *)
Definition processConsensus (before : list DiscussionRound) (input : JSValue) : Reply :=
  match validateConsensusData input with
  | Throws e =>
      {| payload := ErrorPayload (messageOf e) "failed";
         isError := true;
         historyAfter := before |}
  | Returns validatedInput =>
      match roundsLoop (maxRounds server) validatedInput
              {| roundNo := 1;
                 currentContext := problem validatedInput;
                 finalConsensusVar := None;
                 history := [] |} with
      | Returned p h => {| payload := p; isError := false; historyAfter := h |}
      | Left st => conclude st
      end
  end.

End Orchestrator.

(** ** The first version of the server

    [src/index.ts] holds version 1.0.0 of the same class.  Its
    [parseToolRequests], [checkConsensus], [generateDiscussionContext] and
    [generateDiscussionSummary] are the ones above, letter for letter.  It
    differs in three places, modelled here: the round limit and the threshold
    come with the input and are validated with it; the advisors are queried
    one after the other with no [try] around the query, so that a failing
    query ends the run in the outer [catch]; and there is no summary pass.
    The numbers of the input are taken as the rationals they denote. *)
Module Legacy.

Record ConsensusData : Type := {
  problem : string;
  availableTools : list JSValue;
  maxRounds : Q;
  consensusThreshold : Q
}.

(** [typeof v === 'number'] *)
Definition isNumber (v : JSValue) : bool :=
  match v with JSNumber _ => true | _ => false end.

Definition valueOf (v : JSValue) : Q :=
  match v with JSNumber n => numberValue n | _ => 0%Q end.

(** [x < y] on numbers *)
Definition lessThan (x y : Q) : bool := negb (Qle_bool y x).

Definition validateConsensusData (input : JSValue) : Outcome ConsensusData :=
  match Value.getProperty input "problem" with
  | Throws e => Throws e
  | Returns p =>
      if (Value.falsy p || negb (Value.isString p))%bool
      then Throws (ThrownError "Invalid problem: must be a string")
      else
        match Value.getProperty input "availableTools" with
        | Throws e => Throws e
        | Returns t =>
            if (Value.falsy t || negb (Value.isArray t))%bool
            then Throws (ThrownError "Invalid availableTools: must be an array")
            else
              match Value.getProperty input "maxRounds" with
              | Throws e => Throws e
              | Returns m =>
                  if (Value.falsy m || negb (isNumber m) || lessThan (valueOf m) 1)%bool
                  then Throws (ThrownError "Invalid maxRounds: must be a number >= 1")
                  else
                    match Value.getProperty input "consensusThreshold" with
                    | Throws e => Throws e
                    | Returns c =>
                        if (Value.falsy c || negb (isNumber c)
                            || lessThan (valueOf c) 0 || lessThan 1 (valueOf c))%bool
                        then Throws (ThrownError
                                       "Invalid consensusThreshold: must be a number between 0 and 1")
                        else Returns {| problem := Value.toString p;
                                        availableTools := Value.elementsOf t;
                                        maxRounds := valueOf m;
                                        consensusThreshold := valueOf c |}
                    end
              end
        end
  end.

(** The query of this version, which also limits the length of the
    completion. *)
Definition queryAdvisor (create : Oracle) (phase position : nat)
  (advisor : AdvisorConfig) (prompt : string) (context : option string)
  : Outcome string :=
  let messages :=
    ([ {| role := "system"; content := systemPrompt advisor |} ]
     ++ match context with
        | Some c => if truthy c then [ {| role := "user"; content := c |} ] else []
        | None => []
        end
     ++ [ {| role := "user"; content := prompt |} ])%list in
  match create phase position
          {| requestModel := model advisor; messages := messages; temperature := 7 # 10;
             maxCompletionTokens := Some 2000 |} with
  | Throws e => Throws e
  | Returns completion =>
      match choices completion with
      | None => Throws (ThrownError "Cannot read properties of undefined (reading '0')")
      | Some cs =>
          let text :=
            match cs with
            | c :: _ =>
                match message c with
                | Some (Some s) => if truthy s then Some s else None
                | _ => None
                end
            | [] => None
            end in
          Returns match text with
                  | Some s => s
                  | None => "No response received"
                  end
      end
  end.

(** The result payload of this version has no summaries and no guidance. *)
Inductive Payload : Type :=
| ToolRequestsPayload (status : string) (roundNumber : nat)
    (requested : list ToolRequest) (discussionSummary : DiscussionSummary)
    (nextAction : string)
| ResultPayload (status : string) (finalConsensus : string) (totalRounds : nat)
    (discussionHistory : list DiscussionRound)
| ErrorPayload (error : string) (status : string).

Definition statusOf (p : Payload) : string :=
  match p with
  | ToolRequestsPayload status _ _ _ _ => status
  | ResultPayload status _ _ _ => status
  | ErrorPayload _ status => status
  end.

Record Reply : Type := {
  payload : Payload;
  isError : bool;
  historyAfter : list DiscussionRound
}.

Inductive LoopOutcome : Type :=
| Left (st : RunState)                                   (* condition false, or [break] *)
| Returned (p : Payload) (h : list DiscussionRound)      (* [return] inside the loop *)
| Raised (e : Thrown) (h : list DiscussionRound).        (* a query threw *)

Section Orchestrator.

Variable advisors : list AdvisorConfig.
Variable create : Oracle.

(** The loop over the advisors of one round: the first query that throws
    ends it. *)
Fixpoint askEach (roundNumber : nat) (prompt : string) (position : nat)
  (rest : list AdvisorConfig) (acc : list AdvisorResponse * list ToolRequest)
  : Outcome (list AdvisorResponse * list ToolRequest) :=
  match rest with
  | [] => Returns acc
  | a :: rest' =>
      match queryAdvisor create roundNumber position a prompt None with
      | Throws e => Throws e
      | Returns text =>
          let found := Directive.parseToolRequests text in
          askEach roundNumber prompt (S position) rest'
            ((fst acc ++
                [ {| advisorId := id a;
                     response := text;
                     toolRequests := if 0 <? List.length found then Some found else None |} ])%list,
             (snd acc ++ found)%list)
      end
  end.

Definition firstPrompt (validatedInput : ConsensusData) : string :=
  "PROBLEM TO SOLVE:" ++ newline ++ problem validatedInput ++ newline ++ newline
  ++ "AVAILABLE TOOLS:" ++ newline
  ++ join ", " (map Value.elementText (availableTools validatedInput))
  ++ newline ++ newline
  ++ "Please provide your analysis and solution. If you need additional information, use the TOOL_REQUEST format."
  ++ newline ++ newline ++ "TOOL_REQUEST format example:" ++ newline
  ++ dq "TOOL_REQUEST: {'tool': 'web_search', 'parameters': {'query': 'specific search query'}, 'reason': 'I need to research current information about this topic'}".

(** [while (round <= validatedInput.maxRounds && !finalConsensus) { ... }],
    with a budget of iterations as in [roundsLoop] above. *)
Fixpoint roundsLoop (budget : nat) (validatedInput : ConsensusData) (st : RunState)
  : LoopOutcome :=
  if (Qle_bool (inject_Z (Z.of_nat (roundNo st))) (maxRounds validatedInput)
      && negb (truthyText (finalConsensusVar st)))%bool
  then
    match budget with
    | 0 => Left st
    | S budget' =>
        let initialPrompt :=
          if roundNo st =? 1 then firstPrompt validatedInput
          else followUpPrompt (currentContext st) in
        match askEach (roundNo st) initialPrompt 0 advisors ([], []) with
        | Throws e => Raised e (history st)
        | Returns (responses, allToolRequests) =>
            let consensusResult :=
              checkConsensus responses (consensusThreshold validatedInput) in
            let discussionRound :=
              {| round := roundNo st;
                 responses := responses;
                 consensus := consensusText consensusResult |} in
            let discussionHistory := (history st ++ [discussionRound])%list in
            if hasConsensus consensusResult then
              Left {| roundNo := roundNo st;
                      currentContext := currentContext st;
                      finalConsensusVar := consensusText consensusResult;
                      history := discussionHistory |}
            else if 0 <? List.length allToolRequests then
              Returned
                (ToolRequestsPayload "tool_requests_needed" (roundNo st) allToolRequests
                   (generateDiscussionSummary discussionHistory)
                   "Please execute the requested tools and continue the consensus process")
                discussionHistory
            else
              roundsLoop budget' validatedInput
                {| roundNo := S (roundNo st);
                   currentContext := generateDiscussionContext discussionHistory;
                   finalConsensusVar := finalConsensusVar st;
                   history := discussionHistory |}
        end
    end
  else Left st.

Definition conclude (st : RunState) : Reply :=
  let finalConsensus := finalConsensusVar st in
  {| payload :=
       ResultPayload
         (if truthyText finalConsensus then "consensus_reached" else "max_rounds_reached")
         (match finalConsensus with
          | Some c =>
              if truthy c then c
              else "No consensus reached within the maximum number of rounds"
          | None => "No consensus reached within the maximum number of rounds"
          end)
         (List.length (history st))
         (history st);
     isError := false;
     historyAfter := history st |}.

(** The rounds that fit under a limit: the integer part of the limit. *)
Definition budgetOf (limit : Q) : nat := Z.to_nat (Qfloor limit).

Definition processConsensus (before : list DiscussionRound) (input : JSValue) : Reply :=
  match validateConsensusData input with
  | Throws e =>
      {| payload := ErrorPayload (messageOf e) "failed";
         isError := true;
         historyAfter := before |}
  | Returns validatedInput =>
      match roundsLoop (budgetOf (maxRounds validatedInput)) validatedInput
              {| roundNo := 1;
                 currentContext := problem validatedInput;
                 finalConsensusVar := None;
                 history := [] |} with
      | Returned p h => {| payload := p; isError := false; historyAfter := h |}
      | Raised e h =>
          {| payload := ErrorPayload (messageOf e) "failed";
             isError := true;
             historyAfter := h |}
      | Left st => conclude st
      end
  end.

End Orchestrator.

End Legacy.

(** ** The roster and the default configuration *)

Definition advisorSystemPrompt : string :=
"You are an AI advisor participating in a consensus system. Your primary goal is to contribute to finding the objectively best solution through collaborative discussion with other advisors.

Core Principles:
1. **Objectivity**: Base your analysis on facts, evidence, and logical reasoning
2. **Collaboration**: Work constructively with other advisors to reach consensus
3. **Thoroughness**: Consider problems from multiple angles and dimensions
4. **Adaptability**: Be willing to revise your position based on compelling arguments
5. **Clarity**: Express your reasoning clearly and provide well-justified conclusions

Your Role:
- Analyze the problem comprehensively using whatever perspectives are most relevant
- Consider technical, practical, strategic, ethical, and risk dimensions as appropriate
- Engage respectfully with other advisors' viewpoints
- Request additional information when needed through the tool request system
- Work toward consensus while maintaining intellectual honesty

Discussion Guidelines:
- Start with your initial analysis and proposed solution
- Consider other advisors' perspectives thoughtfully
- Revise your position when presented with strong evidence or reasoning
- Help the group identify blind spots or overlooked considerations
- Focus on finding the optimal solution rather than winning arguments

Remember that you are part of a team working toward the same goal: finding the objectively best solution to the problem at hand.".

Definition roster : list AdvisorConfig :=
  [ {| id := "advisor_alpha"; name := "Advisor Alpha";
       systemPrompt := advisorSystemPrompt; model := "moonshotai/kimi-k2" |};
    {| id := "advisor_beta"; name := "Advisor Beta";
       systemPrompt := advisorSystemPrompt; model := "deepseek/deepseek-chat-v3-0324" |};
    {| id := "advisor_gamma"; name := "Advisor Gamma";
       systemPrompt := advisorSystemPrompt; model := "z-ai/glm-4.5" |};
    {| id := "advisor_delta"; name := "Advisor Delta";
       systemPrompt := advisorSystemPrompt; model := "openai/gpt-4.1" |};
    {| id := "advisor_epsilon"; name := "Advisor Epsilon";
       systemPrompt := advisorSystemPrompt; model := "anthropic/claude-sonnet-4" |} ].

(** The server the constructor builds when the environment sets no limit and
    no threshold: 5 rounds, threshold 0.8. *)
Definition defaultServer : Server :=
  {| disableLogging := false;
     maxRounds := 5;
     consensusThreshold := 8 # 10;
     preConfiguredAdvisors := roster |}.

(** ** Numbers read from text *)

Module Number.

(** The value of a character as a digit of a radix up to 36. *)
Definition digitValue (radix : N) (c : ascii) : option N :=
  let n := N_of_ascii c in
  let v :=
    if inRange 48 57 c then Some (n - 48)%N
    else if inRange 97 122 c then Some (n - 87)%N
    else if inRange 65 90 c then Some (n - 55)%N
    else None in
  match v with
  | Some d => if (d <? radix)%N then Some d else None
  | None => None
  end.

(** The value of the longest prefix of digits of the radix; [acc] is the
    value of the digits read so far, [None] before the first digit. *)
Fixpoint digits (radix : N) (acc : option N) (s : string) : option N :=
  match s with
  | String c s' =>
      match digitValue radix c with
      | Some d =>
          digits radix
            (Some match acc with
                  | Some a => (a * radix + d)%N
                  | None => d
                  end) s'
      | None => acc
      end
  | EmptyString => acc
  end.

(** An optional sign at the head of a text: whether it is a minus, and the
    text after it. *)
Definition signOf (s : string) : bool * string :=
  match s with
  | String c r =>
      if Ascii.eqb c "-"%char then (true, r)
      else if Ascii.eqb c "+"%char then (false, r)
      else (false, s)
  | EmptyString => (false, s)
  end.

(** [parseInt(text)] without a radix: white space is skipped, a sign is
    read, the prefix [0x] or [0X] selects radix 16, and the longest prefix
    of digits is the value; [None] stands for [NaN].  The result is the
    integer the digits write; the source holds the double nearest to it,
    which compares with 1 and with 10 in the same way and is the integer
    itself from 1 to 10. *)
Definition parseInt (text : string) : option Z :=
  let (negative, s) := signOf (trimStart text) in
  let (radix, s') :=
    match s with
    | String z (String x r) =>
        if (Ascii.eqb z "0"%char && (Ascii.eqb x "x"%char || Ascii.eqb x "X"%char))%bool
        then (16%N, r) else (10%N, s)
    | _ => (10%N, s)
    end in
  match digits radix None s' with
  | Some n => Some (if negative then (- Z.of_N n)%Z else Z.of_N n)
  | None => None
  end.

(** The integer nearest to a rational, ties to the even one. *)
Definition roundHalfEven (x : Q) : Z :=
  let f := Qfloor x in
  match Qcompare (x - inject_Z f) (1 # 2) with
  | Lt => f
  | Gt => (f + 1)%Z
  | Eq => if Z.even f then f else (f + 1)%Z
  end.

(** The exponent [e] with [2^e <= |q| < 2^(e+1)], for [q] other than 0. *)
Definition binade (q : Q) : Z :=
  let e := (Z.log2 (Z.abs (Qnum q)) - Z.log2 (Z.pos (Qden q)))%Z in
  if Qle_bool (Qpower 2 e) (Qabs q) then e else (e - 1)%Z.

(** The double nearest to a rational, ties to even, as the rational it is;
    [None] when the magnitude rounds to 2^1024, where the double is an
    infinity.  A double has 53 significant bits, and exponents from -1022
    on; below, the spacing is that of exponent -1022. *)
Definition toDouble (q : Q) : option Q :=
  if Qeq_bool q 0 then Some 0%Q
  else
    let e := Z.max (binade q) (-1022) in
    let ulp := Qpower 2 (e - 52) in
    let r := (inject_Z (roundHalfEven (q / ulp)) * ulp)%Q in
    if Qle_bool (Qpower 2 1024) (Qabs r) then None else Some (Qred r).

(** What the head of a text writes as a decimal literal, after white space:
    nothing, an infinity, or a number, given exactly. *)
Inductive Literal : Type :=
| NoLiteral
| InfinityLiteral (negative : bool)
| DecimalLiteral (q : Q).

(** A double: [NaN], an infinity, or a finite value as the rational it is;
    the two zeros are one. *)
Inductive Float : Type :=
| FloatNaN
| FloatInfinity (negative : bool)
| FloatValue (q : Q).

(** The digits of a text as a number. *)
Fixpoint decimalValue (acc : N) (s : string) : N :=
  match s with
  | String c s' => decimalValue (acc * 10 + (N_of_ascii c - 48))%N s'
  | EmptyString => acc
  end.

(** An exponent part at the head of a text: [e] or [E], an optional sign
    and at least one digit; its value, 0 when there is none. *)
Definition exponentOf (s : string) : Z :=
  match s with
  | String e r =>
      if (Ascii.eqb e "e"%char || Ascii.eqb e "E"%char)%bool then
        let (negative, r') := signOf r in
        match Json.spanDigits r' with
        | (EmptyString, _) => 0%Z
        | (ds, _) =>
            if negative then (- Z.of_N (decimalValue 0 ds))%Z else Z.of_N (decimalValue 0 ds)
        end
      else 0%Z
  | EmptyString => 0%Z
  end.

(** The longest prefix of a text, after white space, that is a decimal
    literal: an optional sign, then [Infinity], or digits with an optional
    fraction, or a fraction alone, then an optional exponent part. *)
Definition strDecimalLiteral (text : string) : Literal :=
  let (negative, s) := signOf (trimStart text) in
  match afterPrefix "Infinity" s with
  | Some _ => InfinityLiteral negative
  | None =>
      let (whole, r1) := Json.spanDigits s in
      let (fraction, r2) :=
        match r1 with
        | String c r =>
            if Ascii.eqb c "."%char then Json.spanDigits r else (EmptyString, r1)
        | EmptyString => (EmptyString, r1)
        end in
      if (String.eqb whole "" && String.eqb fraction "")%bool then NoLiteral
      else
        let mantissa := Z.of_N (decimalValue 0 (whole ++ fraction)) in
        let exponent := (exponentOf r2 - Z.of_nat (String.length fraction))%Z in
        let magnitude := (inject_Z mantissa * Qpower 10 exponent)%Q in
        DecimalLiteral (if negative then (- magnitude)%Q else magnitude)
  end.

(** [parseFloat(text)]: the double nearest to the number the literal
    writes, [NaN] when there is no literal. *)
Definition parseFloat (text : string) : Float :=
  match strDecimalLiteral text with
  | NoLiteral => FloatNaN
  | InfinityLiteral negative => FloatInfinity negative
  | DecimalLiteral q =>
      match toDouble q with
      | Some d => FloatValue d
      | None => FloatInfinity (negb (Qle_bool 0 q))
      end
  end.

End Number.

(** ** The constructor *)

(** The four variables of the environment the constructor reads; [None]
    stands for a variable that is not set. *)
Record Env : Type := {
  DISABLE_CONSENSUS_LOGGING : option string;
  OPENROUTER_API_KEY : option string;
  CONSENSUS_MAX_ROUNDS : option string;
  CONSENSUS_THRESHOLD : option string
}.

(** Whether a variable is set to a text other than the empty one. *)
Definition isSet (value : option string) : bool :=
  match value with
  | Some s => truthy s
  | None => false
  end.

(** [value || fallback] *)
Definition orElse (value : option string) (fallback : string) : string :=
  match value with
  | Some s => if truthy s then s else fallback
  | None => fallback
  end.

(** [new ConsensusServer()]: the checks in the order of the source, and the
    server they leave.  The checks on the threshold are made on the double
    that [parseFloat] gives, as in the source; the server keeps the number
    the text writes, which stands for that double in this development (see
    the conventions above).  The client object the constructor also
    creates is the oracle of the runs. *)
Definition constructor (env : Env) : Outcome Server :=
  let disableLogging :=
    String.eqb (toLowerCase (orElse (DISABLE_CONSENSUS_LOGGING env) "")) "true" in
  if negb (isSet (OPENROUTER_API_KEY env)) then
    Throws (ThrownError "OPENROUTER_API_KEY environment variable is required")
  else
    match Number.parseInt (orElse (CONSENSUS_MAX_ROUNDS env) "5") with
    | None => Throws (ThrownError "CONSENSUS_MAX_ROUNDS must be a number between 1 and 10")
    | Some maxRounds =>
        if ((maxRounds <? 1) || (10 <? maxRounds))%Z then
          Throws (ThrownError "CONSENSUS_MAX_ROUNDS must be a number between 1 and 10")
        else
          let thresholdText := orElse (CONSENSUS_THRESHOLD env) "0.8" in
          match Number.parseFloat thresholdText, Number.strDecimalLiteral thresholdText with
          | Number.FloatValue consensusThreshold, Number.DecimalLiteral written =>
              if (negb (Qle_bool 0 consensusThreshold)
                  || negb (Qle_bool consensusThreshold 1))%bool then
                Throws (ThrownError "CONSENSUS_THRESHOLD must be a number between 0 and 1")
              else
                Returns {| disableLogging := disableLogging;
                           maxRounds := Z.to_nat maxRounds;
                           consensusThreshold := written;
                           preConfiguredAdvisors := roster |}
          | _, _ => Throws (ThrownError "CONSENSUS_THRESHOLD must be a number between 0 and 1")
          end
    end.

(** * Vocabulary of the statements *)

Module JsonSpec.
Import Json.

(** With more fuel than the parsers need, none runs out of fuel, and what a
    parser leaves is no longer than what it got. *)
Definition adequate (fuel : nat) : Prop :=
  (forall s, 2 * String.length s < fuel ->
      parseValue fuel s <> Exhausted
      /\ forall v r, parseValue fuel s = Ok v r -> String.length r <= String.length s)
  /\ (forall s, 2 * String.length s < fuel ->
        parseMembers fuel s <> Exhausted
        /\ forall v r, parseMembers fuel s = Ok v r -> String.length r <= String.length s)
  /\ (forall s, 2 * String.length s + 1 < fuel ->
        parseElements fuel s <> Exhausted
        /\ forall v r, parseElements fuel s = Ok v r -> String.length r <= String.length s).

End JsonSpec.

Module RegExpSpec.
Import RegExp.

(** A continuation ends at or after its start and inside the input. *)
Definition bounded (k : Cont) : Prop :=
  forall s pos e caps, k s pos = Some (e, caps) -> pos <= e <= pos + String.length s.

(** The pattern never matches the empty string. *)
Definition consuming (p : Pattern) : Prop :=
  forall s pos e caps, matchNodes p [] [] s pos = Some (e, caps) ->
                       pos < e <= pos + String.length s.

(** The matches the loop sees when it starts with [lastIndex]. *)
Definition scanFrom (p : Pattern) (input : string) (lastIndex : nat) : list Match :=
  scan p input (drop lastIndex input) lastIndex 0.

(** The first character the pattern asks for, when it starts with one. *)
Fixpoint firstChar (p : Pattern) : option ascii :=
  match p with
  | Lit (String c _) :: _ => Some c
  | GroupOpen :: p' => firstChar p'
  | GroupClose :: p' => firstChar p'
  | _ => None
  end.

(** The continuation fails on every text that starts in the class. *)
Definition rejects (cl : CharClass) (k : Cont) : Prop :=
  forall c t pos, classMatches cl c = true -> k (String c t) pos = None.

(** The text is empty or starts outside the class. *)
Definition stops (cl : CharClass) (s : string) : Prop :=
  match s with
  | EmptyString => True
  | String c _ => classMatches cl c = false
  end.

Fixpoint allIn (cl : CharClass) (s : string) : Prop :=
  match s with
  | EmptyString => True
  | String c s' => classMatches cl c = true /\ allIn cl s'
  end.

Fixpoint hasChar (c : ascii) (s : string) : bool :=
  match s with
  | EmptyString => false
  | String a s' => (Ascii.eqb a c || hasChar c s')%bool
  end.

End RegExpSpec.

Module DirectiveSpec.
Import RegExp Directive.

(** What one match adds to the requests, and to the warnings. *)
Definition extracted (m : Match) : list ToolRequest :=
  match Json.parse (group 2 m) with
  | Returns params => [ {| tool := group 1 m; parameters := params; reason := group 3 m |} ]
  | Throws _ => []
  end.

Definition warned (m : Match) : list string :=
  match Json.parse (group 2 m) with
  | Returns _ => []
  | Throws _ => [ "Failed to parse tool request: " ++ matched m ]
  end.


(** No match of the directive pattern starts at position [p] of [text]. *)
Definition noMatchAt (text : string) (p : nat) : Prop :=
  forall m, In m (execAll toolRegex text) -> index m <> p.

Definition toolMember (name : string) : string * string := ("tool", quoted name).
Definition parametersMember (object : string) : string * string := ("parameters", object).
Definition reasonMember (why : string) : string * string := ("reason", quoted why).

(** The five orders of three members that are not the order given. *)
Definition otherOrders {A : Type} (a b c : A) : list (list A) :=
  [ [a; c; b]; [b; a; c]; [b; c; a]; [c; a; b]; [c; b; a] ].


Definition emptyParameters : string :=
  directiveText [toolMember "web_search"; parametersMember "{}"; reasonMember "no query"].

Definition reasonFirst : string :=
  directiveText [reasonMember "why"; toolMember "web_search";
                 parametersMember (dq "{'query': 'x'}")].

Definition nestedParameters : string :=
  directiveText [toolMember "web_search";
                 parametersMember (dq "{'filter': {'year': 2024}}");
                 reasonMember "recent data"].

(** A nested object followed by a member called [reason]: here the pattern
    does match, up to the first closing brace. *)
Definition nestedThenReason : string :=
  directiveText [toolMember "web_search";
                 parametersMember (dq "{'filter': {'year': 2024}, 'reason': 'x'}");
                 reasonMember "recent data"].

End DirectiveSpec.

Module ConsensusSpec.

(** The number of texts of the round equal to [t]. *)
Definition occurrences (texts : list string) (t : string) : nat :=
  count_occ string_dec texts t.

(** The maximum occurrence count among the texts. *)
Definition maxOccurrence (texts : list string) : nat :=
  list_max (map (occurrences texts) texts).

(** A key that [Object.prototype] does not define. *)
Definition plainKey (k : string) : Prop :=
  k <> "__proto__" /\ Counts.inheritedFunction k = None.

(** [m / n] for [n > 0]. *)
Definition ratio (m n : nat) : Q := Z.of_nat m # Pos.of_nat n.

(** A round with the given response texts. *)
Definition respond (texts : list string) : list AdvisorResponse :=
  map (fun t => {| advisorId := "advisor"; response := t; toolRequests := None |}) texts.

(** One step of [uniqueTexts]. *)
Definition addText (seen : list string) (t : string) : list string :=
  if existsb (String.eqb t) seen then seen else (seen ++ [t])%list.

(** The object the reducer builds when no text is a key of the prototype:
    the distinct texts in the order of their first occurrence, each with
    its count. *)
Definition tally (texts : list string) : Counts.Obj :=
  map (fun k => (k, Counts.Number (occurrences texts k))) (uniqueTexts texts).

Definition isUpper (c : ascii) : bool := inRange 65 90 c.

Fixpoint hasUpper (s : string) : bool :=
  match s with
  | EmptyString => false
  | String c s' => (isUpper c || hasUpper s')%bool
  end.

End ConsensusSpec.

Module RunSpec.

(** The requests recorded with a response. *)
Definition requestsOf (r : AdvisorResponse) : list ToolRequest :=
  match toolRequests r with
  | Some l => l
  | None => []
  end.

(** The aggregated requests of a round. *)
Definition aggregated (d : DiscussionRound) : list ToolRequest :=
  flat_map requestsOf (responses d).

Definition hasRequests (d : DiscussionRound) : Prop :=
  exists r, In r (responses d) /\ toolRequests r <> None.

(** The response and the requests that [collectStep] takes from one settled
    task. *)
Definition responseOfResult (result : Settled AdvisorResult) : AdvisorResponse :=
  match result with
  | Fulfilled r =>
      {| advisorId := resultAdvisorId r;
         response := resultResponse r;
         toolRequests :=
           if 0 <? List.length (resultToolRequests r)
           then Some (resultToolRequests r) else None |}
  | Rejected reason =>
      {| advisorId := "unknown";
         response := "Advisor failed: " ++ messageOf reason;
         toolRequests := None |}
  end.

Definition requestsOfResult (result : Settled AdvisorResult) : list ToolRequest :=
  match result with
  | Fulfilled r => resultToolRequests r
  | Rejected _ => []
  end.

Definition historyOf (o : LoopOutcome) : list DiscussionRound :=
  match o with
  | Left st => history st
  | Returned _ h => h
  end.

(** The response at a position answers for the advisor at that position:
    it carries the advisor's id, and its text is what the query returned
    or, when the query threw, the marker followed by the reason. *)
Definition answered (create : Oracle) (phase : nat) (marker prompt : string)
  (pa : nat * AdvisorConfig) (resp : AdvisorResponse) : Prop :=
  advisorId resp = id (snd pa)
  /\ match queryAdvisor create phase (fst pa) (snd pa) prompt None with
     | Returns text => response resp = text
     | Throws e => response resp = marker ++ messageOf e
     end.

(** The advisors of a roster with their positions. *)
Definition positioned (advisors : list AdvisorConfig) : list (nat * AdvisorConfig) :=
  combine (seq 0 (List.length advisors)) advisors.


Section Rounds.
Variable server : Server.
Variable create : Oracle.

(** What the evaluator says of the responses of a round. *)
Definition evaluated (d : DiscussionRound) : ConsensusResult :=
  checkConsensus (responses d) (consensusThreshold server).

(** A round after which the loop goes on. *)
Definition quiet (d : DiscussionRound) : Prop :=
  hasConsensus (evaluated d) = false /\ aggregated d = [].

(** A round as an iteration of the loop records it. *)
Definition recorded (d : DiscussionRound) : Prop :=
  consensus d = consensusText (evaluated d)
  /\ exists prompt,
      responses d =
      map responseOfResult
        (mapFrom 0 (advisorTask create (round d) prompt) (preConfiguredAdvisors server)).

Definition toolRequestsNeeded (d : DiscussionRound) (h : list DiscussionRound) : Payload :=
  ToolRequestsPayload "tool_requests_needed" (round d) (aggregated d)
    (generateDiscussionSummary h)
    "Please execute the requested tools and continue the consensus process".

(** What an execution of the loop from [st] leaves: the rounds it
    appended, numbered from the round of [st], all but the last quiet;
    and how it ended. *)
Definition loopSpec (st : RunState) (o : LoopOutcome) : Prop :=
  exists new,
    historyOf o = (history st ++ new)%list
    /\ map round new = seq (roundNo st) (List.length new)
    /\ List.length new <= S (maxRounds server) - roundNo st
    /\ Forall recorded new
    /\ match o with
       | Left st' =>
           (Forall quiet new /\ finalConsensusVar st' = finalConsensusVar st)
           \/ (exists qs d,
                  new = (qs ++ [d])%list /\ Forall quiet qs
                  /\ hasConsensus (evaluated d) = true
                  /\ finalConsensusVar st' = consensus d)
       | Returned p h =>
           exists qs d,
             new = (qs ++ [d])%list /\ Forall quiet qs
             /\ hasConsensus (evaluated d) = false
             /\ aggregated d <> []
             /\ p = toolRequestsNeeded d h
       end.
End Rounds.

(** The first state of the loop. *)
Definition initialState (validatedInput : ConsensusData) : RunState :=
  {| roundNo := 1;
     currentContext := problem validatedInput;
     finalConsensusVar := None;
     history := [] |}.

(** The text of one advisor in the summary pass. *)
Definition summaryText (create : Oracle) (prompt : string) (position : nat)
  (a : AdvisorConfig) : string :=
  match queryAdvisor create 0 position a prompt None with
  | Returns text => text
  | Throws e => "Error generating summary: " ++ messageOf e
  end.

Definition summaryResponse (create : Oracle) (prompt : string) (position : nat)
  (a : AdvisorConfig) : AdvisorResponse :=
  {| advisorId := id a;
     response := summaryText create prompt position a;
     toolRequests := None |}.

Definition summaryVariation (create : Oracle) (prompt : string) (position : nat)
  (a : AdvisorConfig) : SummaryVariation :=
  {| summaryAdvisorId := id a; summary := summaryText create prompt position a |}.

(** The round that the summary pass appends as round [n]. *)
Definition summaryRound (create : Oracle) (advisors : list AdvisorConfig)
  (final : option string) (n : nat) (sd : DiscussionRound) : Prop :=
  round sd = n
  /\ consensus sd = final
  /\ (forall r, In r (responses sd) -> toolRequests r = None)
  /\ exists prompt,
      Forall2 (answered create 0 "Error generating summary: " prompt)
        (positioned advisors) (responses sd).

Definition noConsensusText : string :=
  "No consensus reached within the maximum number of rounds".

(** The three ways a run ends once the input is valid.  [new] are the
    rounds of the loop. *)
Definition endsWithRequests (server : Server) (reply : Reply)
  (new : list DiscussionRound) : Prop :=
  exists qs d,
    new = (qs ++ [d])%list /\ Forall (quiet server) qs
    /\ hasConsensus (evaluated server d) = false
    /\ aggregated d <> []
    /\ historyAfter reply = new
    /\ payload reply = toolRequestsNeeded d new.

Definition endsWithConsensus (server : Server) (create : Oracle) (reply : Reply)
  (new : list DiscussionRound) : Prop :=
  exists qs d text sd variations guidance,
    new = (qs ++ [d])%list /\ Forall (quiet server) qs
    /\ hasConsensus (evaluated server d) = true
    /\ consensus d = Some text
    /\ summaryRound create (preConfiguredAdvisors server) (Some text)
         (List.length new + 1) sd
    /\ historyAfter reply = (new ++ [sd])%list
    /\ payload reply =
         ResultPayload "consensus_reached" text (List.length new + 1)
           (new ++ [sd])%list variations guidance.

Definition endsAtLimit (server : Server) (create : Oracle) (reply : Reply)
  (new : list DiscussionRound) : Prop :=
  exists sd variations guidance,
    Forall (quiet server) new
    /\ summaryRound create (preConfiguredAdvisors server) None (List.length new + 1) sd
    /\ historyAfter reply = (new ++ [sd])%list
    /\ payload reply =
         ResultPayload "max_rounds_reached" noConsensusText (List.length new + 1)
           (new ++ [sd])%list variations guidance.

Definition runSpec (server : Server) (create : Oracle) (reply : Reply) : Prop :=
  isError reply = false
  /\ exists new,
      Forall (recorded server create) new
      /\ map round new = seq 1 (List.length new)
      /\ List.length new <= maxRounds server
      /\ (endsWithRequests server reply new
          \/ endsWithConsensus server create reply new
          \/ endsAtLimit server create reply new).

(** The first round of a history, and the response at a position of a
    round. *)
Definition firstRound (h : list DiscussionRound) : DiscussionRound :=
  hd {| round := 0; responses := []; consensus := None |} h.

Definition responseAt (i : nat) (d : DiscussionRound) : AdvisorResponse :=
  nth i (responses d) {| advisorId := ""; response := ""; toolRequests := None |}.




End RunSpec.

(** Oracles and inputs of the examples. *)
Module Scenarios.

Definition completion (text : string) : Outcome Completion :=
  Returns {| choices := Some [ {| message := Some (Some text) |} ] |}.

Definition sampleInput : JSValue :=
  JSObject [ ("problem", JSString "Should we adopt a remote-first work policy?");
             ("availableTools", JSArray [JSString "web_search"; JSString "read_file"]) ].


Definition sampleData : ConsensusData :=
  {| problem := "Should we adopt a remote-first work policy?";
     availableTools := [JSString "web_search"; JSString "read_file"] |}.

(** Every advisor gives the same answer. *)
Definition unanimousOracle : Oracle := fun _ _ _ => completion "Adopt policy X.".

Definition directiveAnswer : string :=
  dq "I need data first. TOOL_REQUEST: {'tool': 'web_search', 'parameters': {'query': 'remote work productivity'}, 'reason': 'current figures'}".

(** The advisors disagree, and the third asks for a tool in round 1. *)
Definition requestingOracle : Oracle :=
  fun phase position _ =>
    if ((phase =? 1) && (position =? 2))%bool then completion directiveAnswer
    else completion ("Option " ++ ofNat position).

(** Every advisor gives the same answer, which carries a directive. *)
Definition agreeingRequestingOracle : Oracle := fun _ _ _ => completion directiveAnswer.


(** The advisors never agree. *)
Definition disagreeingOracle : Oracle :=
  fun phase position _ =>
    completion ("Option " ++ ofNat position ++ " after round " ++ ofNat phase).

(** Scenario D: the first advisor fails, the other four agree. *)
Definition oneFailureOracle : Oracle :=
  fun _ position _ =>
    if position =? 0 then Throws (ThrownError "connect ETIMEDOUT")
    else completion "Adopt policy X.".

(** An input of the first version: the round limit and the threshold come
    with it; the list of tools is empty. *)
Definition legacyInput : JSValue :=
  JSObject [ ("problem", JSString "Should we adopt a remote-first work policy?");
             ("availableTools", JSArray []);
             ("maxRounds", JSNumber {| numberValue := 3; numberText := "3" |});
             ("consensusThreshold",
              JSNumber {| numberValue := 8 # 10; numberText := "0.8" |}) ].


(** Two oracles agree on every call of the rounds (the phases from 1 on). *)
Definition agreeOnRounds (create create' : Oracle) : Prop :=
  forall phase position request,
    1 <= phase -> create phase position request = create' phase position request.

End Scenarios.

Module LegacySpec.
Import RunSpec.

(** The server record that carries the threshold and the roster of a run of
    the first version. *)
Definition serverOf (advisors : list AdvisorConfig) (v : Legacy.ConsensusData) : Server :=
  {| disableLogging := false;
     maxRounds := Legacy.budgetOf (Legacy.maxRounds v);
     consensusThreshold := Legacy.consensusThreshold v;
     preConfiguredAdvisors := advisors |}.

Definition legacyHistoryOf (o : Legacy.LoopOutcome) : list DiscussionRound :=
  match o with
  | Legacy.Left st => history st
  | Legacy.Returned _ h => h
  | Legacy.Raised _ h => h
  end.

(** A round as an iteration of the loop of the first version records it. *)
Definition legacyRecorded (server : Server) (d : DiscussionRound) : Prop :=
  consensus d = consensusText (evaluated server d)
  /\ forall r, In r (responses d) ->
               truthy (response r) = true /\ toolRequests r <> Some [].

Definition legacyToolRequestsNeeded (d : DiscussionRound) (h : list DiscussionRound)
  : Legacy.Payload :=
  Legacy.ToolRequestsPayload "tool_requests_needed" (round d) (aggregated d)
    (generateDiscussionSummary h)
    "Please execute the requested tools and continue the consensus process".

Definition legacyLoopSpec (server : Server) (st : RunState) (o : Legacy.LoopOutcome) : Prop :=
  exists new,
    legacyHistoryOf o = (history st ++ new)%list
    /\ map round new = seq (roundNo st) (List.length new)
    /\ Forall (legacyRecorded server) new
    /\ match o with
       | Legacy.Left st' =>
           (Forall (quiet server) new /\ finalConsensusVar st' = finalConsensusVar st)
           \/ (exists qs d,
                  new = (qs ++ [d])%list /\ Forall (quiet server) qs
                  /\ hasConsensus (evaluated server d) = true
                  /\ finalConsensusVar st' = consensus d)
       | Legacy.Returned p h =>
           exists qs d,
             new = (qs ++ [d])%list /\ Forall (quiet server) qs
             /\ hasConsensus (evaluated server d) = false
             /\ aggregated d <> []
             /\ p = legacyToolRequestsNeeded d h
       | Legacy.Raised _ _ => Forall (quiet server) new
       end.

End LegacySpec.

(** ** More vocabulary *)

Module EvaluatorSpec.
Import Counts ConsensusSpec.

(** What the reducer leaves under a key that occurs [n] times among the
    texts. *)
Definition stored (key : string) (n : nat) : option Count :=
  match n with
  | 0 => None
  | S _ =>
      if String.eqb key "__proto__" then None
      else
        match inheritedFunction key with
        | Some f => Some (NativeText f n)
        | None => Some (Number n)
        end
  end.

(** All texts are the same. *)
Definition unanimous (texts : list string) : Prop :=
  forall x y, In x texts -> In y texts -> x = y.

(** A text other than [__proto__] whose share of the round reaches the
    threshold. *)
Definition supported (texts : list string) (threshold : Q) (k : string) : Prop :=
  In k texts /\ k <> "__proto__"
  /\ (threshold <= ratio (occurrences texts k) (List.length texts))%Q.

End EvaluatorSpec.

Module SpellSpec.
Import RegExp RegExpSpec.

(** The text one node of a pattern consumes. *)
Definition nodeSpells (n : Node) (t : string) : Prop :=
  match n with
  | Lit l => t = l
  | Star cl => allIn cl t
  | Plus cl => t <> "" /\ allIn cl t
  | GroupOpen | GroupClose => t = ""
  end.

(** The texts of the groups that close while the nodes of a pattern
    consume [parts], one part per node, in the order of their closing;
    [inside] holds what the groups that are open have consumed so far. *)
Fixpoint captured (p : Pattern) (inside : list string) (parts : list string) : list string :=
  match p, parts with
  | GroupOpen :: p', _ :: parts' => captured p' ("" :: inside) parts'
  | GroupClose :: p', _ :: parts' =>
      match inside with
      | t :: inside' => t :: captured p' inside' parts'
      | [] => []
      end
  | _ :: p', t :: parts' => captured p' (map (fun o => o ++ t) inside) parts'
  | _, _ => []
  end.

(** The parts one after the other. *)
Definition spelled (parts : list string) : string := fold_right append "" parts.

(** What the spans of the open groups hold at a position. *)
Definition holds (input : string) (pos : nat) (opened : list nat) (inside : list string) : Prop :=
  Forall2 (fun a t => a <= pos /\ slice a pos input = t) opened inside.

(** The parts leave the matcher no choice: a repetition is followed, in
    the text, by a character outside its class and, in the pattern, by that
    same kind of character, so it takes its whole part and nothing else;
    and a group closes only when one is open ([depth] counts them). *)
Fixpoint decided (p : Pattern) (depth : nat) (parts : list string) (rest : string) : Prop :=
  match p, parts with
  | [], [] => True
  | Lit l :: p', t :: parts' => t = l /\ decided p' depth parts' rest
  | Star cl :: p', t :: parts' =>
      allIn cl t /\ stops cl (spelled parts' ++ rest)
      /\ (exists c0, firstChar p' = Some c0 /\ classMatches cl c0 = false)
      /\ decided p' depth parts' rest
  | Plus cl :: p', t :: parts' =>
      t <> "" /\ allIn cl t /\ stops cl (spelled parts' ++ rest)
      /\ (exists c0, firstChar p' = Some c0 /\ classMatches cl c0 = false)
      /\ decided p' depth parts' rest
  | GroupOpen :: p', t :: parts' => t = "" /\ decided p' (S depth) parts' rest
  | GroupClose :: p', t :: parts' =>
      t = "" /\ match depth with
                | S d => decided p' d parts' rest
                | 0 => False
                end
  | _, _ => False
  end.

End SpellSpec.

Module LayoutSpec.
Import RegExp RegExpSpec Directive.

(** A text of white space only. *)
Definition blank (s : string) : Prop := allIn WhiteSpace s.

(** The text of a directive as the pattern reads it: the marker, the three
    members in their order, and white space, taken from [ws] by position,
    wherever the pattern allows it. *)
Definition layout (ws : list string) (name body why : string) : string :=
  "TOOL_REQUEST:" ++ nth 0 ws "" ++ "{" ++ nth 1 ws ""
  ++ dq "'tool':" ++ nth 2 ws "" ++ dq "'" ++ name ++ dq "'"
  ++ nth 3 ws "" ++ "," ++ nth 4 ws ""
  ++ dq "'parameters':" ++ nth 5 ws "" ++ "{" ++ body ++ "}"
  ++ nth 6 ws "" ++ "," ++ nth 7 ws ""
  ++ dq "'reason':" ++ nth 8 ws "" ++ dq "'" ++ why ++ dq "'"
  ++ nth 9 ws "" ++ "}".

(** The three captures of such a text: no double quote in the name and in
    the reason, no closing brace in the parameters, none of them empty. *)
Definition wellFormed (ws : list string) (name body why : string) : Prop :=
  Forall blank ws
  /\ name <> "" /\ hasChar quote name = false
  /\ body <> "" /\ hasChar "}"%char body = false
  /\ why <> "" /\ hasChar quote why = false.

(** The same text, one part per node of the pattern. *)
Definition partsOf (ws : list string) (name body why : string) : list string :=
  [ "TOOL_REQUEST:"; nth 0 ws ""; "{"; nth 1 ws "";
    dq "'tool':"; nth 2 ws ""; dq "'"; ""; name; ""; dq "'";
    nth 3 ws ""; ","; nth 4 ws "";
    dq "'parameters':"; nth 5 ws ""; ""; "{"; body; "}"; "";
    nth 6 ws ""; ","; nth 7 ws "";
    dq "'reason':"; nth 8 ws ""; dq "'"; ""; why; ""; dq "'";
    nth 9 ws ""; "}" ].

(** [hay.indexOf(needle)], with [None] for -1. *)
Fixpoint indexOf (needle hay : string) : option nat :=
  match afterPrefix needle hay with
  | Some _ => Some 0
  | None =>
      match hay with
      | String _ hay' => option_map S (indexOf needle hay')
      | EmptyString => None
      end
  end.

(** A match seen from [d] positions further left. *)
Definition shiftMatch (d : nat) (m : Match) : Match :=
  {| index := index m + d; matched := matched m; groups := groups m;
     endIndex := endIndex m + d |}.

(** The same for the span of a group and for the result of the matcher. *)
Definition shiftSpan (d : nat) (span : nat * nat) : nat * nat :=
  (fst span + d, snd span + d).

Definition shifted (d : nat) (r : option (nat * Captures)) : option (nat * Captures) :=
  match r with
  | Some (e, caps) => Some (e + d, map (shiftSpan d) caps)
  | None => None
  end.

(** The white space of the format that the first prompt shows. *)
Definition promptSpacing : list string := [" "; ""; " "; ""; " "; " "; ""; " "; " "; ""].

End LayoutSpec.

Module ConfigSpec.

(** A text of white space only, as a test. *)
Fixpoint allWhiteSpace (s : string) : bool :=
  match s with
  | EmptyString => true
  | String c s' => (isWhiteSpace c && allWhiteSpace s')%bool
  end.

(** A text that ends a decimal number written before it: it does not go on
    with a digit, nor with the letter that would make a leading zero the
    prefix of a hexadecimal number. *)
Definition endsNumber (rest : string) : bool :=
  match rest with
  | EmptyString => true
  | String c _ =>
      negb (Json.isDigit c || Ascii.eqb c "x"%char || Ascii.eqb c "X"%char)
  end.

(** An environment with the key of the API, and the other variables as
    given. *)
Definition environment (key : string) (logging rounds threshold : option string) : Env :=
  {| DISABLE_CONSENSUS_LOGGING := logging;
     OPENROUTER_API_KEY := Some key;
     CONSENSUS_MAX_ROUNDS := rounds;
     CONSENSUS_THRESHOLD := threshold |}.

End ConfigSpec.

Module RequestSpec.

(** The request the server sends for an advisor: the advisor's model, its
    system prompt, one user message, the temperature 0.7 and no limit on
    the length of the completion. *)
Definition expected (a : AdvisorConfig) (request : CompletionRequest) : bool :=
  match messages request with
  | [first; second] =>
      (String.eqb (requestModel request) (model a)
       && String.eqb (role first) "system"
       && String.eqb (content first) (systemPrompt a)
       && String.eqb (role second) "user"
       && Qeq_bool (temperature request) (7 # 10)
       && match maxCompletionTokens request with
          | None => true
          | Some _ => false
          end)%bool
  | _ => false
  end.

(** A remote model that fails on every request other than the expected one
    for the advisor at the position. *)
Definition guarded (server : Server) (create : Oracle) : Oracle :=
  fun phase position request =>
    match nth_error (preConfiguredAdvisors server) position with
    | Some a =>
        if expected a request then create phase position request
        else Throws (ThrownError "unexpected request")
    | None => Throws (ThrownError "unexpected request")
    end.

End RequestSpec.

Module ContextSpec.

(** What the context shows of a round: its number and, for each response,
    the advisor and the first 200 characters. *)
Definition shown (d : DiscussionRound) : nat * list (string * string) :=
  (round d, map (fun r => (advisorId r, prefix_of_length 200 (response r))) (responses d)).

End ContextSpec.

(** Inputs, servers and answers of the examples. *)
Module Examples.
Import Scenarios LayoutSpec.

(** The sample input with a round limit and a threshold of its own, as the
    first version of the tool took them. *)
Definition overridingInput : JSValue :=
  JSObject [ ("problem", JSString "Should we adopt a remote-first work policy?");
             ("availableTools", JSArray [JSString "web_search"; JSString "read_file"]);
             ("maxRounds", JSNumber {| numberValue := 1; numberText := "1" |});
             ("consensusThreshold",
              JSNumber {| numberValue := 1 # 10; numberText := "0.1" |}) ].

(** What [legacyInput] validates to. *)
Definition legacyData : Legacy.ConsensusData :=
  {| Legacy.problem := "Should we adopt a remote-first work policy?";
     Legacy.availableTools := [];
     Legacy.maxRounds := 3;
     Legacy.consensusThreshold := 8 # 10 |}.

(** The members of the directive in [directiveAnswer]. *)
Definition sampleBody : string := dq "'query': 'remote work productivity'".

Definition sampleRequest : ToolRequest :=
  {| tool := "web_search";
     parameters := Json.JObject [("query", Json.JString "remote work productivity")];
     reason := "current figures" |}.

(** An environment that sets the four variables. *)
Definition sampleEnv : Env :=
  {| DISABLE_CONSENSUS_LOGGING := Some "TRUE";
     OPENROUTER_API_KEY := Some "sk-or-v1-0000";
     CONSENSUS_MAX_ROUNDS := Some " 7 rounds";
     CONSENSUS_THRESHOLD := Some "0.75" |}.

(** An answer of 200 characters followed by [ending]. *)
Definition longAnswer (ending : string) : string :=
  String.concat "" (repeat "0123456789" 20) ++ ending.

(** A history of one round with one answer. *)
Definition oneAnswer (text : string) : list DiscussionRound :=
  [ {| round := 1;
       responses := [ {| advisorId := "advisor_alpha"; response := text;
                         toolRequests := None |} ];
       consensus := None |} ].

End Examples.

(** * Properties *)

(** ** JSON.parse never runs out of fuel *)

Module JsonFacts.
Import Json JsonSpec.


Lemma skipSpace_length (s : string) : String.length (skipSpace s) <= String.length s.
Proof.
  induction s as [|c s IH]; simpl; [lia |].
  destruct (isJsonSpace c); simpl; lia.
Qed.

Lemma skipSpace_cons (s : string) (c : ascii) (r : string) :
  skipSpace s = String c r -> String.length r < String.length s.
Proof.
  intros H. pose proof (skipSpace_length s) as L. rewrite H in L. simpl in L. lia.
Qed.

Lemma stringBody_length (s l r : string) :
  stringBody s = Some (l, r) -> String.length r < String.length s.
Proof.
  revert l r.
  assert (G : forall n s, String.length s <= n -> forall l r,
                stringBody s = Some (l, r) -> String.length r < String.length s).
  { clear s. induction n as [|n IH]; intros s Hn l r H.
    - destruct s; [discriminate | simpl in Hn; lia].
    - destruct s as [|c s1]; [discriminate |]. simpl in Hn. simpl in H.
      destruct (Ascii.eqb c quote).
      + inversion H; subst. simpl. lia.
      + destruct (Ascii.eqb c backslash).
        * destruct s1 as [|e s2]; [discriminate |]. simpl in Hn.
          destruct (isSimpleEscape e).
          -- destruct (stringBody s2) as [[l' r']|] eqn:B; [|discriminate].
             inversion H; subst. apply IH in B; [simpl; lia | lia].
          -- destruct (Ascii.eqb e "u"%char); [|discriminate].
             destruct s2 as [|h1 [|h2 [|h3 [|h4 s6]]]]; try discriminate.
             destruct (isHexDigit h1 && isHexDigit h2 && isHexDigit h3 && isHexDigit h4)%bool;
               [|discriminate].
             destruct (stringBody s6) as [[l' r']|] eqn:B; [|discriminate].
             inversion H; subst. simpl in Hn. apply IH in B; [simpl; lia | lia].
        * destruct (N.ltb (N_of_ascii c) 32); [discriminate |].
          destruct (stringBody s1) as [[l' r']|] eqn:B; [|discriminate].
          inversion H; subst. apply IH in B; [simpl; lia | lia]. }
  intros l r. apply (G (String.length s)). lia.
Qed.

Lemma spanDigits_length (s ds r : string) :
  spanDigits s = (ds, r) -> String.length r <= String.length s.
Proof.
  revert ds r; induction s as [|c s IH]; intros ds r H; simpl in H.
  - inversion H; subst. simpl. lia.
  - destruct (isDigit c).
    + destruct (spanDigits s) as [ds' r'] eqn:E. inversion H; subst.
      specialize (IH _ _ eq_refl). simpl. lia.
    + inversion H; subst. lia.
Qed.

Lemma integerPart_length (s l r : string) :
  integerPart s = Some (l, r) -> String.length r <= String.length s.
Proof.
  unfold integerPart.
  assert (G : forall sign s1, String.length s1 <= String.length s ->
    match s1 with
    | EmptyString => None
    | String d r0 =>
        if Ascii.eqb d "0"%char then Some (sign ++ "0", r0)
        else if isDigit d then let (ds, r') := spanDigits r0 in Some (sign ++ String d ds, r')
        else None
    end = Some (l, r) -> String.length r <= String.length s).
  { intros sign s1 L H. destruct s1 as [|d r0]; [discriminate |]. simpl in L.
    destruct (Ascii.eqb d "0"%char).
    - inversion H; subst. lia.
    - destruct (isDigit d); [|discriminate].
      destruct (spanDigits r0) as [ds r'] eqn:E. inversion H; subst.
      apply spanDigits_length in E. lia. }
  destruct s as [|c s'].
  - simpl. discriminate.
  - destruct (Ascii.eqb c "-"%char); intros H.
    + apply (G "-" s'); [simpl; lia | exact H].
    + apply (G "" (String c s')); [simpl; lia | exact H].
Qed.

Lemma fractionPart_length (s l r : string) :
  fractionPart s = Some (l, r) -> String.length r <= String.length s.
Proof.
  unfold fractionPart. destruct s as [|c s']; intros H.
  - inversion H; subst. lia.
  - destruct (Ascii.eqb c "."%char).
    + destruct (spanDigits s') as [ds r'] eqn:D. apply spanDigits_length in D.
      destruct ds; [discriminate |]. inversion H; subst. simpl. lia.
    + inversion H; subst. lia.
Qed.

Lemma exponentPart_length (s l r : string) :
  exponentPart s = Some (l, r) -> String.length r <= String.length s.
Proof.
  unfold exponentPart. destruct s as [|c s']; intros H.
  - inversion H; subst. lia.
  - destruct (Ascii.eqb c "e"%char || Ascii.eqb c "E"%char)%bool.
    + destruct s' as [|sg r0].
      * simpl in H. discriminate.
      * destruct (Ascii.eqb sg "+"%char || Ascii.eqb sg "-"%char)%bool.
        -- destruct (spanDigits r0) as [ds r'] eqn:D. apply spanDigits_length in D.
           destruct ds; [discriminate |]. inversion H; subst. simpl. lia.
        -- destruct (spanDigits (String sg r0)) as [ds r'] eqn:D.
           apply spanDigits_length in D.
           destruct ds; [discriminate |]. inversion H; subst. simpl in *. lia.
    + inversion H; subst. lia.
Qed.

Lemma number_length (s l r : string) :
  number s = Some (l, r) -> String.length r <= String.length s.
Proof.
  unfold number.
  destruct (integerPart s) as [[i r1]|] eqn:I; [|discriminate].
  destruct (fractionPart r1) as [[f r2]|] eqn:F; [|discriminate].
  destruct (exponentPart r2) as [[e r3]|] eqn:E; [|discriminate].
  intros H; inversion H; subst.
  apply integerPart_length in I. apply fractionPart_length in F.
  apply exponentPart_length in E. lia.
Qed.

Lemma afterPrefix_length (w s r : string) :
  afterPrefix w s = Some r -> String.length r <= String.length s.
Proof.
  revert s; induction w as [|a w IH]; intros s H; simpl in H.
  - inversion H; subst. lia.
  - destruct s as [|b s]; [discriminate |].
    destruct (Ascii.eqb a b); [|discriminate]. apply IH in H. simpl. lia.
Qed.

Lemma keyword_length (w : string) (v : JSON) (s : string) (x : JSON) (r : string) :
  keyword w v s = Ok x r -> String.length r <= String.length s.
Proof.
  unfold keyword. destruct (afterPrefix w s) eqn:E; [|discriminate].
  intros H; inversion H; subst. now apply afterPrefix_length in E.
Qed.

Lemma keyword_not_exhausted (w : string) (v : JSON) (s : string) :
  keyword w v s <> Exhausted.
Proof. unfold keyword. destruct (afterPrefix w s); discriminate. Qed.

Lemma tail_length (s : string) : String.length (tail s) <= String.length s.
Proof. destruct s; simpl; lia. Qed.

Lemma startsWith_tail (c : ascii) (s : string) :
  startsWith c s = true -> String.length (tail s) < String.length s.
Proof. destruct s; simpl; [discriminate | lia]. Qed.

Theorem parse_adequate (fuel : nat) : adequate fuel.
Proof.
  induction fuel as [|f (IV & IM & IE)]; [repeat split; intros; simpl in *; lia |].
  repeat split.
  - (* a value *)
    intros E. simpl in E.
    pose proof (skipSpace_length s) as K.
    destruct (skipSpace s) as [|c r] eqn:S0; [discriminate |]. simpl in K.
    destruct (Ascii.eqb c "{"%char).
    + destruct (startsWith "}"%char (skipSpace r)); [discriminate |].
      destruct (IM r ltac:(lia)) as [N _]. destruct (parseMembers f r); congruence.
    + destruct (Ascii.eqb c "["%char).
      * destruct (startsWith "]"%char (skipSpace r)); [discriminate |].
        destruct (IE r ltac:(lia)) as [N _]. destruct (parseElements f r); congruence.
      * destruct (Ascii.eqb c quote); [destruct (stringBody r) as [[? ?]|]; discriminate |].
        destruct (Ascii.eqb c "t"%char); [now apply keyword_not_exhausted in E |].
        destruct (Ascii.eqb c "f"%char); [now apply keyword_not_exhausted in E |].
        destruct (Ascii.eqb c "n"%char); [now apply keyword_not_exhausted in E |].
        destruct (number (String c r)) as [[? ?]|]; discriminate.
  - intros v r0 E. simpl in E.
    pose proof (skipSpace_length s) as K.
    destruct (skipSpace s) as [|c r] eqn:S0; [discriminate |]. simpl in K.
    destruct (Ascii.eqb c "{"%char).
    + destruct (startsWith "}"%char (skipSpace r)) eqn:B.
      * inversion E; subst. pose proof (tail_length (skipSpace r)).
        pose proof (skipSpace_length r). lia.
      * destruct (IM r ltac:(lia)) as [_ L].
        destruct (parseMembers f r) as [ms r'| |] eqn:P; try discriminate.
        inversion E; subst. specialize (L _ _ eq_refl). lia.
    + destruct (Ascii.eqb c "["%char).
      * destruct (startsWith "]"%char (skipSpace r)) eqn:B.
        -- inversion E; subst. pose proof (tail_length (skipSpace r)).
           pose proof (skipSpace_length r). lia.
        -- destruct (IE r ltac:(lia)) as [_ L].
           destruct (parseElements f r) as [vs r'| |] eqn:P; try discriminate.
           inversion E; subst. specialize (L _ _ eq_refl). lia.
      * destruct (Ascii.eqb c quote).
        { destruct (stringBody r) as [[l r']|] eqn:B; [|discriminate].
          inversion E; subst. apply stringBody_length in B. lia. }
        destruct (Ascii.eqb c "t"%char); [apply keyword_length in E; simpl in E; lia |].
        destruct (Ascii.eqb c "f"%char); [apply keyword_length in E; simpl in E; lia |].
        destruct (Ascii.eqb c "n"%char); [apply keyword_length in E; simpl in E; lia |].
        destruct (number (String c r)) as [[l r']|] eqn:B; [|discriminate].
        inversion E; subst. apply number_length in B. simpl in B. lia.
  - (* members *)
    intros E. simpl in E.
    pose proof (skipSpace_length s) as K.
    destruct (skipSpace s) as [|c r] eqn:S0; [discriminate |]. simpl in K.
    destruct (Ascii.eqb c quote); [|discriminate].
    destruct (stringBody r) as [[key r1]|] eqn:B; [|discriminate].
    apply stringBody_length in B.
    destruct (startsWith ":"%char (skipSpace r1)) eqn:C; [|discriminate].
    pose proof (skipSpace_length r1). pose proof (tail_length (skipSpace r1)).
    destruct (IV (tail (skipSpace r1)) ltac:(lia)) as [N L].
    destruct (parseValue f (tail (skipSpace r1))) as [v r3| |] eqn:P; try congruence.
    specialize (L _ _ eq_refl).
    pose proof (skipSpace_length r3) as K3.
    destruct (skipSpace r3) as [|d r4]; [discriminate |]. simpl in K3.
    destruct (Ascii.eqb d "}"%char); [discriminate |].
    destruct (Ascii.eqb d ","%char); [|discriminate].
    destruct (IM r4 ltac:(lia)) as [N4 _]. destruct (parseMembers f r4); congruence.
  - intros v0 r0 E. simpl in E.
    pose proof (skipSpace_length s) as K.
    destruct (skipSpace s) as [|c r] eqn:S0; [discriminate |]. simpl in K.
    destruct (Ascii.eqb c quote); [|discriminate].
    destruct (stringBody r) as [[key r1]|] eqn:B; [|discriminate].
    apply stringBody_length in B.
    destruct (startsWith ":"%char (skipSpace r1)) eqn:C; [|discriminate].
    pose proof (skipSpace_length r1). pose proof (tail_length (skipSpace r1)).
    destruct (IV (tail (skipSpace r1)) ltac:(lia)) as [N L].
    destruct (parseValue f (tail (skipSpace r1))) as [v r3| |] eqn:P; try congruence.
    specialize (L _ _ eq_refl).
    pose proof (skipSpace_length r3) as K3.
    destruct (skipSpace r3) as [|d r4]; [discriminate |]. simpl in K3.
    destruct (Ascii.eqb d "}"%char); [inversion E; subst; lia |].
    destruct (Ascii.eqb d ","%char); [|discriminate].
    destruct (IM r4 ltac:(lia)) as [_ L4].
    destruct (parseMembers f r4) as [ms r5| |]; try discriminate.
    inversion E; subst. specialize (L4 _ _ eq_refl). lia.
  - (* elements *)
    intros E. simpl in E.
    destruct (IV s ltac:(lia)) as [N L].
    destruct (parseValue f s) as [v r1| |] eqn:P; try congruence.
    specialize (L _ _ eq_refl).
    pose proof (skipSpace_length r1) as K1.
    destruct (skipSpace r1) as [|d r2]; [discriminate |]. simpl in K1.
    destruct (Ascii.eqb d "]"%char); [discriminate |].
    destruct (Ascii.eqb d ","%char); [|discriminate].
    destruct (IE r2 ltac:(lia)) as [N2 _]. destruct (parseElements f r2); congruence.
  - intros v0 r0 E. simpl in E.
    destruct (IV s ltac:(lia)) as [N L].
    destruct (parseValue f s) as [v r1| |] eqn:P; try congruence.
    specialize (L _ _ eq_refl).
    pose proof (skipSpace_length r1) as K1.
    destruct (skipSpace r1) as [|d r2]; [discriminate |]. simpl in K1.
    destruct (Ascii.eqb d "]"%char); [inversion E; subst; lia |].
    destruct (Ascii.eqb d ","%char); [|discriminate].
    destruct (IE r2 ltac:(lia)) as [_ L2].
    destruct (parseElements f r2) as [vs r3| |]; try discriminate.
    inversion E; subst. specialize (L2 _ _ eq_refl). lia.
Qed.

(** [JSON.parse] either returns a value or throws its syntax error. *)
Theorem parseText_not_exhausted (text : string) : parseText text <> Exhausted.
Proof.
  unfold parseText.
  destruct (parse_adequate (S (2 * String.length text))) as (IV & _ & _).
  destruct (IV text ltac:(lia)) as [N _].
  destruct (parseValue (S (2 * String.length text)) text) as [v r| |]; try congruence.
  destruct (skipSpace r); discriminate.
Qed.

End JsonFacts.

(** ** The matcher *)

Module RegExpFacts.
Import RegExp RegExpSpec.

Lemma append_length (a b : string) :
  String.length (a ++ b) = String.length a + String.length b.
Proof. induction a as [|c a IH]; simpl; [reflexivity | now rewrite IH]. Qed.

Lemma append_assoc (a b c : string) : ((a ++ b) ++ c = a ++ (b ++ c))%string.
Proof. induction a as [|x a IH]; simpl; [reflexivity | now rewrite IH]. Qed.

Lemma drop_app (a b : string) : drop (String.length a) (a ++ b) = b.
Proof. induction a as [|c a IH]; simpl; [reflexivity | exact IH]. Qed.

Lemma drop_length (n : nat) (s : string) :
  String.length (drop n s) = String.length s - n.
Proof.
  revert s; induction n as [|n IH]; intros s; simpl.
  - lia.
  - destruct s as [|c s]; simpl; [reflexivity | apply IH].
Qed.

Lemma drop_step (n : nat) (s : string) (c : ascii) (t : string) :
  drop n s = String c t -> drop (S n) s = t.
Proof.
  revert s; induction n as [|n IH]; intros s H; simpl in *.
  - now subst s.
  - destruct s as [|d s]; [discriminate | now apply IH].
Qed.

Lemma drop_all (n : nat) (s : string) : drop n s = "" -> drop (S n) s = "".
Proof.
  revert s; induction n as [|n IH]; intros s H; simpl in *.
  - now subst s.
  - destruct s as [|d s]; [reflexivity | now apply IH].
Qed.

Lemma afterPrefix_app (l s : string) : afterPrefix l (l ++ s) = Some s.
Proof.
  induction l as [|c l IH]; simpl; [reflexivity |].
  now rewrite Ascii.eqb_refl.
Qed.

Lemma afterPrefix_inv (l s r : string) : afterPrefix l s = Some r -> s = l ++ r.
Proof.
  revert s; induction l as [|c l IH]; intros s H; simpl in *.
  - now inversion H.
  - destruct s as [|d s]; [discriminate |].
    destruct (Ascii.eqb c d) eqn:E; [|discriminate].
    apply Ascii.eqb_eq in E; subst d. now rewrite (IH _ H).
Qed.

Lemma afterPrefix_head (c d : ascii) (l s : string) :
  c <> d -> afterPrefix (String c l) (String d s) = None.
Proof.
  intros H; simpl. destruct (Ascii.eqb c d) eqn:E; [|reflexivity].
  apply Ascii.eqb_eq in E; contradiction.
Qed.

Lemma greedy_bounded (cl : CharClass) (k : Cont) : bounded k -> bounded (greedy cl k).
Proof.
  intros Hk s; induction s as [|a s IH]; intros pos e caps H; simpl in H.
  - apply Hk in H; exact H.
  - destruct (classMatches cl a).
    + destruct (greedy cl k s (S pos)) as [r|] eqn:G.
      * inversion H; subst r. apply IH in G. simpl; lia.
      * apply Hk in H; exact H.
    + apply Hk in H; exact H.
Qed.

Lemma matchNodes_bounded (p : Pattern) (opened : list nat) (caps : Captures) :
  bounded (matchNodes p opened caps).
Proof.
  revert opened caps; induction p as [|n p IH]; intros opened caps s pos e caps' H.
  - simpl in H. inversion H; subst. lia.
  - destruct n as [l|cl|cl| |]; simpl in H.
    + destruct (afterPrefix l s) as [s'|] eqn:E; [|discriminate].
      apply afterPrefix_inv in E. subst s. apply IH in H.
      rewrite append_length. lia.
    + apply greedy_bounded in H; [exact H | apply IH].
    + destruct s as [|a s]; [discriminate|].
      destruct (classMatches cl a); [|discriminate].
      apply greedy_bounded in H; [simpl; lia | apply IH].
    + apply IH in H. exact H.
    + destruct opened as [|st opened]; [discriminate|].
      apply IH in H. exact H.
Qed.

(** A pattern that starts with literal characters consumes them. *)
Lemma matchNodes_lit_progress (l : string) (p : Pattern) (s : string) (pos e : nat)
  (caps : Captures) :
  matchNodes (Lit l :: p) [] [] s pos = Some (e, caps) ->
  pos + String.length l <= e <= pos + String.length s.
Proof.
  simpl. destruct (afterPrefix l s) as [s'|] eqn:E; [|discriminate].
  intros H. apply afterPrefix_inv in E. subst s.
  apply matchNodes_bounded in H. rewrite append_length. lia.
Qed.

Lemma matchAt_index (p : Pattern) (input s : string) (pos : nat) (m : Match) :
  matchAt p input s pos = Some m -> index m = pos.
Proof.
  unfold matchAt. destruct (matchNodes p [] [] s pos) as [[e caps]|]; [|discriminate].
  intros H; inversion H; reflexivity.
Qed.

(** Every element of [scan] is a match that starts at its index. *)
Lemma scan_matchAt (p : Pattern) (input : string) (s : string) (pos skip : nat) (m : Match) :
  s = drop pos input ->
  In m (scan p input s pos skip) ->
  matchAt p input (drop (index m) input) (index m) = Some m.
Proof.
  revert pos skip; induction s as [|c s IH]; intros pos skip Hs Hin.
  - destruct skip; simpl in Hin; [|contradiction].
    destruct (matchAt p input "" pos) as [m'|] eqn:E; [|contradiction].
    destruct Hin as [<-|[]].
    rewrite (matchAt_index _ _ _ _ E), <- Hs. exact E.
  - assert (Hs' : s = drop (S pos) input) by (symmetry; eapply drop_step; eauto).
    destruct skip; simpl in Hin.
    + destruct (matchAt p input (String c s) pos) as [m'|] eqn:E.
      * destruct Hin as [<-|Hin].
        -- rewrite (matchAt_index _ _ _ _ E), <- Hs. exact E.
        -- eapply IH; eauto.
      * eapply IH; eauto.
    + eapply IH; eauto.
Qed.

Lemma execAll_matchAt (p : Pattern) (input : string) (m : Match) :
  In m (execAll p input) ->
  matchAt p input (drop (index m) input) (index m) = Some m.
Proof. apply scan_matchAt. reflexivity. Qed.

End RegExpFacts.

Module ExecFacts.
Import RegExp RegExpSpec RegExpFacts.

Lemma drop_drop (a b : nat) (s : string) : drop a (drop b s) = drop (b + a) s.
Proof.
  revert s; induction b as [|b IH]; intros s; simpl; [reflexivity |].
  destruct s as [|c s]; [now destruct a | apply IH].
Qed.

Lemma scan_skip (p : Pattern) (input : string) (skip : nat) :
  forall s pos, skip <= String.length s ->
  scan p input s pos skip = scan p input (drop skip s) (pos + skip) 0.
Proof.
  induction skip as [|k IH]; intros s pos H.
  - simpl drop. now rewrite Nat.add_0_r.
  - destruct s as [|c s]; simpl in H; [lia |].
    simpl scan at 1. simpl drop. rewrite IH by lia. f_equal. lia.
Qed.

Lemma matchAt_end (p : Pattern) (input s : string) (pos : nat) (m : Match) :
  consuming p -> matchAt p input s pos = Some m ->
  pos < endIndex m <= pos + String.length s.
Proof.
  intros Hp. unfold matchAt.
  destruct (matchNodes p [] [] s pos) as [[e caps]|] eqn:E; [|discriminate].
  intros H; inversion H; subst m; simpl. exact (Hp _ _ _ _ E).
Qed.

Lemma scan_search (p : Pattern) (input : string) :
  consuming p ->
  forall s pos, s = drop pos input ->
  scan p input s pos 0 =
  match search p input s pos with
  | Some m => m :: scanFrom p input (endIndex m)
  | None => []
  end.
Proof.
  intros Hp s; induction s as [|c s IH]; intros pos Hs; simpl.
  - destruct (matchAt p input "" pos) as [m|] eqn:E; [|reflexivity].
    apply (matchAt_end _ _ _ Hp) in E. simpl in E. lia.
  - assert (Hs' : s = drop (S pos) input) by (symmetry; eapply drop_step; eauto).
    destruct (matchAt p input (String c s) pos) as [m|] eqn:E.
    + f_equal. apply (matchAt_end _ _ _ Hp) in E. simpl in E.
      rewrite scan_skip by lia. unfold scanFrom.
      rewrite Hs', drop_drop. f_equal; [f_equal |]; lia.
    + apply IH. exact Hs'.
Qed.

(** [scan] lists what the loop [while ((match = pattern.exec(input)) !==
    null)] sees: the result of [exec] at the current [lastIndex], then the
    same from the end of that match. *)
Lemma scanFrom_exec (p : Pattern) (input : string) (lastIndex : nat) :
  consuming p -> lastIndex <= String.length input ->
  scanFrom p input lastIndex =
  match exec p input lastIndex with
  | Some m => m :: scanFrom p input (endIndex m)
  | None => []
  end.
Proof.
  intros Hp Hle. unfold exec.
  destruct (String.length input <? lastIndex) eqn:E.
  - apply Nat.ltb_lt in E. lia.
  - unfold scanFrom at 1. now apply scan_search.
Qed.

Lemma execAll_scanFrom (p : Pattern) (input : string) :
  execAll p input = scanFrom p input 0.
Proof. reflexivity. Qed.

Lemma exec_endIndex (p : Pattern) (input : string) (lastIndex : nat) (m : Match) :
  consuming p -> exec p input lastIndex = Some m ->
  lastIndex < endIndex m <= String.length input.
Proof.
  intros Hp. unfold exec.
  destruct (String.length input <? lastIndex) eqn:E; [discriminate |].
  apply Nat.ltb_ge in E.
  assert (G : forall s pos, s = drop pos input -> pos <= String.length input ->
              search p input s pos = Some m -> pos < endIndex m <= String.length input).
  { intros s; induction s as [|c s IH]; intros pos Hs Hpos H; simpl in H.
    - destruct (matchAt p input "" pos) eqn:M; [|discriminate].
      inversion H; subst. apply (matchAt_end _ _ _ Hp) in M. simpl in M. lia.
    - assert (L : String.length (String c s) = String.length input - pos).
      { rewrite Hs. clear. revert input; induction pos; intros input; simpl; [lia|].
        destruct input; simpl; [reflexivity | apply IHpos]. }
      destruct (matchAt p input (String c s) pos) eqn:M.
      + inversion H; subst. apply (matchAt_end _ _ _ Hp) in M. lia.
      + simpl in L.
        specialize (IH (S pos) (eq_sym (drop_step _ _ (eq_sym Hs))) ltac:(lia) H). lia. }
  intros H. eapply G; eauto.
Qed.

End ExecFacts.

Module StepFacts.
Import RegExp RegExpSpec Directive RegExpFacts ExecFacts.

Lemma rejects_firstChar (cl : CharClass) (p : Pattern) (c0 : ascii) :
  firstChar p = Some c0 -> classMatches cl c0 = false ->
  forall opened caps, rejects cl (matchNodes p opened caps).
Proof.
  induction p as [|n p IH]; intros F C opened caps c t pos Hc; [discriminate |].
  destruct n as [l|cl'|cl'| |]; simpl in F; try discriminate.
  - destruct l as [|c1 l]; [discriminate |]. inversion F; subst c1.
    simpl. destruct (Ascii.eqb c0 c) eqn:E; [|reflexivity].
    apply Ascii.eqb_eq in E. subst c. congruence.
  - simpl. now apply IH.
  - simpl. destruct opened; [reflexivity |]. now apply IH.
Qed.

Lemma greedy_run (cl : CharClass) (k : Cont) (a s : string) :
  allIn cl a -> stops cl s -> rejects cl k ->
  forall pos, greedy cl k (a ++ s) pos = k s (pos + String.length a).
Proof.
  intros Ha Hs Hk. induction a as [|x a IH]; intros pos; simpl.
  - rewrite Nat.add_0_r. destruct s as [|c s]; simpl; [reflexivity |].
    simpl in Hs. now rewrite Hs.
  - destruct Ha as [Hx Ha]. rewrite Hx, (IH Ha).
    replace (S pos + String.length a) with (pos + S (String.length a)) by lia.
    destruct (k s (pos + S (String.length a))) eqn:E; [reflexivity |].
    now apply Hk.
Qed.

Section Steps.
Variables (p : Pattern) (opened : list nat) (caps : Captures).

Lemma lit_step (l s s' : string) (pos : nat) :
  afterPrefix l s = Some s' ->
  matchNodes p opened caps s' (pos + String.length l) = None ->
  matchNodes (Lit l :: p) opened caps s pos = None.
Proof. intros H1 H2. simpl. now rewrite H1. Qed.

Lemma lit_fail (l s : string) (pos : nat) :
  afterPrefix l s = None ->
  matchNodes (Lit l :: p) opened caps s pos = None.
Proof. intros H1. simpl. now rewrite H1. Qed.

Lemma star_stop (cl : CharClass) (s : string) (pos : nat) :
  stops cl s ->
  matchNodes p opened caps s pos = None ->
  matchNodes (Star cl :: p) opened caps s pos = None.
Proof.
  intros H1 H2. simpl. destruct s as [|c s]; simpl; [exact H2 |].
  simpl in H1. now rewrite H1.
Qed.

Lemma star_one (cl : CharClass) (c0 a : ascii) (s : string) (pos : nat) :
  classMatches cl a = true -> stops cl s ->
  firstChar p = Some c0 -> classMatches cl c0 = false ->
  matchNodes p opened caps s (S pos) = None ->
  matchNodes (Star cl :: p) opened caps (String a s) pos = None.
Proof.
  intros Ha Hs F C H.
  change (greedy cl (matchNodes p opened caps) (String a "" ++ s) pos = None).
  rewrite greedy_run; simpl; auto.
  - now replace (pos + 1) with (S pos) by lia.
  - eapply rejects_firstChar; eauto.
Qed.

Lemma plus_run (cl : CharClass) (c0 : ascii) (a s : string) (pos : nat) :
  allIn cl a -> stops cl s ->
  firstChar p = Some c0 -> classMatches cl c0 = false ->
  matchNodes p opened caps s (pos + String.length a) = None ->
  matchNodes (Plus cl :: p) opened caps (a ++ s) pos = None.
Proof.
  intros Ha Hs F C H. destruct a as [|x a]; simpl.
  - destruct s as [|c s]; [reflexivity |]. simpl in Hs. now rewrite Hs.
  - destruct Ha as [Hx Ha]. rewrite Hx.
    change (greedy cl (matchNodes p opened caps) (a ++ s) (S pos) = None).
    rewrite greedy_run; auto.
    + simpl in H. now replace (S pos + String.length a) with (pos + S (String.length a)) by lia.
    + eapply rejects_firstChar; eauto.
Qed.

Lemma group_open_step (s : string) (pos : nat) :
  matchNodes p (pos :: opened) caps s pos = None ->
  matchNodes (GroupOpen :: p) opened caps s pos = None.
Proof. auto. Qed.

Lemma group_close_step (start : nat) (s : string) (pos : nat) :
  matchNodes p opened (caps ++ [(start, pos)])%list s pos = None ->
  matchNodes (GroupClose :: p) (start :: opened) caps s pos = None.
Proof. auto. Qed.
End Steps.

Lemma allIn_notChar (c : ascii) (s : string) :
  hasChar c s = false -> allIn (NotChar c) s.
Proof.
  induction s as [|a s IH]; simpl; [auto |].
  intros H. apply orb_false_iff in H. destruct H as [H1 H2].
  split; [now rewrite H1 | auto].
Qed.

(** One node of the pattern against a text whose head is known. *)
Ltac step :=
  lazymatch goal with
  | |- matchNodes (Lit _ :: _) _ _ _ _ = None =>
      first [ apply lit_fail; reflexivity
            | eapply lit_step; [reflexivity |] ]
  | |- matchNodes (Star _ :: _) _ _ (String _ _) _ = None =>
      first [ apply star_stop; [reflexivity |]
            | eapply star_one; [reflexivity | reflexivity | reflexivity | reflexivity |] ]
  | |- matchNodes (GroupOpen :: _) _ _ _ _ = None => apply group_open_step
  | |- matchNodes (GroupClose :: _) _ _ _ _ = None => apply group_close_step
  end.

Ltac name_step H :=
  eapply plus_run;
  [ apply allIn_notChar; exact H | reflexivity | reflexivity | reflexivity | ].

Lemma matchAt_none (p : Pattern) (input s : string) (pos : nat) :
  matchNodes p [] [] s pos = None -> matchAt p input s pos = None.
Proof. intros H. unfold matchAt. now rewrite H. Qed.

Lemma no_match_empty_parameters (name rest : string) (pos : nat) :
  hasChar quote name = false ->
  matchNodes toolRegex [] [] 
    ("TOOL_REQUEST: {" ++ quoted "tool" ++ ": " ++ quoted name ++ ", "
       ++ quoted "parameters" ++ ": {}" ++ rest) pos = None.
Proof.
  intros Hn. unfold toolRegex, quoted. simpl append.
  rewrite !append_assoc. simpl append.
  do 8 step. name_step Hn. do 8 step.
  simpl. reflexivity.
Qed.
End StepFacts.

(** * The directive parser *)

Module DirectiveFacts.
Import RegExp RegExpSpec Directive DirectiveSpec RegExpFacts ExecFacts StepFacts.

Lemma toolRegex_consuming : consuming toolRegex.
Proof.
  intros s pos e caps H. unfold toolRegex in H.
  apply matchNodes_lit_progress in H. simpl in H. lia.
Qed.

(** The matches that [parseToolRequests] folds over are the successive
    results of [exec], each search starting where the previous match
    ended. *)
Lemma execAll_toolRegex_exec (response : string) (lastIndex : nat) :
  lastIndex <= String.length response ->
  scanFrom toolRegex response lastIndex =
  match exec toolRegex response lastIndex with
  | Some m => m :: scanFrom toolRegex response (endIndex m)
  | None => []
  end.
Proof. apply scanFrom_exec, toolRegex_consuming. Qed.

Lemma fold_tryPush (ms : list Match) (acc : Scanned) :
  requests (fold_left tryPush ms acc) = (requests acc ++ flat_map extracted ms)%list
  /\ warnings (fold_left tryPush ms acc) = (warnings acc ++ flat_map warned ms)%list.
Proof.
  revert acc; induction ms as [|m ms IH]; intros acc; simpl.
  - now rewrite !app_nil_r.
  - destruct (IH (tryPush acc m)) as [R W]. rewrite R, W.
    unfold tryPush, extracted, warned.
    destruct (Json.parse (group 2 m)); simpl; rewrite <- ?app_assoc, ?app_nil_r; auto.
Qed.

Lemma parseDirectives_matches (response : string) :
  parseToolRequests response = flat_map extracted (execAll toolRegex response)
  /\ warnings (parseDirectives response) = flat_map warned (execAll toolRegex response).
Proof.
  unfold parseToolRequests, parseDirectives.
  destruct (fold_tryPush (execAll toolRegex response) {| requests := []; warnings := [] |})
    as [R W].
  now rewrite R, W.
Qed.



(** ** Occurrences the pattern does not match *)

Lemma noMatchAt_intro (pre rest : string) :
  (forall pos, matchNodes toolRegex [] [] rest pos = None) ->
  noMatchAt (pre ++ rest) (String.length pre).
Proof.
  intros H m Hin Hidx. apply execAll_matchAt in Hin.
  rewrite Hidx, drop_app in Hin. unfold matchAt in Hin.
  now rewrite H in Hin.
Qed.

Ltac normalize :=
  unfold toolRegex, directiveText, member, toolMember, parametersMember, reasonMember, quoted;
  simpl map; simpl join; simpl fst; simpl snd; simpl append;
  repeat (rewrite append_assoc; simpl append).

Lemma empty_parameters_fail (name why post : string) (pos : nat) :
  hasChar quote name = false ->
  matchNodes toolRegex [] []
    (directiveText [toolMember name; parametersMember "{}"; reasonMember why] ++ post)
    pos = None.
Proof.
  intros Hn. normalize.
  do 8 step. name_step Hn. do 8 step. reflexivity.
Qed.

Lemma other_order_fail (name object why post : string) (ms : list (string * string))
  (pos : nat) :
  hasChar quote name = false ->
  In ms (otherOrders (toolMember name) (parametersMember object) (reasonMember why)) ->
  matchNodes toolRegex [] [] (directiveText ms ++ post) pos = None.
Proof.
  intros Hn Hin. simpl in Hin.
  destruct Hin as [<-|[<-|[<-|[<-|[<-|[]]]]]]; normalize.
  - do 8 step. name_step Hn. do 6 step.
  - do 5 step.
  - do 5 step.
  - do 5 step.
  - do 5 step.
Qed.

Lemma nested_last_fail (name body why post : string) (pos : nat) :
  hasChar quote name = false ->
  hasChar "}"%char body = false ->
  matchNodes toolRegex [] []
    (directiveText [toolMember name; parametersMember ("{" ++ body ++ "}}"); reasonMember why]
       ++ post)
    pos = None.
Proof.
  intros Hn Hb. normalize.
  do 8 step. name_step Hn. do 8 step.
  eapply plus_run;
    [ apply allIn_notChar; exact Hb | reflexivity | reflexivity | reflexivity | ].
  do 4 step.
Qed.

Lemma no_match_no_output (text : string) :
  execAll toolRegex text = [] ->
  parseDirectives text = {| requests := []; warnings := [] |}.
Proof. intros H. unfold parseDirectives. now rewrite H. Qed.

(** C10, as the code has it.  An occurrence of a directive whose parameters
    are the empty object literal, or whose three members come in another
    order than tool, parameters, reason, is not matched by the pattern: no
    match starts there, so it yields no request and no warning.  The same
    holds for parameters that end with a nested object literal: the
    capture stops at the first closing brace and the pattern finds no comma
    after it.  A text without any match yields nothing at all.  The
    parse-failure path, with its warning, is taken when the pattern still
    matches up to the first closing brace, as in [nestedThenReason]. *)
Theorem unmatched_directives_dropped_silently :
  (forall pre name why post,
      hasChar quote name = false ->
      noMatchAt
        (pre ++ directiveText [toolMember name; parametersMember "{}"; reasonMember why]
             ++ post)
        (String.length pre))
  /\ (forall pre name object why post ms,
        hasChar quote name = false ->
        In ms (otherOrders (toolMember name) (parametersMember object) (reasonMember why)) ->
        noMatchAt (pre ++ directiveText ms ++ post) (String.length pre))
  /\ (forall pre name body why post,
        hasChar quote name = false ->
        hasChar "}"%char body = false ->
        noMatchAt
          (pre ++ directiveText [toolMember name;
                                 parametersMember ("{" ++ body ++ "}}");
                                 reasonMember why]
               ++ post)
          (String.length pre))
  /\ (forall text,
        execAll toolRegex text = [] ->
        parseDirectives text = {| requests := []; warnings := [] |})
  /\ (map (group 2) (execAll toolRegex nestedThenReason) = [dq "{'filter': {'year': 2024}"]
      /\ parseToolRequests nestedThenReason = []
      /\ List.length (warnings (parseDirectives nestedThenReason)) = 1).
Proof.
  split; [|split; [|split; [|split]]].
  - intros pre name why post Hn. apply noMatchAt_intro.
    intros pos. now apply empty_parameters_fail.
  - intros pre name object why post ms Hn Hin. apply noMatchAt_intro.
    intros pos. eapply other_order_fail; eauto.
  - intros pre name body why post Hn Hb. apply noMatchAt_intro.
    intros pos. now apply nested_last_fail.
  - exact no_match_no_output.
  - repeat split; vm_compute; reflexivity.
Qed.

Lemma unmatched_directives_dropped_silently_witness :
  noMatchAt ("Note: " ++ emptyParameters ++ " thanks") 6
  /\ noMatchAt ("" ++ reasonFirst ++ "") 0
  /\ noMatchAt ("See " ++ nestedParameters ++ "") 4.
Proof.
  destruct unmatched_directives_dropped_silently as (H1 & H2 & H3 & _).
  split; [|split].
  - apply (H1 "Note: " "web_search" "no query" " thanks"). reflexivity.
  - apply (H2 "" "web_search" (dq "{'query': 'x'}") "why" "").
    + reflexivity.
    + simpl. auto.
  - apply (H3 "See " "web_search" (dq "'filter': {'year': 2024") "recent data" "").
    + reflexivity.
    + reflexivity.
Defined.

(** The claim as written fails on [nestedParameters]: the directive has a
    nested object literal in its parameters, and it is dropped without a
    match and without the warning of the parse-failure path. *)
Lemma nested_parameters_no_warning :
  execAll toolRegex nestedParameters = []
  /\ parseDirectives nestedParameters = {| requests := []; warnings := [] |}.
Proof. split; vm_compute; reflexivity. Qed.

End DirectiveFacts.

(** * The agreement evaluator *)

Module CountsFacts.
Import Counts ConsensusSpec.

Lemma existsb_eqb_In (t : string) (l : list string) :
  existsb (String.eqb t) l = true <-> In t l.
Proof.
  rewrite existsb_exists. split.
  - intros (x & Hx & E). apply String.eqb_eq in E. now subst.
  - intros H. exists t. split; [exact H | apply String.eqb_refl].
Qed.

Lemma existsb_eqb_notIn (t : string) (l : list string) :
  existsb (String.eqb t) l = false <-> ~ In t l.
Proof.
  rewrite <- existsb_eqb_In. destruct (existsb (String.eqb t) l); split; congruence.
Qed.

Lemma uniqueTexts_snoc (l : list string) (t : string) :
  uniqueTexts (l ++ [t]) = addText (uniqueTexts l) t.
Proof. unfold uniqueTexts. now rewrite fold_left_app. Qed.

Lemma uniqueTexts_In (l : list string) (x : string) :
  In x (uniqueTexts l) <-> In x l.
Proof.
  induction l as [|t l IH] using rev_ind; [reflexivity |].
  rewrite uniqueTexts_snoc, in_app_iff. unfold addText.
  destruct (existsb (String.eqb t) (uniqueTexts l)) eqn:E.
  - apply existsb_eqb_In in E. rewrite IH. simpl. split; [tauto |].
    intros [H|[<-|[]]]; [exact H | now apply IH].
  - rewrite in_app_iff, IH. reflexivity.
Qed.

Lemma uniqueTexts_NoDup (l : list string) : NoDup (uniqueTexts l).
Proof.
  induction l as [|t l IH] using rev_ind; [constructor |].
  rewrite uniqueTexts_snoc. unfold addText.
  destruct (existsb (String.eqb t) (uniqueTexts l)) eqn:E; [exact IH |].
  apply existsb_eqb_notIn in E.
  apply NoDup_app; [exact IH | repeat constructor; auto | ].
  intros x Hx [<-|[]]. contradiction.
Qed.

Lemma occurrences_snoc (l : list string) (t k : string) :
  occurrences (l ++ [t]) k = occurrences l k + (if string_dec t k then 1 else 0).
Proof.
  unfold occurrences. rewrite count_occ_app. simpl.
  destruct (string_dec t k); reflexivity.
Qed.

Lemma occurrences_pos (l : list string) (k : string) : In k l <-> 0 < occurrences l k.
Proof. unfold occurrences. rewrite (count_occ_In string_dec). lia. Qed.

(** ** Own properties *)

Lemma own_In (o : Obj) (k : string) (v : Count) : own o k = Some v -> In (k, v) o.
Proof.
  induction o as [|[k' v'] o IH]; simpl; [discriminate |].
  destruct (String.eqb k' k) eqn:E.
  - apply String.eqb_eq in E. intros H; inversion H; subst. now left.
  - intros H. right. now apply IH.
Qed.

Lemma own_None (o : Obj) (k : string) : own o k = None <-> ~ In k (map fst o).
Proof.
  induction o as [|[k' v'] o IH]; simpl; [tauto |].
  destruct (String.eqb k' k) eqn:E.
  - apply String.eqb_eq in E. split; [discriminate | intros H; exfalso; apply H; now left].
  - apply String.eqb_neq in E. rewrite IH. tauto.
Qed.

Lemma In_own (o : Obj) (k : string) (v : Count) :
  NoDup (map fst o) -> In (k, v) o -> own o k = Some v.
Proof.
  induction o as [|[k' v'] o IH]; simpl; [tauto |].
  intros ND [H|H].
  - inversion H; subst. now rewrite String.eqb_refl.
  - inversion ND; subst. destruct (String.eqb k' k) eqn:E.
    + apply String.eqb_eq in E. subst k'. exfalso. apply H2.
      apply (in_map fst) in H. exact H.
    + now apply IH.
Qed.

Lemma update_keys (o : Obj) (k : string) (v : Count) :
  map fst (update o k v) = map fst o.
Proof.
  induction o as [|[k' v'] o IH]; simpl; [reflexivity |].
  destruct (String.eqb k' k); simpl; [reflexivity | now rewrite IH].
Qed.

Lemma update_In (o : Obj) (k : string) (v : Count) (kv : string * Count) :
  In kv (update o k v) -> In kv o \/ kv = (k, v).
Proof.
  induction o as [|[k' v'] o IH]; simpl; [tauto |].
  destruct (String.eqb k' k) eqn:E; simpl.
  - apply String.eqb_eq in E. subst k'. intros [H|H]; [right; now symmetry | left; now right].
  - intros [H|H]; [left; now left |]. destruct (IH H); [left; now right | now right].
Qed.

(** The keys of the object are distinct, and each is one of the texts. *)
Lemma increment_keys (acc : Obj) (key : string) :
  NoDup (map fst acc) ->
  NoDup (map fst (increment acc key))
  /\ (forall k, In k (map fst (increment acc key)) -> In k (map fst acc) \/ k = key).
Proof.
  intros ND. unfold increment.
  destruct (own acc key) as [[n|f n]|] eqn:E.
  - rewrite update_keys. auto.
  - rewrite update_keys. auto.
  - apply own_None in E.
    assert (G : forall v, NoDup (map fst (acc ++ [(key, v)]))
                /\ (forall k, In k (map fst (acc ++ [(key, v)])) -> In k (map fst acc) \/ k = key)).
    { intros v. rewrite map_app. simpl. split.
      - apply NoDup_app; [exact ND | repeat constructor; auto |].
        intros x Hx [<-|[]]. contradiction.
      - intros k Hk. apply in_app_iff in Hk. destruct Hk as [Hk|[<-|[]]]; auto. }
    destruct (String.eqb key "__proto__"); [auto |].
    destruct (inheritedFunction key); apply G.
Qed.

Lemma fold_increment_keys (texts : list string) (acc : Obj) :
  NoDup (map fst acc) ->
  NoDup (map fst (fold_left increment texts acc))
  /\ (forall k, In k (map fst (fold_left increment texts acc)) ->
                In k (map fst acc) \/ In k texts).
Proof.
  revert acc; induction texts as [|t texts IH]; intros acc ND; simpl; [auto |].
  destruct (@increment_keys acc t ND) as [ND' K].
  destruct (IH _ ND') as [ND'' K'']. split; [exact ND'' |].
  intros k Hk. destruct (K'' k Hk) as [H|H]; [|auto].
  destruct (K k H); auto.
Qed.

(** ** The order of enumeration is a permutation of the own properties *)

Lemma insertByIndex_perm (e : N * (string * Count)) (l : list (N * (string * Count))) :
  Permutation (insertByIndex e l) (e :: l).
Proof.
  induction l as [|x l IH]; simpl; [reflexivity |].
  destruct (N.leb (fst e) (fst x)); [reflexivity |].
  rewrite IH. apply perm_swap.
Qed.

Lemma indexProperties_perm (o : Obj) :
  Permutation (map snd (indexProperties o)) (filter isIndexKey o).
Proof.
  induction o as [|kv o IH]; simpl; [reflexivity |].
  unfold isIndexKey at 1. destruct (arrayIndex (fst kv)) as [n|].
  - rewrite insertByIndex_perm. simpl. now constructor.
  - exact IH.
Qed.

Lemma filter_split {A : Type} (f : A -> bool) (l : list A) :
  Permutation (filter f l ++ filter (fun x => negb (f x)) l) l.
Proof.
  induction l as [|x l IH]; simpl; [reflexivity |].
  destruct (f x); simpl.
  - now constructor.
  - rewrite <- Permutation_middle. now constructor.
Qed.

Lemma ordered_perm (o : Obj) : Permutation (ordered o) o.
Proof.
  unfold ordered. rewrite indexProperties_perm. apply filter_split.
Qed.

Lemma ordered_In (o : Obj) (kv : string * Count) : In kv (ordered o) <-> In kv o.
Proof.
  split; apply Permutation_in; [apply ordered_perm | symmetry; apply ordered_perm].
Qed.

(** ** [Math.max] *)

Lemma Math_max_Max (vs : list Count) (m : nat) :
  Math_max vs = Max m ->
  In (Number m) vs
  /\ (forall v, In v vs -> exists n, v = Number n /\ n <= m).
Proof.
  revert m; induction vs as [|v vs IH]; intros m H; simpl in H; [discriminate |].
  destruct v as [n|f n]; [|discriminate].
  destruct (Math_max vs) as [| |m'] eqn:E; [discriminate | |].
  - inversion H; subst. destruct vs as [|w vs].
    + split; [now left |]. intros v [<-|[]]. exists m. auto.
    + simpl in E. destruct w; [destruct (Math_max vs); discriminate | discriminate].
  - inversion H; subst. destruct (IH m' eq_refl) as [I1 I2].
    split.
    + destruct (Nat.max_spec n m') as [[_ ->]|[_ ->]]; [now right | now left].
    + intros v [<-|Hv].
      * exists n. split; [reflexivity | apply Nat.le_max_l].
      * destruct (I2 v Hv) as (k & -> & Hk). exists k. split; [reflexivity |].
        etransitivity; [exact Hk | apply Nat.le_max_r].
Qed.

Lemma Math_max_numbers (vs : list Count) :
  vs <> [] -> (forall v, In v vs -> exists n, v = Number n) ->
  exists m, Math_max vs = Max m.
Proof.
  induction vs as [|v vs IH]; intros NE H; [congruence |].
  destruct (H v (or_introl eq_refl)) as (n & ->). simpl.
  destruct vs as [|w vs]; [now exists n |].
  destruct IH as (m & ->); [discriminate | intros x Hx; apply H; now right |].
  now exists (Nat.max n m).
Qed.

Lemma Math_max_native (vs : list Count) (f : string) (n : nat) :
  In (NativeText f n) vs -> Math_max vs = NaN.
Proof.
  induction vs as [|v vs IH]; intros H; [contradiction |].
  destruct H as [->|H]; [reflexivity |].
  simpl. rewrite (IH H). now destruct v.
Qed.

(** ** The reducer on plain keys *)

Lemma own_map (f : string -> Count) (keys : list string) (k : string) :
  own (map (fun x => (x, f x)) keys) k = if existsb (String.eqb k) keys then Some (f k) else None.
Proof.
  induction keys as [|x keys IH]; simpl; [reflexivity |].
  rewrite (String.eqb_sym k x). destruct (String.eqb x k) eqn:E; simpl.
  - apply String.eqb_eq in E. now subst.
  - exact IH.
Qed.

Lemma update_map (f g : string -> Count) (keys : list string) (k : string) :
  NoDup keys -> (forall x, x <> k -> g x = f x) ->
  update (map (fun x => (x, f x)) keys) k (g k) = map (fun x => (x, g x)) keys.
Proof.
  intros ND Hg. induction keys as [|x keys IH]; simpl; [reflexivity |].
  inversion ND; subst. destruct (String.eqb x k) eqn:E.
  - apply String.eqb_eq in E. subst x. f_equal.
    apply map_ext_in. intros y Hy. rewrite Hg; [reflexivity |].
    intros ->. contradiction.
  - apply String.eqb_neq in E. rewrite (Hg x E). f_equal. now apply IH.
Qed.

Lemma fold_increment_snoc (l : list string) (t : string) :
  fold_left increment (l ++ [t]) [] = increment (fold_left increment l []) t.
Proof. now rewrite fold_left_app. Qed.

Lemma fold_increment_plain (texts : list string) :
  Forall plainKey texts -> fold_left increment texts [] = tally texts.
Proof.
  induction texts as [|t l IH] using rev_ind; intros P; [reflexivity |].
  apply Forall_app in P. destruct P as [Pl Pt]. inversion Pt as [|? ? [P1 P2] _]; subst.
  rewrite fold_increment_snoc, (IH Pl). unfold increment, tally.
  rewrite own_map, uniqueTexts_snoc. unfold addText.
  destruct (existsb (String.eqb t) (uniqueTexts l)) eqn:E.
  - replace (occurrences l t + 1) with (occurrences (l ++ [t]) t)
      by (rewrite occurrences_snoc; destruct (string_dec t t); [reflexivity | congruence]).
    apply (update_map (fun k => Number (occurrences l k))
                      (fun k => Number (occurrences (l ++ [t]) k))).
    + apply uniqueTexts_NoDup.
    + intros x Hx. rewrite occurrences_snoc.
      destruct (string_dec t x); [congruence | now rewrite Nat.add_0_r].
  - apply String.eqb_neq in P1. rewrite P1, P2.
    rewrite map_app. simpl. f_equal.
    + apply map_ext_in. intros x Hx. rewrite occurrences_snoc.
      destruct (string_dec t x) as [->|]; [|now rewrite Nat.add_0_r].
      apply existsb_eqb_notIn in E. contradiction.
    + rewrite occurrences_snoc. destruct (string_dec t t); [|congruence].
      apply existsb_eqb_notIn in E. rewrite uniqueTexts_In in E.
      apply (count_occ_not_In string_dec) in E. unfold occurrences. now rewrite E.
Qed.

(** ** The maximum occurrence count *)

Lemma list_max_attained (l : list nat) : l <> [] -> In (list_max l) l.
Proof.
  induction l as [|x l IH]; intros NE; [congruence |].
  change (list_max (x :: l)) with (Nat.max x (list_max l)).
  destruct l as [|y l].
  - simpl. left. lia.
  - destruct (Nat.max_spec x (list_max (y :: l))) as [[_ ->]|[_ ->]].
    + right. apply IH. discriminate.
    + now left.
Qed.

Lemma maxOccurrence_ge (texts : list string) (k : string) :
  occurrences texts k <= maxOccurrence texts.
Proof.
  destruct (in_dec string_dec k texts) as [H|H].
  - unfold maxOccurrence.
    assert (G := list_max_le (map (occurrences texts) texts) (list_max (map (occurrences texts) texts))).
    destruct G as [G _]. specialize (G (Nat.le_refl _)).
    rewrite Forall_forall in G. apply G. now apply in_map.
  - apply (count_occ_not_In string_dec) in H. unfold occurrences. rewrite H. lia.
Qed.

Lemma maxOccurrence_attained (texts : list string) :
  texts <> [] -> exists k, In k texts /\ occurrences texts k = maxOccurrence texts.
Proof.
  intros NE. unfold maxOccurrence.
  assert (NE' : map (occurrences texts) texts <> []) by (destruct texts; [congruence | discriminate]).
  apply list_max_attained in NE'. apply in_map_iff in NE'.
  destruct NE' as (k & Hk & Hin). now exists k.
Qed.

Lemma tally_values (texts : list string) (v : Count) :
  In v (Object_values (tally texts)) <->
  exists k, In k texts /\ v = Number (occurrences texts k).
Proof.
  unfold Object_values. rewrite in_map_iff. split.
  - intros ([k w] & <- & H). apply (proj1 (ordered_In _ _)) in H. unfold tally in H.
    apply in_map_iff in H. destruct H as (x & Hx & Hin). inversion Hx; subst.
    exists k. split; [now apply uniqueTexts_In | reflexivity].
  - intros (k & Hin & ->). exists (k, Number (occurrences texts k)). split; [reflexivity |].
    apply (proj2 (ordered_In _ _)). unfold tally. apply in_map_iff. exists k.
    split; [reflexivity | now apply uniqueTexts_In].
Qed.

Lemma Math_max_tally (texts : list string) :
  texts <> [] -> Math_max (Object_values (tally texts)) = Max (maxOccurrence texts).
Proof.
  intros NE.
  destruct (Math_max_numbers (vs := Object_values (tally texts))) as (m & Hm).
  - destruct texts as [|t l]; [congruence |]. intros E.
    assert (H : In (Number (occurrences (t :: l) t)) (Object_values (tally (t :: l)))).
    { apply tally_values. exists t. split; [now left | reflexivity]. }
    rewrite E in H. contradiction.
  - intros v Hv. apply tally_values in Hv. destruct Hv as (k & _ & ->). eauto.
  - rewrite Hm. f_equal. destruct (Math_max_Max _ Hm) as [I1 I2].
    apply Nat.le_antisymm.
    + apply tally_values in I1. destruct I1 as (k & _ & E). inversion E; subst.
      apply maxOccurrence_ge.
    + destruct (maxOccurrence_attained NE) as (k & Hk & <-).
      destruct (I2 (Number (occurrences texts k))) as (n & E & Hn).
      * apply tally_values. eauto.
      * inversion E; subst. exact Hn.
Qed.

End CountsFacts.

Module ConsensusFacts.
Import Counts ConsensusSpec CountsFacts.

Lemma checkConsensus_few (responses : list AdvisorResponse) (threshold : Q) :
  List.length responses < 2 ->
  checkConsensus responses threshold = {| hasConsensus := false; consensusText := None |}.
Proof.
  intros H. unfold checkConsensus. apply Nat.ltb_lt in H. now rewrite H.
Qed.

(** ** Unanimity *)

Lemma uniqueTexts_one (texts : list string) (t : string) :
  uniqueTexts texts = [t] -> forall x, In x texts -> x = t.
Proof.
  intros H x Hx. apply uniqueTexts_In in Hx. rewrite H in Hx.
  destruct Hx as [<-|[]]. reflexivity.
Qed.

Lemma occurrences_all (texts : list string) (t : string) :
  (forall x, In x texts -> x = t) -> occurrences texts t = List.length texts.
Proof.
  induction texts as [|x l IH]; intros H; [reflexivity |].
  unfold occurrences in *. simpl. destruct (string_dec x t) as [_|N].
  - rewrite IH; [reflexivity | intros y Hy; apply H; now right].
  - exfalso. apply N, H. now left.
Qed.

Lemma occurrences_le (texts : list string) (t : string) :
  occurrences texts t <= List.length texts.
Proof. apply count_occ_bound. Qed.

Lemma maxOccurrence_le (texts : list string) : maxOccurrence texts <= List.length texts.
Proof.
  unfold maxOccurrence. apply list_max_le. apply Forall_forall.
  intros n Hn. apply in_map_iff in Hn. destruct Hn as (k & <- & _). apply occurrences_le.
Qed.

Lemma unanimous_max (texts : list string) :
  List.length (uniqueTexts texts) = 1 -> maxOccurrence texts = List.length texts.
Proof.
  intros H. destruct (uniqueTexts texts) as [|t [|u l]] eqn:E; try discriminate.
  apply Nat.le_antisymm; [apply maxOccurrence_le |].
  rewrite <- (@occurrences_all texts t); [apply maxOccurrence_ge |].
  now apply uniqueTexts_one.
Qed.

(** ** The branch of the ratio *)

Lemma atLeast_Max (M : MaxResult) (n : nat) (threshold : Q) :
  atLeast (divide M (S n)) threshold = true ->
  exists m, M = Max m /\ Qle_bool threshold (Z.of_nat m # Pos.of_succ_nat n) = true.
Proof.
  destruct M as [| |m]; simpl; try discriminate.
  intros H. exists m. split; [reflexivity |]. now destruct m.
Qed.

Lemma ratio_branch (responses : list AdvisorResponse) (m : nat) :
  let texts := map normalized responses in
  let acc := fold_left increment texts [] in
  Math_max (Object_values acc) = Max m ->
  exists k r,
    own acc k = Some (Number m)
    /\ find (fun key => strictEquals (own acc key) (Max m)) (Object_keys acc) = Some k
    /\ find (fun r => String.eqb (normalized r) k) responses = Some r.
Proof.
  intros texts acc HM.
  destruct (@fold_increment_keys texts [] (NoDup_nil _)) as [ND K].
  fold acc in ND, K.
  destruct (Math_max_Max _ HM) as [I1 _].
  unfold Object_values in I1. apply in_map_iff in I1.
  destruct I1 as ([k0 v0] & E0 & H0). simpl in E0. subst v0.
  assert (O0 : own acc k0 = Some (Number m)).
  { apply In_own; [exact ND |]. now apply (proj1 (ordered_In _ _)). }
  destruct (find (fun key => strictEquals (own acc key) (Max m)) (Object_keys acc))
    as [k|] eqn:F.
  - apply find_some in F. destruct F as [Fin Fk].
    assert (Ok : own acc k = Some (Number m)).
    { destruct (own acc k) as [[n|f n]|]; simpl in Fk; try discriminate.
      apply Nat.eqb_eq in Fk. now subst. }
    assert (Tk : In k texts).
    { apply own_In in Ok. apply (in_map fst) in Ok.
      destruct (K k Ok) as [[]|H]; exact H. }
    unfold texts in Tk. apply in_map_iff in Tk. destruct Tk as (r0 & E & Hr0).
    destruct (find (fun r => String.eqb (normalized r) k) responses) as [r|] eqn:G.
    + exists k, r. auto.
    + exfalso. apply (find_none _ _ G) in Hr0. rewrite E, String.eqb_refl in Hr0. discriminate.
  - exfalso. assert (In k0 (Object_keys acc)).
    { unfold Object_keys. now apply (in_map fst) in H0. }
    apply (find_none _ _ F) in H. rewrite O0 in H. simpl in H.
    rewrite Nat.eqb_refl in H. discriminate.
Qed.

(** Whenever consensus is declared, its text is the text of one of the
    responses. *)
Lemma checkConsensus_some (responses : list AdvisorResponse) (threshold : Q) :
  hasConsensus (checkConsensus responses threshold) = true ->
  exists r, In r responses
            /\ consensusText (checkConsensus responses threshold) = Some (response r).
Proof.
  unfold checkConsensus.
  destruct (List.length responses <? 2) eqn:L; [discriminate |].
  destruct (List.length (uniqueTexts (map normalized responses)) =? 1).
  - intros _. destruct responses as [|r l]; [discriminate |].
    exists r. split; [now left | reflexivity].
  - set (acc := fold_left increment (map normalized responses) []).
    destruct (atLeast (divide (Math_max (Object_values acc)) (List.length responses)) threshold)
      eqn:A; [|discriminate].
    intros _. destruct responses as [|r0 l]; [discriminate |].
    apply atLeast_Max in A. destruct A as (m & HM & _).
    destruct (ratio_branch (r0 :: l) HM) as (k & r & _ & F1 & F2).
    fold acc in F1. rewrite HM. rewrite F1.
    change (fun r1 => sameKey (normalized r1) (Some k))
      with (fun r1 => String.eqb (normalized r1) k).
    rewrite F2. exists r. split; [|reflexivity].
    apply find_some in F2. tauto.
Qed.

Lemma checkConsensus_none (responses : list AdvisorResponse) (threshold : Q) :
  hasConsensus (checkConsensus responses threshold) = false ->
  consensusText (checkConsensus responses threshold) = None.
Proof.
  unfold checkConsensus.
  destruct (List.length responses <? 2); [reflexivity |].
  destruct (List.length (uniqueTexts (map normalized responses)) =? 1); [discriminate |].
  destruct (atLeast _ _); [discriminate | reflexivity].
Qed.

(** ** Normalized texts and the keys of the prototype *)

Lemma lowerChar_lower (c : ascii) : isUpper (lowerChar c) = false.
Proof. destruct c as [[] [] [] [] [] [] [] []]; reflexivity. Qed.

Lemma toLowerCase_lower (s : string) : hasUpper (toLowerCase s) = false.
Proof.
  induction s as [|c s IH]; simpl; [reflexivity |].
  now rewrite lowerChar_lower, IH.
Qed.

Lemma trimStart_lower (s : string) : hasUpper s = false -> hasUpper (trimStart s) = false.
Proof.
  induction s as [|c s IH]; simpl; [auto |].
  intros H. apply orb_false_iff in H. destruct H as [H1 H2].
  destruct (isWhiteSpace c); [auto |]. simpl. now rewrite H1, H2.
Qed.

Lemma trimEnd_lower (s : string) : hasUpper s = false -> hasUpper (trimEnd s) = false.
Proof.
  induction s as [|c s IH]; simpl; [auto |].
  intros H. apply orb_false_iff in H. destruct H as [H1 H2].
  specialize (IH H2). destruct (trimEnd s) as [|d t].
  - destruct (isWhiteSpace c); simpl; [reflexivity | now rewrite H1].
  - simpl in *. now rewrite H1, IH.
Qed.

Lemma normalized_lower (r : AdvisorResponse) : hasUpper (normalized r) = false.
Proof. apply trimEnd_lower, trimStart_lower, toLowerCase_lower. Qed.

Lemma inherited_lower (k f : string) :
  hasUpper k = false -> inheritedFunction k = Some f -> k = "constructor".
Proof.
  intros L. unfold inheritedFunction, prototypeFunctions. cbn -[String.eqb].
  repeat match goal with
         | |- context [String.eqb ?n k] =>
             let E := fresh "E" in
             destruct (String.eqb n k) eqn:E;
             [ apply String.eqb_eq in E; subst k;
               first [ discriminate L | intros _; reflexivity ] | ]
         end.
  intros H; discriminate H.
Qed.

(** After [toLowerCase] and [trim], the only texts that are keys of
    [Object.prototype] are [__proto__] and [constructor]. *)
Lemma normalized_plain (r : AdvisorResponse) :
  normalized r <> "__proto__" -> normalized r <> "constructor" -> plainKey (normalized r).
Proof.
  intros H1 H2. split; [exact H1 |].
  destruct (inheritedFunction (normalized r)) as [f|] eqn:E; [|reflexivity].
  apply inherited_lower in E; [contradiction | apply normalized_lower].
Qed.

(** ** The evaluator when no text is a key of the prototype *)

Lemma ratio_full (n : nat) (threshold : Q) :
  0 < n -> (threshold <= 1)%Q -> (threshold <= ratio n n)%Q.
Proof.
  intros Hn H. unfold ratio, Qle in *. simpl in *.
  rewrite Z.mul_1_r in H.
  assert (E : Z.pos (Pos.of_nat n) = Z.of_nat n).
  { destruct n; [lia |]. rewrite <- Pos.of_nat_succ. lia. }
  rewrite E. nia.
Qed.

Lemma texts_plain (responses : list AdvisorResponse) :
  Forall (fun r => plainKey (normalized r)) responses ->
  Forall plainKey (map normalized responses).
Proof. intros H. apply Forall_map. exact H. Qed.

(** With at least two responses, consensus is declared exactly when the
    maximum occurrence count over the number of responses reaches the
    threshold. *)
Lemma checkConsensus_ratio (responses : list AdvisorResponse) (threshold : Q) :
  (threshold <= 1)%Q ->
  Forall (fun r => plainKey (normalized r)) responses ->
  2 <= List.length responses ->
  hasConsensus (checkConsensus responses threshold) = true
  <-> (threshold <= ratio (maxOccurrence (map normalized responses)) (List.length responses))%Q.
Proof.
  intros T P L. unfold checkConsensus.
  destruct (List.length responses <? 2) eqn:L2; [apply Nat.ltb_lt in L2; lia |].
  destruct (List.length (uniqueTexts (map normalized responses)) =? 1) eqn:U.
  - apply Nat.eqb_eq in U. rewrite (unanimous_max _ U), length_map. simpl.
    split; [intros _; apply ratio_full; [lia | exact T] | reflexivity].
  - rewrite (fold_increment_plain (texts_plain P)).
    rewrite Math_max_tally by (destruct responses; [simpl in L; lia | discriminate]).
    destruct (List.length responses) as [|c] eqn:N; [lia |].
    unfold ratio. rewrite <- Pos.of_nat_succ.
    set (M := maxOccurrence (map normalized responses)).
    assert (D : divide (Max M) (S c) = QFinite (Z.of_nat M # Pos.of_succ_nat c))
      by (now destruct M).
    rewrite D. simpl atLeast.
    destruct (Qle_bool threshold (Z.of_nat M # Pos.of_succ_nat c)) eqn:B; simpl.
    + apply Qle_bool_iff in B. tauto.
    + split; [discriminate |]. intros H. apply Qle_bool_iff in H. congruence.
Qed.

(** Whenever consensus is declared, its text is the original text of the
    first response whose normalized text is a text of maximum occurrence
    count. *)
Lemma checkConsensus_text (responses : list AdvisorResponse) (threshold : Q) :
  Forall (fun r => plainKey (normalized r)) responses ->
  hasConsensus (checkConsensus responses threshold) = true ->
  exists k r,
    occurrences (map normalized responses) k = maxOccurrence (map normalized responses)
    /\ find (fun r => String.eqb (normalized r) k) responses = Some r
    /\ consensusText (checkConsensus responses threshold) = Some (response r).
Proof.
  intros P. unfold checkConsensus.
  destruct (List.length responses <? 2) eqn:L; [discriminate |].
  destruct (List.length (uniqueTexts (map normalized responses)) =? 1) eqn:U.
  - intros _. apply Nat.eqb_eq in U. destruct responses as [|r0 l]; [discriminate |].
    exists (normalized r0), r0. split; [|split].
    + rewrite (unanimous_max _ U).
      destruct (uniqueTexts (map normalized (r0 :: l))) as [|t [|u q]] eqn:E; try discriminate.
      apply occurrences_all. intros x Hx.
      rewrite (uniqueTexts_one _ E x Hx). symmetry.
      apply (uniqueTexts_one _ E). now left.
    + simpl. now rewrite String.eqb_refl.
    + reflexivity.
  - set (acc := fold_left increment (map normalized responses) []).
    destruct (atLeast (divide (Math_max (Object_values acc)) (List.length responses)) threshold)
      eqn:A; [|discriminate].
    intros _. destruct responses as [|r0 l]; [discriminate |].
    apply atLeast_Max in A. destruct A as (m & HM & _).
    destruct (ratio_branch (r0 :: l) HM) as (k & r & O & F1 & F2).
    fold acc in F1, O. rewrite HM, F1.
    change (fun r1 => sameKey (normalized r1) (Some k))
      with (fun r1 => String.eqb (normalized r1) k).
    rewrite F2. exists k, r. split; [|split; [exact F2 | reflexivity]].
    unfold acc in O, HM. rewrite (fold_increment_plain (texts_plain P)) in O, HM.
    rewrite Math_max_tally in HM by discriminate. inversion HM; subst m.
    unfold tally in O. rewrite own_map in O.
    destruct (existsb _ _); [|discriminate]. now inversion O.
Qed.

(** ** Two rounds the evaluator gets wrong *)

(** C5, at an input where the code departs from it.  Two of three
    advisors answer [__proto__]: the maximum occurrence count is 2 and 2/3
    reaches the threshold 0.6, yet no consensus is declared, because the
    key [__proto__] is never stored in [agreementCounts].  Four of five
    advisors answer [constructor] under the default threshold 0.8: the
    inherited function makes the count a string, [Math.max] gives NaN and
    no consensus is declared although 4/5 reaches 0.8. *)
Theorem checkConsensus_prototype_keys_miscounted :
  (maxOccurrence (map normalized (respond ["__proto__"; "__PROTO__ "; "yes"])) = 2
   /\ (6 # 10 <= ratio 2 3)%Q
   /\ checkConsensus (respond ["__proto__"; "__PROTO__ "; "yes"]) (6 # 10)
      = {| hasConsensus := false; consensusText := None |})
  /\ (maxOccurrence
        (map normalized
           (respond ["constructor"; "Constructor"; "constructor"; " constructor"; "no"])) = 4
      /\ (8 # 10 <= ratio 4 5)%Q
      /\ checkConsensus
           (respond ["constructor"; "Constructor"; "constructor"; " constructor"; "no"])
           (8 # 10)
         = {| hasConsensus := false; consensusText := None |}).
Proof.
  repeat split; try (vm_compute; reflexivity); vm_compute; discriminate.
Qed.

(** C6, at an input where the code departs from it.  With the threshold
    0.3, two answers [__proto__] and one answer [Plan A]: consensus is
    declared on [Plan A], whose normalized text occurs once, while the text
    of maximum occurrence count, [__proto__], occurs twice. *)
Theorem checkConsensus_text_not_most_frequent :
  checkConsensus (respond ["__proto__"; " __Proto__"; "Plan A"]) (3 # 10)
  = {| hasConsensus := true; consensusText := Some "Plan A" |}
  /\ occurrences (map normalized (respond ["__proto__"; " __Proto__"; "Plan A"])) "plan a" = 1
  /\ occurrences (map normalized (respond ["__proto__"; " __Proto__"; "Plan A"])) "__proto__" = 2
  /\ maxOccurrence (map normalized (respond ["__proto__"; " __Proto__"; "Plan A"])) = 2.
Proof. repeat split; vm_compute; reflexivity. Qed.

End ConsensusFacts.
(** * The orchestrator *)

Module RunFacts.
Import RunSpec ConsensusFacts.

Local Arguments Nat.sub : simpl never.

(** ** One round *)

Lemma fold_collectStep (results : list (Settled AdvisorResult))
  (acc : list AdvisorResponse * list ToolRequest) :
  fold_left collectStep results acc =
  ((fst acc ++ map responseOfResult results)%list,
   (snd acc ++ flat_map requestsOfResult results)%list).
Proof.
  revert acc; induction results as [|x l IH]; intros [rs ts]; simpl.
  - now rewrite !app_nil_r.
  - rewrite IH. destruct x; simpl; rewrite <- ?app_assoc; reflexivity.
Qed.

Lemma collect_eq (results : list (Settled AdvisorResult)) :
  collect results = (map responseOfResult results, flat_map requestsOfResult results).
Proof. unfold collect. now rewrite fold_collectStep. Qed.

Lemma requestsOf_result (x : Settled AdvisorResult) :
  requestsOf (responseOfResult x) = requestsOfResult x.
Proof.
  destruct x as [r|e]; simpl; [|reflexivity].
  unfold requestsOf; simpl. destruct (resultToolRequests r); reflexivity.
Qed.

Lemma aggregated_results (results : list (Settled AdvisorResult)) :
  flat_map requestsOf (map responseOfResult results) = flat_map requestsOfResult results.
Proof.
  induction results as [|x l IH]; simpl; [reflexivity |].
  now rewrite requestsOf_result, IH.
Qed.

Lemma mapFrom_length {A B : Type} (f : nat -> A -> B) (l : list A) (i : nat) :
  List.length (mapFrom i f l) = List.length l.
Proof. revert i; induction l as [|x l IH]; intros i; simpl; [reflexivity | now rewrite IH]. Qed.

Lemma mapFrom_Forall2 {A B : Type} (f : nat -> A -> B) (P : nat * A -> B -> Prop)
  (l : list A) (i : nat) :
  (forall j a, P (j, a) (f j a)) ->
  Forall2 P (combine (seq i (List.length l)) l) (mapFrom i f l).
Proof.
  intros H. revert i; induction l as [|x l IH]; intros i; simpl; constructor; auto.
Qed.


Section WithServer.
Variable server : Server.
Variable create : Oracle.

Let advisors := preConfiguredAdvisors server.

Lemma askAll_eq (v : ConsensusData) (st : RunState) :
  exists prompt,
    askAll server create v st =
    (map responseOfResult (mapFrom 0 (advisorTask create (roundNo st) prompt) advisors),
     flat_map requestsOfResult
       (mapFrom 0 (advisorTask create (roundNo st) prompt) advisors)).
Proof. unfold askAll. eexists. apply collect_eq. Qed.



(** A query never returns the empty string. *)
Lemma queryAdvisor_truthy (phase j : nat) (a : AdvisorConfig) (prompt text : string)
  (context : option string) :
  queryAdvisor create phase j a prompt context = Returns text -> truthy text = true.
Proof.
  unfold queryAdvisor. destruct (create _ _ _) as [c|e]; [|discriminate].
  destruct (choices c) as [cs|]; [|discriminate].
  intros H. inversion H; clear H.
  destruct cs as [|ch cs]; [reflexivity |].
  destruct (message ch) as [[s|]|]; try reflexivity.
  destruct (truthy s) eqn:T; [exact T | reflexivity].
Qed.

Lemma advisorTask_truthy (phase : nat) (prompt : string) (j : nat) (a : AdvisorConfig) :
  truthy (response (responseOfResult (advisorTask create phase prompt j a))) = true.
Proof.
  unfold advisorTask.
  destruct (queryAdvisor create phase j a prompt None) eqn:Q; simpl.
  - eapply queryAdvisor_truthy; eauto.
  - reflexivity.
Qed.

Lemma mapFrom_In {A B : Type} (f : nat -> A -> B) (l : list A) (i : nat) (y : B) :
  In y (mapFrom i f l) -> exists j a, y = f j a.
Proof.
  revert i; induction l as [|x l IH]; intros i; simpl; [tauto |].
  intros [<-|H]; eauto.
Qed.

Lemma recorded_truthy (d : DiscussionRound) (r : AdvisorResponse) :
  recorded server create d -> In r (responses d) -> truthy (response r) = true.
Proof.
  intros [_ (prompt & E)] Hr. rewrite E in Hr. apply in_map_iff in Hr.
  destruct Hr as (x & <- & Hx). apply mapFrom_In in Hx.
  destruct Hx as (j & a & ->). apply advisorTask_truthy.
Qed.

(** A response of a recorded round carries requests only when it has
    some. *)
Lemma recorded_requests (d : DiscussionRound) :
  recorded server create d -> (hasRequests d <-> aggregated d <> []).
Proof.
  intros [_ (prompt & E)]. unfold hasRequests, aggregated. rewrite E. clear E.
  generalize (mapFrom 0 (advisorTask create (round d) prompt) (preConfiguredAdvisors server)).
  intros results. induction results as [|x l IH]; simpl.
  - split; [intros (r & [] & _) | congruence].
  - split.
    + intros (r & [<-|Hr] & N).
      * destruct x as [a|e]; simpl in *; [|congruence].
        unfold requestsOf; simpl.
        destruct (resultToolRequests a); simpl in *; [congruence | discriminate].
      * intros H. apply app_eq_nil in H. destruct H as [_ H].
        apply IH in H; [exact H | eauto].
    + intros H. destruct (requestsOf (responseOfResult x)) eqn:R.
      * simpl in H. apply IH in H. destruct H as (r & Hr & N). eauto.
      * exists (responseOfResult x). split; [now left |].
        unfold requestsOf in R. destruct (toolRequests (responseOfResult x)); congruence.
Qed.

  (** ** The loop *)

Lemma roundsLoop_unfold (budget : nat) (v : ConsensusData) (st : RunState) :
  roundsLoop server create budget v st =
  if ((roundNo st <=? maxRounds server) && negb (truthyText (finalConsensusVar st)))%bool
  then
    match budget with
    | 0 => Left st
    | S budget' =>
        let (responses, allToolRequests) := askAll server create v st in
        let consensusResult := checkConsensus responses (consensusThreshold server) in
        let discussionRound :=
          {| round := roundNo st;
             responses := responses;
             consensus := consensusText consensusResult |} in
        let discussionHistory := (history st ++ [discussionRound])%list in
        if hasConsensus consensusResult then
          Left {| roundNo := roundNo st;
                  currentContext := currentContext st;
                  finalConsensusVar := consensusText consensusResult;
                  history := discussionHistory |}
        else if 0 <? List.length allToolRequests then
          Returned
            (ToolRequestsPayload "tool_requests_needed" (roundNo st) allToolRequests
               (generateDiscussionSummary discussionHistory)
               "Please execute the requested tools and continue the consensus process")
            discussionHistory
        else
          roundsLoop server create budget' v
            {| roundNo := S (roundNo st);
               currentContext := generateDiscussionContext discussionHistory;
               finalConsensusVar := finalConsensusVar st;
               history := discussionHistory |}
    end
  else Left st.
Proof. destruct budget; reflexivity. Qed.

Lemma loopSpec_stay (st : RunState) : loopSpec server create st (Left st).
Proof.
  exists []. simpl. rewrite app_nil_r. repeat split; auto; try lia.
Qed.

Theorem roundsLoop_spec (budget : nat) (v : ConsensusData) (st : RunState) :
  loopSpec server create st (roundsLoop server create budget v st).
Proof.
  revert st; induction budget as [|b IH]; intros st; rewrite roundsLoop_unfold.
  - destruct (_ && _)%bool; apply loopSpec_stay.
  - destruct ((roundNo st <=? maxRounds server)
              && negb (truthyText (finalConsensusVar st)))%bool eqn:C;
      [|apply loopSpec_stay].
    apply andb_true_iff in C. destruct C as [C _]. apply Nat.leb_le in C.
    destruct (askAll_eq v st) as (prompt & ->).
    set (results := mapFrom 0 (advisorTask create (roundNo st) prompt) advisors).
    set (rs := map responseOfResult results).
    cbv zeta.
    set (d := {| round := roundNo st; responses := rs;
                 consensus := consensusText (checkConsensus rs (consensusThreshold server)) |}).
    assert (Rd : recorded server create d).
    { split; [reflexivity |]. exists prompt. reflexivity. }
    assert (Ad : aggregated d = flat_map requestsOfResult results)
      by apply aggregated_results.
    destruct (hasConsensus (checkConsensus rs (consensusThreshold server))) eqn:H.
    + exists [d]. simpl. repeat split; auto; try lia.
      right. exists [], d. repeat split; auto.
    + destruct (0 <? List.length (flat_map requestsOfResult results)) eqn:T.
      * exists [d]. simpl. repeat split; auto; try lia.
        exists [], d. repeat split; auto.
        -- rewrite Ad. apply Nat.ltb_lt in T.
           destruct (flat_map requestsOfResult results); [simpl in T; lia | discriminate].
        -- unfold toolRequestsNeeded. now rewrite Ad.
      * assert (Qd : quiet server d).
        { split; [exact H |]. rewrite Ad. apply Nat.ltb_ge in T.
          destruct (flat_map requestsOfResult results); [reflexivity | simpl in T; lia]. }
        match goal with
        | |- loopSpec _ _ _ (roundsLoop _ _ _ _ ?st2) =>
            destruct (IH st2) as (new & E & Nr & L & R & K);
            set (o := roundsLoop server create b v st2) in *
        end.
        simpl in E, Nr, L, K.
        exists (d :: new). repeat split.
        -- rewrite E, <- app_assoc. reflexivity.
        -- simpl. now rewrite Nr.
        -- simpl. lia.
        -- now constructor.
        -- destruct o as [st'|p h].
           ++ destruct K as [[Q F]|(qs & d' & -> & Q & H' & F)].
              ** left. split; [now constructor | exact F].
              ** right. exists (d :: qs), d'. repeat split; auto.
           ++ destruct K as (qs & d' & -> & Q & H' & A & P).
              exists (d :: qs), d'. repeat split; auto.
Qed.

End WithServer.
End RunFacts.
Module RunTheorems.
Import RunSpec ConsensusFacts RunFacts.

Local Arguments Nat.sub : simpl never.

Section WithServer.
Variable server : Server.
Variable create : Oracle.

Let advisors := preConfiguredAdvisors server.

(** The budget [maxRounds] is enough: a larger one changes nothing. *)
Lemma roundsLoop_budget (b1 b2 : nat) (v : ConsensusData) (st : RunState) :
  S (maxRounds server) - roundNo st <= b1 ->
  S (maxRounds server) - roundNo st <= b2 ->
  roundsLoop server create b1 v st = roundsLoop server create b2 v st.
Proof.
  revert b2 st; induction b1 as [|b1 IH]; intros b2 st H1 H2;
    rewrite (roundsLoop_unfold server create _ v st);
    rewrite (roundsLoop_unfold server create b2 v st);
    destruct ((roundNo st <=? maxRounds server)
              && negb (truthyText (finalConsensusVar st)))%bool eqn:C;
    try reflexivity;
    apply andb_true_iff in C; destruct C as [C _]; apply Nat.leb_le in C.
  - lia.
  - destruct b2 as [|b2]; [lia |].
    destruct (askAll server create v st) as [rs ts]. cbv zeta.
    destruct (hasConsensus _); [reflexivity |].
    destruct (0 <? List.length ts); [reflexivity |].
    apply IH; simpl; lia.
Qed.

(** ** The summary pass *)

Lemma fold_summaryStep (prompt : string) (l : list AdvisorConfig) (i : nat)
  (acc : list AdvisorResponse * list SummaryVariation) :
  fold_left (summaryStep) (mapFrom i (summaryTask create prompt) l) acc =
  ((fst acc ++ mapFrom i (summaryResponse create prompt) l)%list,
   (snd acc ++ mapFrom i (summaryVariation create prompt) l)%list).
Proof.
  revert i acc; induction l as [|a l IH]; intros i [rs vs]; simpl.
  - now rewrite !app_nil_r.
  - rewrite IH. unfold summaryTask, summaryResponse, summaryVariation, summaryText.
    destruct (queryAdvisor create 0 i a prompt None); simpl;
      rewrite <- !app_assoc; reflexivity.
Qed.

Lemma summaryResponse_answered (prompt : string) (j : nat) (a : AdvisorConfig) :
  answered create 0 "Error generating summary: " prompt (j, a)
    (summaryResponse create prompt j a).
Proof.
  unfold answered, summaryResponse, summaryText. simpl.
  destruct (queryAdvisor create 0 j a prompt None); auto.
Qed.

Lemma conclude_eq (st : RunState) :
  exists sd variations guidance,
    summaryRound create advisors (finalConsensusVar st) (List.length (history st) + 1) sd
    /\ conclude server create st =
       {| payload :=
            ResultPayload
              (if truthyText (finalConsensusVar st)
               then "consensus_reached" else "max_rounds_reached")
              (match finalConsensusVar st with
               | Some c => if truthy c then c else noConsensusText
               | None => noConsensusText
               end)
              (List.length (history st) + 1)
              (history st ++ [sd])%list variations guidance;
          isError := false;
          historyAfter := (history st ++ [sd])%list |}.
Proof.
  unfold conclude. rewrite fold_summaryStep. cbv zeta. simpl fst. simpl snd.
  rewrite !app_nil_l.
  set (prompt := summaryPrompt (finalConsensusVar st) (history st)).
  eexists _, _, _. split; [|rewrite length_app; simpl List.length; reflexivity].
  repeat split; simpl.
  - intros r Hr. apply mapFrom_In in Hr. destruct Hr as (j & a & ->). reflexivity.
  - exists prompt. unfold positioned. apply mapFrom_Forall2.
    intros j a. apply summaryResponse_answered.
Qed.

  (** ** The run *)

Lemma run_unfold (before : list DiscussionRound) (input : JSValue) (v : ConsensusData) :
  validateConsensusData input = Returns v ->
  processConsensus server create before input =
  match roundsLoop server create (maxRounds server) v (initialState v) with
  | Returned p h => {| payload := p; isError := false; historyAfter := h |}
  | Left st => conclude server create st
  end.
Proof. intros H. unfold processConsensus. now rewrite H. Qed.

Lemma recorded_consensus_truthy (d : DiscussionRound) :
  recorded server create d -> hasConsensus (evaluated server d) = true ->
  exists text, consensus d = Some text /\ truthy text = true.
Proof.
  intros R H. destruct (@checkConsensus_some _ _ H) as (r & Hr & E).
  exists (response r). split.
  - destruct R as [C _]. now rewrite C.
  - eapply recorded_truthy; eauto.
Qed.

(** Every run on a valid input ends in one of the three ways. *)
Theorem run_spec (before : list DiscussionRound) (input : JSValue) (v : ConsensusData) :
  validateConsensusData input = Returns v ->
  runSpec server create (processConsensus server create before input).
Proof.
  intros V. rewrite (@run_unfold before input v V).
  destruct (roundsLoop_spec server create (maxRounds server) v (initialState v))
    as (new & E & Nr & L & R & K).
  simpl in E, Nr, L.
  assert (L' : List.length new <= maxRounds server) by lia. clear L.
  destruct (roundsLoop server create (maxRounds server) v (initialState v)) as [st|p h].
  - simpl in E. destruct (conclude_eq st) as (sd & vs & g & S & ->).
    rewrite E in *. split; [reflexivity |]. exists new. repeat split; auto.
    right. destruct K as [[Q F]|(qs & d & -> & Q & H & F)].
    + right. simpl in F. rewrite F in *. simpl. exists sd, vs, g.
      split; [exact Q |]. split; [exact S |]. split; reflexivity.
    + left. assert (Rd : recorded server create d).
      { rewrite Forall_forall in R. apply R. apply in_or_app. right. now left. }
      destruct (@recorded_consensus_truthy d Rd H) as (text & C & T).
      rewrite F, C in *. simpl. rewrite T.
      exists qs, d, text, sd, vs, g.
      split; [reflexivity |]. split; [exact Q |]. split; [exact H |].
      split; [exact C |]. split; [exact S |]. split; reflexivity.
  - simpl in E. subst h. split; [reflexivity |]. exists new. repeat split; auto.
    left. destruct K as (qs & d & -> & Q & H & A & P).
    exists qs, d. repeat split; auto.
Qed.

End WithServer.
End RunTheorems.

Module Claims.
Import RunSpec Scenarios ConsensusFacts RunFacts RunTheorems.

Local Arguments Nat.sub : simpl never.

(** ** Facts about the histories of the three endings *)

Lemma quiet_no_requests (server : Server) (create : Oracle) (d : DiscussionRound) :
  recorded server create d -> quiet server d -> ~ hasRequests d.
Proof.
  intros R [_ A] H. apply (@recorded_requests server create d R) in H. contradiction.
Qed.

Lemma summaryRound_no_requests (create : Oracle) (advisors : list AdvisorConfig)
  (final : option string) (n : nat) (sd : DiscussionRound) :
  summaryRound create advisors final n sd -> ~ hasRequests sd.
Proof.
  intros (_ & _ & N & _) (r & Hr & H). apply H, N, Hr.
Qed.

Lemma last_round (qs : list DiscussionRound) (d : DiscussionRound) (i : nat) :
  map round (qs ++ [d]) = seq i (List.length (qs ++ [d])) ->
  round d = i + List.length qs.
Proof.
  rewrite map_app, length_app, seq_app. simpl. intros H.
  apply (f_equal (@rev nat)) in H. rewrite !rev_app_distr in H. simpl in H.
  now inversion H.
Qed.

Lemma Forall_In {A : Type} (P : A -> Prop) (l : list A) (x : A) :
  Forall P l -> In x l -> P x.
Proof. intros H. rewrite Forall_forall in H. apply H. Qed.

Lemma Forall_app_l {A : Type} (P : A -> Prop) (l m : list A) :
  Forall P (l ++ m) -> Forall P l.
Proof. intros H. apply Forall_app in H. tauto. Qed.

(** A round of the history that carries requests and no consensus is the
    last round of a run that ended with the requests. *)
Lemma requests_round_is_last (server : Server) (create : Oracle) (reply : Reply)
  (d : DiscussionRound) :
  runSpec server create reply ->
  In d (historyAfter reply) -> consensus d = None -> hasRequests d ->
  exists qs,
    historyAfter reply = (qs ++ [d])%list
    /\ round d = List.length (historyAfter reply)
    /\ payload reply = toolRequestsNeeded d (historyAfter reply).
Proof.
  intros (_ & new & R & Nr & L & [K|[K|K]]) Hin C H.
  - destruct K as (qs & d0 & -> & Q & H0 & A & E & P).
    rewrite E in *. apply in_app_iff in Hin. destruct Hin as [Hin|[<-|[]]].
    + exfalso. apply (@quiet_no_requests server create d); auto.
      * eapply Forall_In; [apply (@Forall_app_l _ _ _ _ R) | exact Hin].
      * eapply Forall_In; eauto.
    + exists qs. split; [reflexivity |]. split; [|exact P].
      rewrite (@last_round _ _ _ Nr), length_app. simpl. lia.
  - exfalso. destruct K as (qs & d0 & text & sd & vs & g & -> & Q & H0 & C0 & S & E & P).
    rewrite E in Hin. apply in_app_iff in Hin. destruct Hin as [Hin|[<-|[]]].
    + apply in_app_iff in Hin. destruct Hin as [Hin|[<-|[]]].
      * apply (@quiet_no_requests server create d); auto.
        -- eapply Forall_In; [apply (@Forall_app_l _ _ _ _ R) | exact Hin].
        -- eapply Forall_In; eauto.
      * congruence.
    + eapply summaryRound_no_requests; eauto.
  - exfalso. destruct K as (sd & vs & g & Q & S & E & P).
    rewrite E in Hin. apply in_app_iff in Hin. destruct Hin as [Hin|[<-|[]]].
    + apply (@quiet_no_requests server create d); auto; eapply Forall_In; eauto.
    + eapply summaryRound_no_requests; eauto.
Qed.

(** ** The rounds do not depend on the summary pass *)

Lemma mapFrom_ext {A B : Type} (f g : nat -> A -> B) (l : list A) (i : nat) :
  (forall j a, f j a = g j a) -> mapFrom i f l = mapFrom i g l.
Proof.
  intros H. revert i; induction l as [|x l IH]; intros i; simpl; [reflexivity |].
  now rewrite H, IH.
Qed.

Lemma roundsLoop_agree (server : Server) (create create' : Oracle) (budget : nat)
  (v : ConsensusData) (st : RunState) :
  agreeOnRounds create create' -> 1 <= roundNo st ->
  roundsLoop server create budget v st = roundsLoop server create' budget v st.
Proof.
  intros A. revert st; induction budget as [|b IH]; intros st P; [reflexivity |].
  rewrite !roundsLoop_unfold.
  assert (E : askAll server create v st = askAll server create' v st).
  { unfold askAll. f_equal. apply mapFrom_ext. intros j a.
    unfold advisorTask, queryAdvisor. now rewrite (A _ _ _ P). }
  rewrite E. destruct (_ && _)%bool; [|reflexivity].
  destruct (askAll server create' v st) as [rs ts]. cbv zeta.
  destruct (hasConsensus _); [reflexivity |].
  destruct (0 <? List.length ts); [reflexivity |].
  apply IH. simpl. lia.
Qed.

(** C1, as the code has it.  In a run on a valid input, a round that
    carries tool requests and reached no consensus ends the run: the
    payload has the status tool_requests_needed (the other statuses being
    consensus_reached, max_rounds_reached and failed) and carries the
    number of the round, the requests of the round, the summary of the
    discussion and the guidance for the next action.  That round is the
    last of the history, so no summary round follows it, and the reply is
    the same whatever the remote model would answer in a summary pass. *)
Theorem tool_requests_end_the_run (server : Server) (create : Oracle)
  (before : list DiscussionRound) (input : JSValue) (v : ConsensusData)
  (d : DiscussionRound) :
  validateConsensusData input = Returns v ->
  In d (historyAfter (processConsensus server create before input)) ->
  consensus d = None ->
  hasRequests d ->
  payload (processConsensus server create before input) =
    ToolRequestsPayload "tool_requests_needed" (round d) (aggregated d)
      (generateDiscussionSummary (historyAfter (processConsensus server create before input)))
      "Please execute the requested tools and continue the consensus process"
  /\ isError (processConsensus server create before input) = false
  /\ (exists earlier,
        historyAfter (processConsensus server create before input) = (earlier ++ [d])%list)
  /\ round d = List.length (historyAfter (processConsensus server create before input))
  /\ (forall create',
        agreeOnRounds create create' ->
        processConsensus server create' before input =
        processConsensus server create before input).
Proof.
  intros V Hin C H.
  pose proof (@run_spec server create before input v V) as RS.
  destruct (@requests_round_is_last server create _ d RS Hin C H) as (qs & E & N & P).
  split; [exact P |]. split; [apply RS |]. split; [eauto |]. split; [exact N |].
  intros create' A.
  rewrite (@run_unfold server create' before input v V).
  rewrite <- (@roundsLoop_agree server create create' _ v (initialState v) A (le_n 1)).
  rewrite (@run_unfold server create before input v V) in *.
  destruct (roundsLoop server create (maxRounds server) v (initialState v)) as [st|p h];
    [|reflexivity].
  exfalso. destruct (conclude_eq server create st) as (sd & vs & g & S & Q).
  rewrite Q in P. discriminate P.
Qed.

Lemma tool_requests_end_the_run_witness :
  validateConsensusData sampleInput = Returns sampleData
  /\ payload (processConsensus defaultServer requestingOracle [] sampleInput) =
     ToolRequestsPayload "tool_requests_needed" 1
       (aggregated
          (firstRound (historyAfter (processConsensus defaultServer requestingOracle [] sampleInput))))
       (generateDiscussionSummary
          (historyAfter (processConsensus defaultServer requestingOracle [] sampleInput)))
       "Please execute the requested tools and continue the consensus process".
Proof.
  split; [reflexivity |].
  apply (@tool_requests_end_the_run defaultServer requestingOracle [] sampleInput sampleData
           (firstRound
              (historyAfter (processConsensus defaultServer requestingOracle [] sampleInput)))).
  - reflexivity.
  - vm_compute. left. reflexivity.
  - vm_compute. reflexivity.
  - exists (responseAt 2
              (firstRound
                 (historyAfter (processConsensus defaultServer requestingOracle [] sampleInput)))).
    split.
    + vm_compute. right. right. left. reflexivity.
    + vm_compute. discriminate.
Defined.

(** The claim as written fails on this run: round 1 carries a request and
    reaches no consensus, and the status of the payload is
    tool_requests_needed, not awaiting_information. *)
Lemma status_is_not_awaiting_information :
  validateConsensusData sampleInput = Returns sampleData
  /\ consensus
       (firstRound (historyAfter (processConsensus defaultServer requestingOracle [] sampleInput)))
     = None
  /\ List.length
       (aggregated
          (firstRound (historyAfter (processConsensus defaultServer requestingOracle [] sampleInput))))
     = 1
  /\ statusOf (payload (processConsensus defaultServer requestingOracle [] sampleInput))
     = "tool_requests_needed"
  /\ statusOf (payload (processConsensus defaultServer requestingOracle [] sampleInput))
     <> "awaiting_information".
Proof.
  repeat split; try (vm_compute; reflexivity). vm_compute. discriminate.
Qed.

(** ** Consensus and requests in the same round *)

(** C7.  In a run on a valid input, a round for which the evaluator finds
    consensus and which carries tool requests ends the run with the status
    consensus_reached and the consensus text of that round.  And a payload
    of the early exit comes from a last round for which the evaluator found
    no consensus. *)
Theorem consensus_wins_over_requests (server : Server) (create : Oracle)
  (before : list DiscussionRound) (input : JSValue) (v : ConsensusData) :
  validateConsensusData input = Returns v ->
  (forall d,
      In d (historyAfter (processConsensus server create before input)) ->
      hasConsensus (evaluated server d) = true ->
      hasRequests d ->
      statusOf (payload (processConsensus server create before input)) = "consensus_reached"
      /\ exists text n h variations guidance,
          consensus d = Some text
          /\ payload (processConsensus server create before input) =
             ResultPayload "consensus_reached" text n h variations guidance)
  /\ (forall status n requested sm next,
        payload (processConsensus server create before input) =
          ToolRequestsPayload status n requested sm next ->
        exists earlier d,
          historyAfter (processConsensus server create before input) = (earlier ++ [d])%list
          /\ hasConsensus (evaluated server d) = false
          /\ requested = aggregated d
          /\ requested <> []).
Proof.
  intros V.
  destruct (@run_spec server create before input v V) as (_ & new & R & Nr & L & K).
  split.
  - intros d Hin H HR. destruct K as [K|[K|K]].
    + exfalso. destruct K as (qs & d0 & -> & Q & H0 & A & E & P).
      rewrite E in Hin. apply in_app_iff in Hin. destruct Hin as [Hin|[<-|[]]].
      * destruct (@Forall_In _ _ _ d Q Hin) as [N _]. congruence.
      * congruence.
    + destruct K as (qs & d0 & text & sd & vs & g & -> & Q & H0 & C0 & S & E & P).
      rewrite E in Hin. apply in_app_iff in Hin. destruct Hin as [Hin|[<-|[]]].
      * apply in_app_iff in Hin. destruct Hin as [Hin|[<-|[]]].
        -- exfalso. destruct (@Forall_In _ _ _ d Q Hin) as [N _]. congruence.
        -- rewrite P. split; [reflexivity |]. eauto 10.
      * exfalso. eapply summaryRound_no_requests; eauto.
    + exfalso. destruct K as (sd & vs & g & Q & S & E & P).
      rewrite E in Hin. apply in_app_iff in Hin. destruct Hin as [Hin|[<-|[]]].
      * destruct (@Forall_In _ _ _ d Q Hin) as [N _]. congruence.
      * eapply summaryRound_no_requests; eauto.
  - intros status n requested sm next P. destruct K as [K|[K|K]].
    + destruct K as (qs & d0 & -> & Q & H0 & A & E & P').
      rewrite P' in P. unfold toolRequestsNeeded in P. inversion P; subst.
      exists qs, d0. auto.
    + destruct K as (qs & d0 & text & sd & vs & g & _ & _ & _ & _ & _ & _ & P').
      rewrite P' in P. discriminate.
    + destruct K as (sd & vs & g & _ & _ & _ & P').
      rewrite P' in P. discriminate.
Qed.

Lemma consensus_wins_over_requests_witness :
  validateConsensusData sampleInput = Returns sampleData
  /\ statusOf (payload (processConsensus defaultServer agreeingRequestingOracle [] sampleInput))
     = "consensus_reached".
Proof.
  split; [reflexivity |].
  destruct (@consensus_wins_over_requests defaultServer agreeingRequestingOracle []
              sampleInput sampleData eq_refl) as [W _].
  apply (W (firstRound
              (historyAfter
                 (processConsensus defaultServer agreeingRequestingOracle [] sampleInput)))).
  - vm_compute. left. reflexivity.
  - vm_compute. reflexivity.
  - exists (responseAt 0
              (firstRound
                 (historyAfter
                    (processConsensus defaultServer agreeingRequestingOracle [] sampleInput)))).
    split.
    + vm_compute. left. reflexivity.
    + vm_compute. discriminate.
Defined.

(** The statuses the server emits. *)
Lemma status_values (server : Server) (create : Oracle) (before : list DiscussionRound)
  (input : JSValue) :
  In (statusOf (payload (processConsensus server create before input)))
    ["consensus_reached"; "max_rounds_reached"; "tool_requests_needed"; "failed"].
Proof.
  destruct (validateConsensusData input) as [v|e] eqn:V.
  - destruct (@run_spec server create before input v V) as (_ & new & _ & _ & _ & [K|[K|K]]).
    + destruct K as (qs & d & _ & _ & _ & _ & _ & ->). simpl. auto.
    + destruct K as (qs & d & text & sd & vs & g & _ & _ & _ & _ & _ & _ & ->). simpl. auto.
    + destruct K as (sd & vs & g & _ & _ & _ & ->). simpl. auto.
  - unfold processConsensus. rewrite V. simpl. auto.
Qed.

(** ** One response per advisor *)





(** ** The length of the history *)

(** C8.  The loop leaves the rounds it found in the history as they are and
    appends at most as many rounds as the round limit allows from its
    round, one per iteration, numbered consecutively; the summary pass
    appends exactly one round.  So after a run on a valid input the history
    has at most [maxRounds + 1] rounds, numbered from 1, and a run as a
    whole keeps the history within that bound. *)
Theorem history_bounded (server : Server) (create : Oracle)
  (before : list DiscussionRound) (input : JSValue) :
  List.length before <= maxRounds server + 1 ->
  List.length (historyAfter (processConsensus server create before input))
    <= maxRounds server + 1
  /\ (forall v,
        validateConsensusData input = Returns v ->
        map round (historyAfter (processConsensus server create before input)) =
        seq 1 (List.length (historyAfter (processConsensus server create before input))))
  /\ (forall budget v st,
        exists new,
          historyOf (roundsLoop server create budget v st) = (history st ++ new)%list
          /\ map round new = seq (roundNo st) (List.length new)
          /\ List.length new <= S (maxRounds server) - roundNo st)
  /\ (forall st,
        exists sd,
          historyAfter (conclude server create st) = (history st ++ [sd])%list).
Proof.
  intros B.
  assert (G : forall v, validateConsensusData input = Returns v ->
            List.length (historyAfter (processConsensus server create before input))
              <= maxRounds server + 1
            /\ map round (historyAfter (processConsensus server create before input)) =
               seq 1 (List.length (historyAfter (processConsensus server create before input)))).
  { intros v V.
    destruct (@run_spec server create before input v V) as (_ & new & R & Nr & L & K).
    assert (S1 : forall sd, round sd = List.length new + 1 ->
                   map round (new ++ [sd]) = seq 1 (List.length (new ++ [sd]))).
    { intros sd E. rewrite map_app, length_app, seq_app, Nr. simpl. rewrite E.
      f_equal. f_equal. lia. }
    destruct K as [K|[K|K]].
    - destruct K as (qs & d0 & _ & _ & _ & _ & E & _). rewrite E. split; [lia | exact Nr].
    - destruct K as (qs & d0 & text & sd & vs & g & _ & _ & _ & _ & S & E & _).
      rewrite E. split; [rewrite length_app; simpl; lia | apply S1, S].
    - destruct K as (sd & vs & g & _ & S & E & _).
      rewrite E. split; [rewrite length_app; simpl; lia | apply S1, S]. }
  split; [|split; [|split]].
  - destruct (validateConsensusData input) as [v|e] eqn:V.
    + apply (G v eq_refl).
    + unfold processConsensus. rewrite V. exact B.
  - intros v V. apply (G v V).
  - intros budget v st.
    destruct (roundsLoop_spec server create budget v st) as (new & E & Nr & L & _).
    exists new. auto.
  - intros st. destruct (conclude_eq server create st) as (sd & vs & g & _ & ->).
    exists sd. reflexivity.
Qed.

Lemma history_bounded_witness :
  List.length (@nil DiscussionRound) <= maxRounds defaultServer + 1
  /\ List.length (historyAfter (processConsensus defaultServer disagreeingOracle [] sampleInput))
     <= maxRounds defaultServer + 1.
Proof.
  split; [simpl; lia |].
  apply (@history_bounded defaultServer disagreeingOracle [] sampleInput).
  simpl; lia.
Defined.

(** ** Failure markers and the agreement count *)

Lemma uniqueTexts_constant (l : list string) (t : string) :
  l <> [] -> (forall x, In x l -> x = t) -> uniqueTexts l = [t].
Proof.
  intros NE H.
  assert (I : In t (uniqueTexts l)).
  { apply CountsFacts.uniqueTexts_In. destruct l as [|x l]; [congruence |].
    rewrite <- (H x); now left. }
  assert (A : forall x, In x (uniqueTexts l) -> x = t).
  { intros x Hx. apply H. now apply CountsFacts.uniqueTexts_In. }
  pose proof (CountsFacts.uniqueTexts_NoDup l) as ND.
  destruct (uniqueTexts l) as [|a [|b u]]; [contradiction | |].
  - now rewrite (A a (or_introl eq_refl)).
  - exfalso. inversion ND as [|? ? N _]; subst. apply N.
    rewrite (A a), (A b); simpl; auto.
Qed.







(** ** Validation *)






End Claims.

(** * The first version of the server *)

Module LegacyFacts.
Import RunSpec LegacySpec Scenarios ConsensusFacts RunFacts RunTheorems.

Local Arguments Nat.sub : simpl never.

Section WithRoster.
Variable advisors : list AdvisorConfig.
Variable create : Oracle.

Lemma legacy_query_truthy (phase j : nat) (a : AdvisorConfig) (prompt text : string)
  (context : option string) :
  Legacy.queryAdvisor create phase j a prompt context = Returns text -> truthy text = true.
Proof.
  unfold Legacy.queryAdvisor. destruct (create _ _ _) as [c|e]; [|discriminate].
  destruct (choices c) as [cs|]; [|discriminate].
  intros H. inversion H; clear H.
  destruct cs as [|ch cs]; [reflexivity |].
  destruct (message ch) as [[s|]|]; try reflexivity.
  destruct (truthy s) eqn:T; [exact T | reflexivity].
Qed.

Lemma askEach_spec (roundNumber : nat) (prompt : string) (rest : list AdvisorConfig) :
  forall position acc rs ts,
    Legacy.askEach create roundNumber prompt position rest acc = Returns (rs, ts) ->
    exists rs',
      rs = (fst acc ++ rs')%list
      /\ ts = (snd acc ++ flat_map requestsOf rs')%list
      /\ forall r, In r rs' -> truthy (response r) = true /\ toolRequests r <> Some [].
Proof.
  induction rest as [|a rest IH]; intros position acc rs ts H; simpl in H.
  - inversion H; subst. exists []. simpl. rewrite !app_nil_r. auto.
  - destruct (Legacy.queryAdvisor create roundNumber position a prompt None) as [text|e] eqn:Q;
      [|discriminate].
    apply IH in H. destruct H as (rs' & -> & -> & P). simpl fst. simpl snd.
    eexists (_ :: rs'). rewrite <- !app_assoc. split; [reflexivity |]. split.
    + simpl. f_equal. f_equal. unfold requestsOf. simpl.
      destruct (Directive.parseToolRequests text); reflexivity.
    + intros r [<-|Hr]; [|auto]. simpl. split.
      * eapply legacy_query_truthy; eauto.
      * destruct (Directive.parseToolRequests text); simpl; congruence.
Qed.

Lemma legacy_unfold (budget : nat) (v : Legacy.ConsensusData) (st : RunState) :
  Legacy.roundsLoop advisors create budget v st =
  if (Qle_bool (inject_Z (Z.of_nat (roundNo st))) (Legacy.maxRounds v)
      && negb (truthyText (finalConsensusVar st)))%bool
  then
    match budget with
    | 0 => Legacy.Left st
    | S budget' =>
        match Legacy.askEach create (roundNo st)
                (if roundNo st =? 1 then Legacy.firstPrompt v
                 else followUpPrompt (currentContext st)) 0 advisors ([], []) with
        | Throws e => Legacy.Raised e (history st)
        | Returns (responses, allToolRequests) =>
            if hasConsensus (checkConsensus responses (Legacy.consensusThreshold v)) then
              Legacy.Left
                {| roundNo := roundNo st;
                   currentContext := currentContext st;
                   finalConsensusVar :=
                     consensusText (checkConsensus responses (Legacy.consensusThreshold v));
                   history :=
                     (history st ++
                        [ {| round := roundNo st; responses := responses;
                             consensus :=
                               consensusText
                                 (checkConsensus responses (Legacy.consensusThreshold v)) |} ])%list |}
            else if 0 <? List.length allToolRequests then
              Legacy.Returned
                (Legacy.ToolRequestsPayload "tool_requests_needed" (roundNo st) allToolRequests
                   (generateDiscussionSummary
                      (history st ++
                         [ {| round := roundNo st; responses := responses;
                              consensus :=
                                consensusText
                                  (checkConsensus responses (Legacy.consensusThreshold v)) |} ])%list)
                   "Please execute the requested tools and continue the consensus process")
                (history st ++
                   [ {| round := roundNo st; responses := responses;
                        consensus :=
                          consensusText
                            (checkConsensus responses (Legacy.consensusThreshold v)) |} ])%list
            else
              Legacy.roundsLoop advisors create budget' v
                {| roundNo := S (roundNo st);
                   currentContext :=
                     generateDiscussionContext
                       (history st ++
                          [ {| round := roundNo st; responses := responses;
                               consensus :=
                                 consensusText
                                   (checkConsensus responses (Legacy.consensusThreshold v)) |} ])%list;
                   finalConsensusVar := finalConsensusVar st;
                   history :=
                     (history st ++
                        [ {| round := roundNo st; responses := responses;
                             consensus :=
                               consensusText
                                 (checkConsensus responses (Legacy.consensusThreshold v)) |} ])%list |}
        end
    end
  else Legacy.Left st.
Proof.
  destruct budget; simpl; [reflexivity |].
  destruct (_ && _)%bool; [|reflexivity].
  destruct (Legacy.askEach _ _ _ _ _ _) as [[rs ts]|e]; reflexivity.
Qed.

Lemma legacy_stay (server : Server) (st : RunState) :
  legacyLoopSpec server st (Legacy.Left st).
Proof. exists []. simpl. rewrite app_nil_r. repeat split; auto. Qed.

Theorem legacy_loop_spec (budget : nat) (v : Legacy.ConsensusData) (st : RunState) :
  legacyLoopSpec (serverOf advisors v) st (Legacy.roundsLoop advisors create budget v st).
Proof.
  revert st; induction budget as [|b IH]; intros st; rewrite legacy_unfold.
  - destruct (_ && _)%bool; apply legacy_stay.
  - destruct (_ && _)%bool; [|apply legacy_stay].
    destruct (Legacy.askEach _ _ _ _ _ _) as [[rs ts]|e] eqn:A.
    + apply askEach_spec in A. destruct A as (rs' & E1 & E2 & P). simpl in E1, E2. subst rs' ts.
      set (d := {| round := roundNo st; responses := rs;
                   consensus := consensusText (checkConsensus rs (Legacy.consensusThreshold v)) |}).
      assert (Rd : legacyRecorded (serverOf advisors v) d) by (split; [reflexivity | exact P]).
      destruct (hasConsensus (checkConsensus rs (Legacy.consensusThreshold v))) eqn:H.
      * exists [d]. simpl. repeat split; auto.
        right. exists [], d. repeat split; auto.
      * destruct (0 <? List.length (flat_map requestsOf rs)) eqn:T.
        -- exists [d]. simpl. repeat split; auto.
           exists [], d. repeat split; auto.
           apply Nat.ltb_lt in T. unfold aggregated. simpl.
           destruct (flat_map requestsOf rs); [simpl in T; lia | discriminate].
        -- assert (Qd : quiet (serverOf advisors v) d).
           { split; [exact H |]. apply Nat.ltb_ge in T. unfold aggregated. simpl.
             destruct (flat_map requestsOf rs); [reflexivity | simpl in T; lia]. }
           match goal with
           | |- legacyLoopSpec _ _ (Legacy.roundsLoop _ _ _ _ ?st2) =>
               destruct (IH st2) as (new & E & Nr & R & K);
               set (o := Legacy.roundsLoop advisors create b v st2) in *
           end.
           simpl in E, Nr, K.
           exists (d :: new). repeat split.
           ++ rewrite E, <- app_assoc. reflexivity.
           ++ simpl. now rewrite Nr.
           ++ now constructor.
           ++ destruct o as [st'|p h|e h].
              ** destruct K as [[Q F]|(qs & d' & -> & Q & H' & F)].
                 --- left. split; [now constructor | exact F].
                 --- right. exists (d :: qs), d'. repeat split; auto.
              ** destruct K as (qs & d' & -> & Q & H' & A' & P').
                 exists (d :: qs), d'. repeat split; auto.
              ** now constructor.
    + exists []. simpl. rewrite app_nil_r. repeat split; auto.
Qed.

Lemma within_limit (n : nat) (limit : Q) :
  Qle_bool (inject_Z (Z.of_nat n)) limit = true -> n <= Legacy.budgetOf limit.
Proof.
  intros H. apply Qle_bool_iff in H. apply Qfloor_resp_le in H.
  rewrite Qfloor_Z in H. unfold Legacy.budgetOf. lia.
Qed.

(** The budget the run starts with is enough. *)
Lemma legacy_budget (b1 b2 : nat) (v : Legacy.ConsensusData) (st : RunState) :
  S (Legacy.budgetOf (Legacy.maxRounds v)) - roundNo st <= b1 ->
  S (Legacy.budgetOf (Legacy.maxRounds v)) - roundNo st <= b2 ->
  Legacy.roundsLoop advisors create b1 v st = Legacy.roundsLoop advisors create b2 v st.
Proof.
  revert b2 st; induction b1 as [|b1 IH]; intros b2 st H1 H2;
    rewrite (legacy_unfold _ v st); rewrite (legacy_unfold b2 v st);
    destruct (Qle_bool (inject_Z (Z.of_nat (roundNo st))) (Legacy.maxRounds v)
              && negb (truthyText (finalConsensusVar st)))%bool eqn:C;
    try reflexivity;
    apply andb_true_iff in C; destruct C as [C _]; apply within_limit in C.
  - lia.
  - destruct b2 as [|b2]; [lia |].
    destruct (Legacy.askEach _ _ _ _ _ _) as [[rs ts]|e]; [|reflexivity].
    destruct (hasConsensus _); [reflexivity |].
    destruct (0 <? List.length ts); [reflexivity |].
    apply IH; simpl; lia.
Qed.

Lemma legacy_run_unfold (before : list DiscussionRound) (input : JSValue)
  (v : Legacy.ConsensusData) :
  Legacy.validateConsensusData input = Returns v ->
  Legacy.processConsensus advisors create before input =
  match Legacy.roundsLoop advisors create (Legacy.budgetOf (Legacy.maxRounds v)) v
          (initialState {| problem := Legacy.problem v;
                           availableTools := Legacy.availableTools v |}) with
  | Legacy.Returned p h => {| Legacy.payload := p; Legacy.isError := false;
                              Legacy.historyAfter := h |}
  | Legacy.Raised e h =>
      {| Legacy.payload := Legacy.ErrorPayload (messageOf e) "failed";
         Legacy.isError := true; Legacy.historyAfter := h |}
  | Legacy.Left st => Legacy.conclude st
  end.
Proof. intros H. unfold Legacy.processConsensus. now rewrite H. Qed.

Lemma legacy_quiet_no_requests (server : Server) (d : DiscussionRound) :
  legacyRecorded server d -> quiet server d -> ~ hasRequests d.
Proof.
  intros [_ R] [_ A] (r & Hr & N). destruct (R r Hr) as [_ NE].
  assert (E : requestsOf r = []).
  { unfold aggregated in A. clear N NE R. induction (responses d) as [|x l IH]; [contradiction |].
    simpl in A. apply app_eq_nil in A. destruct A as [A1 A2].
    destruct Hr as [<-|Hr]; auto. }
  unfold requestsOf in E. destruct (toolRequests r) as [l|]; congruence.
Qed.

Lemma legacy_consensus_truthy (server : Server) (d : DiscussionRound) :
  legacyRecorded server d -> hasConsensus (evaluated server d) = true ->
  exists text, consensus d = Some text /\ truthy text = true.
Proof.
  intros [C R] H. destruct (@checkConsensus_some _ _ H) as (r & Hr & E).
  exists (response r). split; [now rewrite C | apply (R r Hr)].
Qed.

(** What C1 says of the early return holds for the first version too, with
    the same status [tool_requests_needed]: a round of the history that
    carries requests and no consensus is the last one, and the payload is
    that of the early return. *)
Theorem legacy_tool_requests_end_the_run (before : list DiscussionRound) (input : JSValue)
  (v : Legacy.ConsensusData) (d : DiscussionRound) :
  Legacy.validateConsensusData input = Returns v ->
  In d (Legacy.historyAfter (Legacy.processConsensus advisors create before input)) ->
  consensus d = None ->
  hasRequests d ->
  Legacy.payload (Legacy.processConsensus advisors create before input) =
    legacyToolRequestsNeeded d
      (Legacy.historyAfter (Legacy.processConsensus advisors create before input))
  /\ exists earlier,
      Legacy.historyAfter (Legacy.processConsensus advisors create before input)
      = (earlier ++ [d])%list.
Proof.
  intros V. rewrite (@legacy_run_unfold before input v V).
  destruct (legacy_loop_spec (Legacy.budgetOf (Legacy.maxRounds v)) v
              (initialState {| problem := Legacy.problem v;
                               availableTools := Legacy.availableTools v |}))
    as (new & E & Nr & R & K).
  simpl in E. set (server := serverOf advisors v) in *.
  assert (G : forall l, Forall (quiet server) l -> Forall (legacyRecorded server) l ->
                        In d l -> hasRequests d -> False).
  { intros l Q R' Hin H. eapply legacy_quiet_no_requests; eauto; eapply Forall_forall; eauto. }
  destruct (Legacy.roundsLoop _ _ _ _ _) as [st|p h|e h]; simpl in *;
    try subst h; try rewrite E;
    intros Hin C H.
  - exfalso. destruct K as [[Q F]|(qs & d0 & -> & Q & H0 & F)]; [eauto |].
    apply Forall_app in R. destruct R as [Rq Rd].
    apply in_app_iff in Hin. destruct Hin as [Hin|[->|[]]]; [eauto |].
    inversion Rd; subst.
    destruct (@legacy_consensus_truthy server d ltac:(assumption) H0) as (text & C' & _).
    congruence.
  - destruct K as (qs & d0 & -> & Q & H0 & A & ->).
    apply Forall_app in R. destruct R as [Rq Rd].
    apply in_app_iff in Hin. destruct Hin as [Hin|[->|[]]]; [exfalso; eauto |].
    split; [reflexivity | eauto].
  - exfalso. eauto.
Qed.

(** What C7 says holds for the first version too: a round of the history for
    which the evaluator finds consensus ends the run with the status
    [consensus_reached], whether or not it carries requests. *)
Theorem legacy_consensus_wins (before : list DiscussionRound) (input : JSValue)
  (v : Legacy.ConsensusData) (d : DiscussionRound) :
  Legacy.validateConsensusData input = Returns v ->
  In d (Legacy.historyAfter (Legacy.processConsensus advisors create before input)) ->
  hasConsensus (evaluated (serverOf advisors v) d) = true ->
  Legacy.statusOf (Legacy.payload (Legacy.processConsensus advisors create before input))
  = "consensus_reached".
Proof.
  intros V. rewrite (@legacy_run_unfold before input v V).
  destruct (legacy_loop_spec (Legacy.budgetOf (Legacy.maxRounds v)) v
              (initialState {| problem := Legacy.problem v;
                               availableTools := Legacy.availableTools v |}))
    as (new & E & Nr & R & K).
  simpl in E. set (server := serverOf advisors v) in *.
  assert (G : forall l, Forall (quiet server) l -> In d l ->
                        hasConsensus (evaluated server d) = true -> False).
  { intros l Q Hin H. rewrite Forall_forall in Q. destruct (Q d Hin). congruence. }
  destruct (Legacy.roundsLoop _ _ _ _ _) as [st|p h|e h]; simpl in *;
    try subst h; try rewrite E;
    intros Hin H.
  - destruct K as [[Q F]|(qs & d0 & -> & Q & H0 & F)]; [exfalso; eauto |].
    apply Forall_app in R. destruct R as [Rq Rd]. inversion Rd; subst.
    destruct (@legacy_consensus_truthy server d0 ltac:(assumption) H0) as (text & C' & T).
    rewrite F, C'. simpl. now rewrite T.
  - exfalso. destruct K as (qs & d0 & -> & Q & H0 & A & ->).
    apply in_app_iff in Hin. destruct Hin as [Hin|[->|[]]]; [eauto | congruence].
  - exfalso. eauto.
Qed.

(** The statuses the first version emits. *)
Lemma legacy_statuses (before : list DiscussionRound) (input : JSValue) :
  In (Legacy.statusOf (Legacy.payload (Legacy.processConsensus advisors create before input)))
    ["consensus_reached"; "max_rounds_reached"; "tool_requests_needed"; "failed"].
Proof.
  unfold Legacy.processConsensus.
  destruct (Legacy.validateConsensusData input) as [v|e]; [|simpl; auto].
  match goal with
  | |- context [Legacy.roundsLoop advisors create ?b v ?st] =>
      destruct (legacy_loop_spec b v st) as (new & _ & _ & _ & K);
      destruct (Legacy.roundsLoop advisors create b v st) as [st'|p h|e h]
  end.
  - simpl. destruct (truthyText (finalConsensusVar st')); simpl; auto.
  - destruct K as (qs & d & _ & _ & _ & _ & ->). simpl. auto.
  - simpl. auto.
Qed.

End WithRoster.

(** The first version accepts an empty list of tools as well. *)
Lemma legacy_validate_object (text : string) (elements : list JSValue) (m c : JsNumber) :
  text <> "" ->
  (1 <= numberValue m)%Q ->
  (0 < numberValue c)%Q -> (numberValue c <= 1)%Q ->
  Legacy.validateConsensusData
    (JSObject [ ("problem", JSString text); ("availableTools", JSArray elements);
                ("maxRounds", JSNumber m); ("consensusThreshold", JSNumber c) ])
  = Returns {| Legacy.problem := text; Legacy.availableTools := elements;
               Legacy.maxRounds := numberValue m;
               Legacy.consensusThreshold := numberValue c |}.
Proof.
  intros T M C0 C1. unfold Legacy.validateConsensusData. simpl.
  apply String.eqb_neq in T. rewrite T. simpl.
  assert (M0 : Qeq_bool (numberValue m) 0 = false).
  { destruct (Qeq_bool (numberValue m) 0) eqn:E; [|reflexivity].
    apply Qeq_bool_iff in E. rewrite E in M. exfalso. apply (Qle_not_lt _ _ M). reflexivity. }
  assert (M1 : Legacy.lessThan (numberValue m) 1 = false).
  { unfold Legacy.lessThan. apply Qle_bool_iff in M. now rewrite M. }
  rewrite M0, M1. simpl.
  assert (C2 : Qeq_bool (numberValue c) 0 = false).
  { destruct (Qeq_bool (numberValue c) 0) eqn:E; [|reflexivity].
    apply Qeq_bool_iff in E. rewrite E in C0. exfalso. now apply (Qlt_irrefl 0). }
  assert (C3 : Legacy.lessThan (numberValue c) 0 = false).
  { unfold Legacy.lessThan. apply Qlt_le_weak in C0. apply Qle_bool_iff in C0. now rewrite C0. }
  assert (C4 : Legacy.lessThan 1 (numberValue c) = false).
  { unfold Legacy.lessThan. apply Qle_bool_iff in C1. now rewrite C1. }
  rewrite C2, C3, C4. reflexivity.
Qed.

(** Three runs of the first version on [legacyInput], whose list of tools is
    empty: with advisors that agree, the run reaches consensus; with an
    advisor that asks for a tool, the status is [tool_requests_needed]; and,
    unlike in version 1.2.0, one failing query ends the run with the status
    [failed]. *)
Lemma legacy_runs :
  Legacy.statusOf (Legacy.payload (Legacy.processConsensus roster unanimousOracle [] legacyInput))
  = "consensus_reached"
  /\ Legacy.statusOf
       (Legacy.payload (Legacy.processConsensus roster requestingOracle [] legacyInput))
     = "tool_requests_needed"
  /\ Legacy.payload (Legacy.processConsensus roster oneFailureOracle [] legacyInput)
     = Legacy.ErrorPayload "connect ETIMEDOUT" "failed".
Proof. repeat split; vm_compute; reflexivity. Qed.

End LegacyFacts.

(** * The agreement evaluator, exactly *)

Module EvaluatorFacts.
Import Counts ConsensusSpec CountsFacts ConsensusFacts EvaluatorSpec.

Lemma own_update (o : Obj) (k k' : string) (v : Count) :
  own (update o k v) k' =
  if String.eqb k k'
  then match own o k with Some _ => Some v | None => None end
  else own o k'.
Proof.
  induction o as [|[x w] o IH]; simpl.
  - now destruct (String.eqb k k').
  - destruct (String.eqb x k) eqn:E; simpl.
    + apply String.eqb_eq in E. subst x. now destruct (String.eqb k k').
    + rewrite IH. destruct (String.eqb k k') eqn:E'; [|reflexivity].
      apply String.eqb_eq in E'. subst k'. now rewrite E.
Qed.

Lemma own_snoc (o : Obj) (k k' : string) (v : Count) :
  own (o ++ [(k, v)])%list k' =
  match own o k' with
  | Some x => Some x
  | None => if String.eqb k k' then Some v else None
  end.
Proof.
  induction o as [|[x w] o IH]; simpl; [reflexivity |].
  now destruct (String.eqb x k').
Qed.

Lemma stored_None (k : string) (n : nat) :
  stored k n = None -> n = 0 \/ k = "__proto__".
Proof.
  destruct n; [now left |]. simpl.
  destruct (String.eqb k "__proto__") eqn:E; [right; now apply String.eqb_eq |].
  destruct (inheritedFunction k); discriminate.
Qed.

(** The own property of a key after the reduction, from the number of its
    occurrences. *)
Lemma own_fold_increment (texts : list string) (k : string) :
  own (fold_left increment texts []) k = stored k (occurrences texts k).
Proof.
  revert k. induction texts as [|t l IH] using rev_ind; intros k; [reflexivity |].
  rewrite fold_increment_snoc, occurrences_snoc.
  set (acc := fold_left increment l []) in *. unfold increment.
  assert (S1 : forall n, 0 < n -> stored t n <> None -> 
               t <> "__proto__").
  { intros n Hn H ->. destruct n; [lia |]. now apply H. }
  destruct (own acc t) as [[n|f n]|] eqn:O.
  - rewrite own_update, O. rewrite IH in O.
    destruct (string_dec t k) as [->|N].
    + rewrite String.eqb_refl.
      destruct (occurrences l k) as [|c]; [discriminate |]. simpl in O.
      rewrite Nat.add_1_r. simpl.
      destruct (String.eqb k "__proto__"); [discriminate |].
      destruct (inheritedFunction k); [discriminate |].
      inversion O. now rewrite Nat.add_1_r.
    + apply String.eqb_neq in N. rewrite N, Nat.add_0_r. apply IH.
  - rewrite own_update, O. rewrite IH in O.
    destruct (string_dec t k) as [->|N].
    + rewrite String.eqb_refl.
      destruct (occurrences l k) as [|c]; [discriminate |]. simpl in O.
      rewrite Nat.add_1_r. simpl.
      destruct (String.eqb k "__proto__"); [discriminate |].
      destruct (inheritedFunction k); [|discriminate].
      inversion O. now rewrite Nat.add_1_r.
    + apply String.eqb_neq in N. rewrite N, Nat.add_0_r. apply IH.
  - rewrite IH in O.
    destruct (String.eqb t "__proto__") eqn:P.
    + apply String.eqb_eq in P. subst t. rewrite IH.
      destruct (string_dec "__proto__" k) as [<-|N]; [|now rewrite Nat.add_0_r].
      rewrite Nat.add_1_r. simpl. now destruct (occurrences l "__proto__").
    + assert (Z : occurrences l t = 0).
      { destruct (stored_None _ _ O) as [H|H]; [exact H |].
        subst t. discriminate. }
      assert (G : forall v, stored t 1 = Some v ->
                own (acc ++ [(t, v)])%list k
                = stored k (occurrences l k + (if string_dec t k then 1 else 0))).
      { intros v Hv. rewrite own_snoc, IH.
        destruct (string_dec t k) as [->|N].
        - rewrite String.eqb_refl, Z. simpl. exact (eq_sym Hv).
        - apply String.eqb_neq in N. rewrite N, Nat.add_0_r.
          now destruct (stored k (occurrences l k)). }
      destruct (inheritedFunction t) eqn:I; apply G; simpl; now rewrite P, I.
Qed.

Lemma fold_increment_NoDup (texts : list string) :
  NoDup (map fst (fold_left increment texts [])).
Proof. apply fold_increment_keys. constructor. Qed.

(** The values [Object.values] lists are what is stored under the keys. *)
Lemma values_stored (texts : list string) (v : Count) :
  In v (Object_values (fold_left increment texts [])) <->
  exists k, stored k (occurrences texts k) = Some v.
Proof.
  unfold Object_values. rewrite in_map_iff. split.
  - intros ([k w] & <- & H). apply (proj1 (ordered_In _ _)) in H.
    exists k. rewrite <- own_fold_increment. simpl.
    apply In_own; [apply fold_increment_NoDup | exact H].
  - intros (k & H). rewrite <- own_fold_increment in H. apply own_In in H.
    exists (k, v). split; [reflexivity |]. now apply (proj2 (ordered_In _ _)).
Qed.

Lemma stored_Some (k : string) (n : nat) (v : Count) :
  stored k n = Some v -> 0 < n /\ k <> "__proto__".
Proof.
  destruct n; [discriminate |]. simpl.
  destruct (String.eqb k "__proto__") eqn:E; [discriminate |].
  apply String.eqb_neq in E. intros _. split; [lia | exact E].
Qed.

Lemma ratio_monotone (a b n : nat) : a <= b -> (ratio a n <= ratio b n)%Q.
Proof.
  intros H. unfold ratio, Qle. simpl. apply Z.mul_le_mono_nonneg_r; lia.
Qed.

Lemma unanimous_unique (texts : list string) :
  texts <> [] -> (unanimous texts <-> List.length (uniqueTexts texts) = 1).
Proof.
  intros NE. split.
  - intros U. destruct texts as [|t l]; [congruence |].
    rewrite (@Claims.uniqueTexts_constant (t :: l) t); [reflexivity | discriminate |].
    intros x Hx. apply U; [exact Hx | now left].
  - intros H. destruct (uniqueTexts texts) as [|t [|u q]] eqn:E; try discriminate.
    intros x y Hx Hy.
    rewrite (uniqueTexts_one _ E x Hx), (uniqueTexts_one _ E y Hy). reflexivity.
Qed.

Section Verdict.
Variable rs : list AdvisorResponse.
Variable threshold : Q.
Let texts := map normalized rs.

Lemma text_lower (k : string) : In k texts -> hasUpper k = false.
Proof.
  intros H. apply in_map_iff in H. destruct H as (r & <- & _). apply normalized_lower.
Qed.

Lemma verdict_ratio_branch :
  2 <= List.length rs -> ~ unanimous texts ->
  atLeast (divide (Math_max (Object_values (fold_left increment texts [])))
             (List.length rs)) threshold = true
  <-> ~ In "constructor" texts /\ exists k, supported texts threshold k.
Proof.
  intros L NU.
  assert (NE : texts <> []) by (unfold texts; destruct rs; [simpl in L; lia | discriminate]).
  destruct (in_dec string_dec "constructor" texts) as [C|C].
  - assert (H : In (NativeText "Object" (occurrences texts "constructor"))
                   (Object_values (fold_left increment texts []))).
    { apply values_stored. exists "constructor".
      apply occurrences_pos in C. destruct (occurrences texts "constructor"); [lia |].
      reflexivity. }
    rewrite (Math_max_native _ _ _ H). simpl. split; [discriminate | tauto].
  - assert (V : forall v, In v (Object_values (fold_left increment texts [])) ->
                exists k, In k texts /\ k <> "__proto__" /\ v = Number (occurrences texts k)).
    { intros v Hv. apply values_stored in Hv. destruct Hv as (k & Hk).
      destruct (stored_Some _ _ Hk) as [P N]. apply occurrences_pos in P.
      exists k. split; [exact P |]. split; [exact N |].
      destruct (occurrences texts k) as [|c]; [discriminate |]. simpl in Hk.
      apply String.eqb_neq in N. rewrite N in Hk.
      destruct (inheritedFunction k) as [f|] eqn:I; [|congruence].
      apply inherited_lower in I; [|now apply text_lower]. now subst k. }
    assert (W : forall k, In k texts -> k <> "__proto__" ->
                In (Number (occurrences texts k))
                  (Object_values (fold_left increment texts []))).
    { intros k Hk N. apply values_stored. exists k.
      assert (P := Hk). apply occurrences_pos in P.
      destruct (occurrences texts k) as [|c] eqn:O; [lia |]. simpl.
      apply String.eqb_neq in N. rewrite N.
      destruct (inheritedFunction k) as [f|] eqn:I; [|reflexivity].
      apply inherited_lower in I; [|now apply text_lower]. now subst k. }
    assert (X : exists k0, In k0 texts /\ k0 <> "__proto__").
    { destruct (existsb (fun k => negb (String.eqb k "__proto__")) texts) eqn:B.
      - apply existsb_exists in B. destruct B as (k & Hk & N).
        exists k. split; [exact Hk |]. apply negb_true_iff, String.eqb_neq in N. exact N.
      - exfalso. apply NU. intros x y Hx Hy.
        assert (A : forall z, In z texts -> z = "__proto__").
        { intros z Hz. destruct (string_dec z "__proto__") as [E|E]; [exact E |].
          assert (T : existsb (fun k => negb (String.eqb k "__proto__")) texts = true).
          { apply existsb_exists. exists z. split; [exact Hz |].
            apply negb_true_iff, String.eqb_neq. exact E. }
          congruence. }
        now rewrite (A x Hx), (A y Hy). }
    destruct (Math_max_numbers (vs := Object_values (fold_left increment texts []))) as (m & HM).
    { destruct X as (k0 & H0 & N0). intros E. specialize (W k0 H0 N0).
      rewrite E in W. contradiction. }
    { intros v Hv. destruct (V v Hv) as (k & _ & _ & ->). eauto. }
    rewrite HM. destruct (Math_max_Max _ HM) as [I1 I2].
    destruct (V _ I1) as (k1 & T1 & N1 & E1). assert (Em : m = occurrences texts k1) by congruence.
    destruct (List.length rs) as [|c] eqn:Len; [lia |].
    assert (D : divide (Max m) (S c) = QFinite (Z.of_nat m # Pos.of_succ_nat c))
      by (now destruct m).
    rewrite D. simpl atLeast.
    assert (R : forall a, (Z.of_nat a # Pos.of_succ_nat c)%Q = ratio a (List.length texts)).
    { intros a. unfold ratio, texts. rewrite length_map, Len, <- Pos.of_nat_succ. reflexivity. }
    rewrite R. split.
    + intros B. apply Qle_bool_iff in B. split; [exact C |].
      exists k1. split; [exact T1 |]. split; [exact N1 |]. now rewrite <- Em.
    + intros (_ & k & Tk & Nk & Le). apply Qle_bool_iff.
      apply Qle_trans with (1 := Le). apply ratio_monotone.
      destruct (I2 _ (W k Tk Nk)) as (n & E & Hn). inversion E. lia.
Qed.

End Verdict.

End EvaluatorFacts.

Module VerdictFacts.
Import Counts ConsensusSpec CountsFacts ConsensusFacts EvaluatorSpec EvaluatorFacts.

(** When the evaluator declares consensus. *)
Lemma hasConsensus_iff (rs : list AdvisorResponse) (threshold : Q) :
  hasConsensus (checkConsensus rs threshold) = true <->
  2 <= List.length rs
  /\ (unanimous (map normalized rs)
      \/ (~ In "constructor" (map normalized rs)
          /\ exists k, supported (map normalized rs) threshold k)).
Proof.
  unfold checkConsensus.
  destruct (List.length rs <? 2) eqn:L.
  - apply Nat.ltb_lt in L. simpl. split; [discriminate | intros [H _]; lia].
  - apply Nat.ltb_ge in L.
    assert (NE : map normalized rs <> []) by (destruct rs; [simpl in L; lia | discriminate]).
    destruct (List.length (uniqueTexts (map normalized rs)) =? 1) eqn:U.
    + apply Nat.eqb_eq in U. apply (unanimous_unique NE) in U. simpl. tauto.
    + apply Nat.eqb_neq in U.
      assert (NU : ~ unanimous (map normalized rs)).
      { intros H. apply U. now apply (unanimous_unique NE). }
      cbv zeta.
      destruct (atLeast _ _) eqn:A; simpl.
      * apply (@verdict_ratio_branch rs threshold L NU) in A. tauto.
      * split; [discriminate |]. intros [_ [H|H]]; [contradiction |].
        apply (@verdict_ratio_branch rs threshold L NU) in H. congruence.
Qed.

Lemma unanimous_perm (l l' : list string) : Permutation l l' -> unanimous l -> unanimous l'.
Proof.
  intros P U x y Hx Hy. apply U; eapply Permutation_in; try eassumption; now symmetry.
Qed.

Lemma supported_perm (l l' : list string) (threshold : Q) (k : string) :
  Permutation l l' -> supported l threshold k -> supported l' threshold k.
Proof.
  intros P (I & N & Le). split; [eapply Permutation_in; eassumption |].
  split; [exact N |].
  unfold occurrences in *.
  rewrite <- (Permutation_length P).
  rewrite <- (proj1 (Permutation_count_occ string_dec l l') P k). exact Le.
Qed.


End VerdictFacts.

Module EvaluatorProperties.
Import Counts ConsensusSpec CountsFacts ConsensusFacts EvaluatorSpec EvaluatorFacts VerdictFacts.


(** X3.  Whether [checkConsensus] finds consensus does not depend on the
    order of the responses. *)
Theorem verdict_ignores_order (rs rs' : list AdvisorResponse) (threshold : Q) :
  Permutation rs rs' ->
  hasConsensus (checkConsensus rs threshold) = hasConsensus (checkConsensus rs' threshold).
Proof.
  assert (G : forall a b, Permutation a b ->
              hasConsensus (checkConsensus a threshold) = true ->
              hasConsensus (checkConsensus b threshold) = true).
  { intros a b P H. apply hasConsensus_iff in H. apply hasConsensus_iff.
    destruct H as [L H]. rewrite <- (Permutation_length P). split; [exact L |].
    assert (P' : Permutation (map normalized a) (map normalized b))
      by now apply Permutation_map.
    destruct H as [U|(C & k & S)].
    - left. now apply (unanimous_perm P').
    - right. split.
      + intros I. apply C. eapply Permutation_in; [symmetry; exact P' | exact I].
      + exists k. now apply (supported_perm P'). }
  intros P.
  destruct (hasConsensus (checkConsensus rs threshold)) eqn:A.
  - symmetry. now apply (G rs rs').
  - destruct (hasConsensus (checkConsensus rs' threshold)) eqn:B; [|reflexivity].
    rewrite <- A. apply (G rs' rs); [now symmetry | exact B].
Qed.

Lemma verdict_ignores_order_witness :
  hasConsensus (checkConsensus (respond ["yes"; "no"; "yes"]) (6 # 10))
  = hasConsensus (checkConsensus (respond ["no"; "yes"; "yes"]) (6 # 10)).
Proof.
  apply (@verdict_ignores_order (respond ["yes"; "no"; "yes"]) (respond ["no"; "yes"; "yes"])).
  simpl. apply perm_swap.
Defined.


(** X5.  Whether [checkConsensus] finds consensus depends on the responses
    through their normalized texts only: letter case, white space around
    the text, the advisors' ids and the tool requests play no part. *)
Theorem verdict_depends_on_normalized_texts (rs rs' : list AdvisorResponse) (threshold : Q) :
  map normalized rs = map normalized rs' ->
  hasConsensus (checkConsensus rs threshold) = hasConsensus (checkConsensus rs' threshold).
Proof.
  intros E.
  assert (L : List.length rs = List.length rs').
  { rewrite <- (length_map normalized rs), E. apply length_map. }
  unfold checkConsensus. rewrite <- E, <- L.
  destruct (List.length rs <? 2); [reflexivity |].
  destruct (List.length (uniqueTexts (map normalized rs)) =? 1); [reflexivity |].
  destruct (atLeast _ _); reflexivity.
Qed.


Lemma verdict_depends_on_normalized_texts_witness :
  map normalized (respond ["Adopt it"; " adopt IT "; "Wait"])
  = map normalized (respond ["ADOPT IT"; "adopt it"; "  wait"])
  /\ hasConsensus (checkConsensus (respond ["Adopt it"; " adopt IT "; "Wait"]) (6 # 10))
     = hasConsensus (checkConsensus (respond ["ADOPT IT"; "adopt it"; "  wait"]) (6 # 10)).
Proof.
  split; [reflexivity |].
  apply (@verdict_depends_on_normalized_texts
           (respond ["Adopt it"; " adopt IT "; "Wait"])
           (respond ["ADOPT IT"; "adopt it"; "  wait"]) (6 # 10)).
  reflexivity.
Defined.

(** X4.  A round that reaches consensus under a threshold gives the same
    result, verdict and text, under every lower threshold. *)
Theorem lower_threshold_keeps_consensus (rs : list AdvisorResponse) (t t' : Q) :
  (t' <= t)%Q ->
  hasConsensus (checkConsensus rs t) = true ->
  checkConsensus rs t' = checkConsensus rs t.
Proof.
  intros Le. unfold checkConsensus.
  destruct (List.length rs <? 2); [reflexivity |].
  destruct (List.length (uniqueTexts (map normalized rs)) =? 1); [reflexivity |].
  cbv zeta.
  destruct (atLeast _ t) eqn:A; [|discriminate]. intros _.
  match goal with |- (if ?c then _ else _) = _ => assert (A' : c = true) end.
  { destruct (divide _ _); simpl in *; try congruence.
    apply Qle_bool_iff. apply Qle_bool_iff in A. now apply Qle_trans with t. }
  now rewrite A'.
Qed.

Lemma lower_threshold_keeps_consensus_witness :
  (6 # 10 <= 8 # 10)%Q
  /\ hasConsensus (checkConsensus (respond ["a"; "a"; "a"; "a"; "b"]) (8 # 10)) = true
  /\ checkConsensus (respond ["a"; "a"; "a"; "a"; "b"]) (6 # 10)
     = checkConsensus (respond ["a"; "a"; "a"; "a"; "b"]) (8 # 10).
Proof.
  assert (L : (6 # 10 <= 8 # 10)%Q) by (apply Qle_bool_iff; reflexivity).
  assert (H : hasConsensus (checkConsensus (respond ["a"; "a"; "a"; "a"; "b"]) (8 # 10)) = true)
    by reflexivity.
  split; [exact L |]. split; [exact H |].
  exact (@lower_threshold_keeps_consensus (respond ["a"; "a"; "a"; "a"; "b"]) _ _ L H).
Defined.

End EvaluatorProperties.

(** * Runs *)

Module HistoryFacts.
Import RunSpec Scenarios ConsensusFacts RunFacts RunTheorems.

Local Arguments Nat.sub : simpl never.

Section WithServer.
Variable server : Server.
Variable create : Oracle.

Let advisors := preConfiguredAdvisors server.

Lemma answered_truthy (phase : nat) (marker prompt : string) (pa : nat * AdvisorConfig)
  (r : AdvisorResponse) :
  marker <> "" -> answered create phase marker prompt pa r -> truthy (response r) = true.
Proof.
  intros M [_ H].
  destruct (queryAdvisor create phase (fst pa) (snd pa) prompt None) eqn:Q; rewrite H.
  - eapply queryAdvisor_truthy; eauto.
  - destruct marker; [congruence | reflexivity].
Qed.

Lemma Forall2_In_r {A B : Type} (P : A -> B -> Prop) (l : list A) (m : list B) (b : B) :
  Forall2 P l m -> In b m -> exists a, In a l /\ P a b.
Proof.
  induction 1 as [|x y l m H _ IH]; simpl; [tauto |].
  intros [<-|I]; [exists x; auto |].
  destruct (IH I) as (a & Ia & Pa). exists a. auto.
Qed.

Lemma summaryRound_truthy (final : option string) (n : nat) (sd : DiscussionRound)
  (r : AdvisorResponse) :
  summaryRound create advisors final n sd -> In r (responses sd) ->
  truthy (response r) = true.
Proof.
  intros (_ & _ & _ & prompt & F) I.
  destruct (@Forall2_In_r _ _ _ _ _ _ F I) as (pa & _ & A).
  eapply answered_truthy; [|exact A]. discriminate.
Qed.

(** The histories of the three endings. *)
Lemma run_history (reply : Reply) :
  runSpec server create reply ->
  exists new,
    Forall (recorded server create) new
    /\ map round new = seq 1 (List.length new)
    /\ List.length new <= maxRounds server
    /\ (historyAfter reply = new
        \/ exists final sd,
             summaryRound create advisors final (List.length new + 1) sd
             /\ historyAfter reply = (new ++ [sd])%list).
Proof.
  intros (_ & new & R & N & L & [E|[E|E]]); exists new; repeat split; auto.
  - destruct E as (qs & d & -> & _ & _ & _ & H & _). now left.
  - destruct E as (qs & d & text & sd & vs & g & -> & _ & _ & _ & S & H & _).
    right. eauto.
  - destruct E as (sd & vs & g & _ & S & H & _). right. eauto.
Qed.

Lemma recorded_length (d : DiscussionRound) :
  recorded server create d -> List.length (responses d) = List.length advisors.
Proof.
  intros [_ (prompt & ->)]. now rewrite length_map, mapFrom_length.
Qed.

Lemma recorded_ids (d : DiscussionRound) :
  recorded server create d -> map advisorId (responses d) = map id advisors.
Proof.
  intros [_ (prompt & ->)]. rewrite map_map. unfold advisors.
  generalize 0. induction (preConfiguredAdvisors server) as [|a l IH]; intros i; simpl;
    [reflexivity |].
  rewrite IH. f_equal. unfold advisorTask.
  destruct (queryAdvisor create (round d) i a prompt None); reflexivity.
Qed.

(** The loop is left without a consensus only when the round limit is
    passed. *)
Lemma roundsLoop_limit (budget : nat) (v : ConsensusData) (st st' : RunState) :
  S (maxRounds server) - roundNo st <= budget ->
  roundsLoop server create budget v st = Left st' ->
  truthyText (finalConsensusVar st') = false ->
  maxRounds server < roundNo st'
  /\ List.length (history st') + roundNo st = List.length (history st) + roundNo st'.
Proof.
  revert st; induction budget as [|b IH]; intros st B; rewrite roundsLoop_unfold;
    destruct ((roundNo st <=? maxRounds server)
              && negb (truthyText (finalConsensusVar st)))%bool eqn:C.
  - apply andb_true_iff in C. destruct C as [C _]. apply Nat.leb_le in C. lia.
  - intros E T. inversion E; subst st'. rewrite T in C. simpl in C.
    rewrite andb_true_r in C. apply Nat.leb_gt in C. lia.
  - apply andb_true_iff in C. destruct C as [C _]. apply Nat.leb_le in C.
    destruct (askAll_eq server create v st) as (prompt & ->).
    set (results := mapFrom 0 (advisorTask create (roundNo st) prompt)
                      (preConfiguredAdvisors server)).
    set (rs := map responseOfResult results).
    cbv zeta.
    set (d := {| round := roundNo st; responses := rs;
                 consensus := consensusText (checkConsensus rs (consensusThreshold server)) |}).
    assert (Rd : recorded server create d).
    { split; [reflexivity |]. exists prompt. reflexivity. }
    destruct (hasConsensus (checkConsensus rs (consensusThreshold server))) eqn:H.
    + intros E T. inversion E; subst st'. simpl in T.
      destruct (@recorded_consensus_truthy server create d Rd H) as (text & Ct & Tt).
      simpl in Ct. rewrite Ct in T. simpl in T. congruence.
    + destruct (0 <? List.length (flat_map requestsOfResult results)); [discriminate |].
      intros E T. apply IH in E; [| simpl; lia | exact T].
      simpl in E. rewrite length_app in E. simpl in E. lia.
  - intros E T. inversion E; subst st'. rewrite T in C. simpl in C.
    rewrite andb_true_r in C. apply Nat.leb_gt in C. lia.
Qed.

End WithServer.
End HistoryFacts.

Module RunProperties.
Import RunSpec Scenarios Examples ConsensusSpec ConsensusFacts VerdictFacts RunFacts RunTheorems HistoryFacts.

Local Arguments Nat.sub : simpl never.

(** X6.  After a run on a valid input no response in the history has an
    empty text: an advisor without content is recorded with the text
    [No response received] and a failed query with its failure marker. *)
Theorem responses_never_empty (server : Server) (create : Oracle)
  (before : list DiscussionRound) (input : JSValue) (v : ConsensusData) :
  validateConsensusData input = Returns v ->
  forall d r,
    In d (historyAfter (processConsensus server create before input)) ->
    In r (responses d) ->
    response r <> "".
Proof.
  intros V d r Hd Hr.
  assert (T : truthy (response r) = true).
  { destruct (run_history (@run_spec server create before input v V))
      as (new & R & _ & _ & [E|(final & sd & Sm & E)]); rewrite E in Hd.
    - rewrite Forall_forall in R. eapply recorded_truthy; eauto.
    - apply in_app_iff in Hd. destruct Hd as [Hd|[<-|[]]].
      + rewrite Forall_forall in R. eapply recorded_truthy; eauto.
      + eapply summaryRound_truthy; eauto. }
  intros E. rewrite E in T. discriminate.
Qed.

Lemma responses_never_empty_witness :
  validateConsensusData sampleInput = Returns sampleData
  /\ forall d r,
       In d (historyAfter (processConsensus defaultServer oneFailureOracle [] sampleInput)) ->
       In r (responses d) -> response r <> "".
Proof.
  split; [reflexivity |].
  exact (@responses_never_empty defaultServer oneFailureOracle [] sampleInput sampleData
           eq_refl).
Defined.

(** X7.  A run that ends with the status [max_rounds_reached] has gone
    through all [maxRounds] rounds: its history has [maxRounds + 1] rounds,
    the last one from the summary pass, and no round of it reached
    consensus or carried a tool request. *)
Theorem limit_reached_after_all_rounds (server : Server) (create : Oracle)
  (before : list DiscussionRound) (input : JSValue) (v : ConsensusData) :
  validateConsensusData input = Returns v ->
  statusOf (payload (processConsensus server create before input)) = "max_rounds_reached" ->
  List.length (historyAfter (processConsensus server create before input))
  = maxRounds server + 1
  /\ forall d, In d (historyAfter (processConsensus server create before input)) ->
               consensus d = None /\ aggregated d = [].
Proof.
  intros V.
  destruct (@run_spec server create before input v V) as (_ & new & R & _ & L & K).
  revert K. rewrite (@run_unfold server create before input v V).
  destruct (roundsLoop server create (maxRounds server) v (initialState v)) as [st|p h] eqn:Lp.
  - destruct (@conclude_eq server create st) as (sd & vs & g & Sm & ->). simpl.
    intros K T.
    assert (F : truthyText (finalConsensusVar st) = false)
      by (destruct (truthyText (finalConsensusVar st)); [discriminate | reflexivity]).
    assert (B : S (maxRounds server) - roundNo (initialState v) <= maxRounds server)
      by (unfold initialState; simpl roundNo; lia).
    destruct (@roundsLoop_limit server create _ v _ _ B Lp F) as [G1 G2].
    simpl in G2.
    destruct K as [E|[E|E]].
    + destruct E as (qs & d & _ & _ & _ & _ & _ & P). simpl in P. discriminate.
    + destruct E as (qs & d & text & sd' & vs' & g' & _ & _ & _ & _ & _ & _ & P).
      simpl in P. rewrite F in P. discriminate.
    + destruct E as (sd' & vs' & g' & Q & Sm' & H & _). simpl in H.
      apply app_inj_tail in H. destruct H as [H <-]. rewrite H in *.
      split.
      * rewrite length_app. simpl. lia.
      * intros d Hd. apply in_app_iff in Hd. destruct Hd as [Hd|[<-|[]]].
        -- rewrite Forall_forall in Q, R. destruct (Q d Hd) as [Q1 Q2].
           split; [|exact Q2]. destruct (R d Hd) as [-> _].
           now apply checkConsensus_none.
        -- destruct Sm as (_ & C & N & _). split.
           ++ rewrite C. destruct (finalConsensusVar st) as [c|]; [|reflexivity].
              destruct Sm' as (_ & C' & _). congruence.
           ++ unfold aggregated. clear - N. induction (responses sd) as [|r l IH]; [reflexivity |].
              simpl. unfold requestsOf at 1. rewrite (N r (or_introl eq_refl)).
              apply IH. intros x Hx. apply N. now right.
  - intros K T. destruct K as [E|[E|E]].
    + destruct E as (qs & d & _ & _ & _ & _ & _ & P). simpl in P. rewrite P in T. discriminate.
    + destruct E as (qs & d & text & sd' & vs' & g' & _ & _ & _ & _ & _ & _ & P).
      simpl in P. rewrite P in T. discriminate.
    + destruct E as (sd' & vs' & g' & _ & _ & _ & P). simpl in P. subst p.
      destruct (roundsLoop_spec server create (maxRounds server) v (initialState v))
        as (new' & _ & _ & _ & _ & K').
      rewrite Lp in K'. destruct K' as (qs & d & _ & _ & _ & _ & C). discriminate.
Qed.

Lemma limit_reached_after_all_rounds_witness :
  validateConsensusData sampleInput = Returns sampleData
  /\ statusOf (payload (processConsensus defaultServer disagreeingOracle [] sampleInput))
     = "max_rounds_reached"
  /\ List.length (historyAfter (processConsensus defaultServer disagreeingOracle []
                                  sampleInput))
     = maxRounds defaultServer + 1.
Proof.
  assert (S : statusOf (payload (processConsensus defaultServer disagreeingOracle []
                                   sampleInput)) = "max_rounds_reached")
    by (vm_compute; reflexivity).
  split; [reflexivity |]. split; [exact S |].
  exact (proj1 (@limit_reached_after_all_rounds defaultServer disagreeingOracle []
                  sampleInput sampleData eq_refl S)).
Defined.


Lemma mapFrom_map_fst {A B C : Type} (f : nat -> A -> B) (g : B -> C) (h : A -> C)
  (l : list A) (i : nat) :
  (forall j a, g (f j a) = h a) -> map g (mapFrom i f l) = map h l.
Proof.
  intros H. revert i; induction l as [|a l IH]; intros i; simpl; [reflexivity |].
  now rewrite H, IH.
Qed.

Lemma mapFrom_map2 {A B C D : Type} (f : nat -> A -> B) (f' : nat -> A -> C)
  (g : B -> D) (g' : C -> D) (l : list A) (i : nat) :
  (forall j a, g (f j a) = g' (f' j a)) ->
  map g (mapFrom i f l) = map g' (mapFrom i f' l).
Proof.
  intros H. revert i; induction l as [|a l IH]; intros i; simpl; [reflexivity |].
  now rewrite H, IH.
Qed.

(** X9.  A result payload carries one summary variation per configured
    advisor, in the order of the roster.  The last round of its history is
    the summary round: one response per advisor with the text of its
    variation and no tool request, numbered with the total number of rounds
    the payload reports, which is the length of the history. *)
Theorem summaries_one_per_advisor (server : Server) (create : Oracle)
  (before : list DiscussionRound) (input : JSValue)
  (status text : string) (n : nat) (h : list DiscussionRound)
  (variations : list SummaryVariation) (guidance : string) :
  payload (processConsensus server create before input)
  = ResultPayload status text n h variations guidance ->
  map summaryAdvisorId variations = map id (preConfiguredAdvisors server)
  /\ exists earlier sd,
      h = (earlier ++ [sd])%list
      /\ map advisorId (responses sd) = map id (preConfiguredAdvisors server)
      /\ map response (responses sd) = map summary variations
      /\ (forall r, In r (responses sd) -> toolRequests r = None)
      /\ round sd = n
      /\ n = List.length h
      /\ historyAfter (processConsensus server create before input) = h.
Proof.
  unfold processConsensus.
  destruct (validateConsensusData input) as [v|e]; [|discriminate].
  destruct (roundsLoop _ _ _ _ _) as [st|p h'] eqn:Lp.
  - unfold conclude. rewrite fold_summaryStep. cbv zeta. simpl fst. simpl snd.
    rewrite !app_nil_l. simpl payload. simpl historyAfter.
    intros E. inversion E; subst. clear E.
    split; [apply mapFrom_map_fst; reflexivity |].
    eexists _, _. split; [reflexivity |]. simpl.
    split; [apply mapFrom_map_fst; reflexivity |].
    split; [apply mapFrom_map2; reflexivity |].
    split.
    + intros r Hr. apply mapFrom_In in Hr. destruct Hr as (j & a & ->). reflexivity.
    + rewrite length_app. simpl. auto.
  - simpl. intros ->.
    destruct (roundsLoop_spec server create (maxRounds server) v
                {| roundNo := 1; currentContext := problem v;
                   finalConsensusVar := None; history := [] |})
      as (new & _ & _ & _ & _ & K).
    rewrite Lp in K. destruct K as (qs & d & _ & _ & _ & _ & C). discriminate.
Qed.

Lemma summaries_one_per_advisor_witness :
  exists status text n h variations guidance,
    payload (processConsensus defaultServer unanimousOracle [] sampleInput)
    = ResultPayload status text n h variations guidance
    /\ map summaryAdvisorId variations = map id (preConfiguredAdvisors defaultServer).
Proof.
  eexists _, _, _, _, _, _. split; [vm_compute; reflexivity |].
  refine (proj1 (@summaries_one_per_advisor defaultServer unanimousOracle [] sampleInput
                   _ _ _ _ _ _ _)).
  vm_compute; reflexivity.
Defined.

Lemma keyPoints_length (h : list DiscussionRound) (k : nat) :
  Forall (fun d => List.length (responses d) = k) h ->
  List.length (keyPoints (generateDiscussionSummary h)) = List.length h * k.
Proof.
  unfold generateDiscussionSummary. simpl.
  induction 1 as [|d l H _ IH]; simpl; [reflexivity |].
  rewrite length_app, length_map, IH, H. reflexivity.
Qed.

Lemma substring_length_le (n m : nat) (s : string) : String.length (substring n m s) <= m.
Proof.
  revert n m; induction s as [|c s IH]; intros n m; simpl.
  - destruct n, m; simpl; lia.
  - destruct n.
    + destruct m; simpl; [lia |]. specialize (IH 0 m). lia.
    + apply IH.
Qed.

Lemma keyPoints_short (h : list DiscussionRound) :
  Forall (fun k => String.length (point k) <= 150) (keyPoints (generateDiscussionSummary h)).
Proof.
  unfold generateDiscussionSummary. simpl. apply Forall_forall.
  intros k Hk. apply in_flat_map in Hk. destruct Hk as (d & _ & Hk).
  apply in_map_iff in Hk. destruct Hk as (r & <- & _). simpl.
  apply substring_length_le.
Qed.

(** X10.  When a run ends asking for tools, the round [n] it reports lies
    between 1 and [maxRounds] and is the number of rounds in the history;
    the discussion summary counts [n] rounds, lists the advisors of the
    roster as participants and holds one key point of at most 150
    characters per advisor and round; the list of requests is not empty. *)
Theorem early_exit_summary (server : Server) (create : Oracle)
  (before : list DiscussionRound) (input : JSValue)
  (status : string) (n : nat) (requested : list ToolRequest) (sm : DiscussionSummary)
  (next : string) :
  payload (processConsensus server create before input)
  = ToolRequestsPayload status n requested sm next ->
  1 <= n <= maxRounds server
  /\ List.length (historyAfter (processConsensus server create before input)) = n
  /\ summaryTotalRounds sm = n
  /\ participants sm = map id (preConfiguredAdvisors server)
  /\ List.length (keyPoints sm) = n * List.length (preConfiguredAdvisors server)
  /\ Forall (fun k => String.length (point k) <= 150) (keyPoints sm)
  /\ requested <> [].
Proof.
  intros P.
  destruct (validateConsensusData input) as [v|e] eqn:V;
    [|unfold processConsensus in P; rewrite V in P; discriminate].
  destruct (@run_spec server create before input v V) as (_ & new & R & N & L & K).
  destruct K as [E|[E|E]].
  - destruct E as (qs & d & -> & _ & _ & A & H & P').
    rewrite P' in P. unfold toolRequestsNeeded in P. inversion P; subst; clear P.
    rewrite H.
    assert (Ld : round d = List.length (qs ++ [d])).
    { rewrite (@Claims.last_round qs d 1 N). rewrite length_app. simpl. lia. }
    rewrite <- Ld.
    assert (F : Forall (fun x => List.length (responses x)
                                 = List.length (preConfiguredAdvisors server)) (qs ++ [d])).
    { apply Forall_forall. intros x Hx. rewrite Forall_forall in R.
      apply recorded_length with (create := create). now apply R. }
    assert (Ln : List.length (qs ++ [d]) = List.length qs + 1)
      by (rewrite length_app; reflexivity).
    split; [lia |].
    split; [reflexivity |].
    split; [simpl; now rewrite <- Ld |].
    split.
    + simpl. rewrite Forall_forall in R.
      destruct qs as [|q qs]; simpl;
        apply recorded_ids with (create := create); apply R; now left.
    + split; [rewrite (keyPoints_length F); now rewrite <- Ld |].
      split; [apply keyPoints_short | exact A].
  - destruct E as (qs & d & text & sd & vs & g & _ & _ & _ & _ & _ & _ & P').
    rewrite P' in P. discriminate.
  - destruct E as (sd & vs & g & _ & _ & _ & P'). rewrite P' in P. discriminate.
Qed.

Lemma early_exit_summary_witness :
  exists status n requested sm next,
    payload (processConsensus defaultServer requestingOracle [] sampleInput)
    = ToolRequestsPayload status n requested sm next
    /\ 1 <= n <= maxRounds defaultServer
    /\ summaryTotalRounds sm = n
    /\ participants sm = map id (preConfiguredAdvisors defaultServer).
Proof.
  eexists _, _, _, _, _. split; [vm_compute; reflexivity |].
  destruct (@early_exit_summary defaultServer requestingOracle [] sampleInput
              _ _ _ _ _ eq_refl) as (A & _ & B & C & _).
  split; [exact A |]. split; [exact B | exact C].
Defined.



(** X11.  A run reads the properties [problem] and [availableTools] of
    its input and nothing else: two inputs that agree on both give the same
    reply, whatever [maxRounds] or [consensusThreshold] they carry. *)
Theorem other_properties_are_ignored (server : Server) (create : Oracle)
  (before : list DiscussionRound) (input input' : JSValue) :
  Value.getProperty input "problem" = Value.getProperty input' "problem" ->
  Value.getProperty input "availableTools" = Value.getProperty input' "availableTools" ->
  processConsensus server create before input = processConsensus server create before input'.
Proof.
  intros P A. unfold processConsensus, validateConsensusData. now rewrite P, A.
Qed.

Lemma other_properties_are_ignored_witness :
  processConsensus defaultServer unanimousOracle [] sampleInput
  = processConsensus defaultServer unanimousOracle [] overridingInput.
Proof.
  apply (@other_properties_are_ignored defaultServer unanimousOracle [] sampleInput
           overridingInput); reflexivity.
Defined.

End RunProperties.

(** * What the directive pattern reads *)

Module SpellFacts.
Import RegExp RegExpSpec SpellSpec RegExpFacts ExecFacts.

Lemma greedy_inv (cl : CharClass) (k : Cont) (s : string) :
  forall pos r, greedy cl k s pos = Some r ->
  exists a s', s = a ++ s' /\ allIn cl a /\ k s' (pos + String.length a) = Some r.
Proof.
  induction s as [|c s IH]; intros pos r; simpl.
  - intros H. exists "", "". simpl. rewrite Nat.add_0_r. auto.
  - destruct (classMatches cl c) eqn:C.
    + destruct (greedy cl k s (S pos)) as [r'|] eqn:G.
      * intros H. inversion H; subst r'. destruct (IH _ _ G) as (a & s' & -> & A & K).
        exists (String c a), s'. simpl. split; [reflexivity |]. split; [auto |].
        now replace (pos + S (String.length a)) with (S pos + String.length a) by lia.
      * intros H. exists "", (String c s). simpl. rewrite Nat.add_0_r. auto.
    + intros H. exists "", (String c s). simpl. rewrite Nat.add_0_r. auto.
Qed.

Lemma substring_drop (pos i n : nat) (input : string) :
  substring (pos + i) n input = substring i n (drop pos input).
Proof.
  revert input; induction pos as [|pos IH]; intros input; simpl; [reflexivity |].
  destruct input as [|c input]; simpl; [now destruct i, n | apply IH].
Qed.

Lemma substring_prefix (a b : string) : substring 0 (String.length a) (a ++ b) = a.
Proof. induction a as [|c a IH]; simpl; [now destruct b | now rewrite IH]. Qed.

Lemma substring_zero (i : nat) (s : string) : substring i 0 s = "".
Proof. revert i; induction s as [|c s IH]; intros [|i]; simpl; auto. Qed.

Lemma substring_split (s : string) :
  forall i n m, substring i (n + m) s = substring i n s ++ substring (i + n) m s.
Proof.
  induction s as [|c s IH]; intros i n m.
  - simpl. destruct i, n, m; reflexivity.
  - destruct i as [|i].
    + destruct n as [|n]; simpl.
      * reflexivity.
      * rewrite (IH 0 n m). reflexivity.
    + simpl. apply IH.
Qed.

(** The text of a span grows by what is consumed at its end. *)
Lemma slice_extend (a pos : nat) (input t l s' : string) :
  a <= pos -> slice a pos input = t -> drop pos input = l ++ s' ->
  slice a (pos + String.length l) input = t ++ l.
Proof.
  intros Le T D. unfold slice in *.
  replace (pos + String.length l - a) with ((pos - a) + String.length l) by lia.
  rewrite substring_split, T. f_equal.
  replace (a + (pos - a)) with (pos + 0) by lia.
  rewrite substring_drop, D. apply substring_prefix.
Qed.

Lemma drop_extend (pos : nat) (input l s' : string) :
  drop pos input = l ++ s' -> drop (pos + String.length l) input = s'.
Proof.
  intros D. rewrite <- drop_drop, D. apply drop_app.
Qed.

Lemma holds_extend (input : string) (pos : nat) (opened : list nat) (inside : list string)
  (l s' : string) :
  holds input pos opened inside -> drop pos input = l ++ s' ->
  holds input (pos + String.length l) opened (map (fun o => o ++ l) inside).
Proof.
  intros H D. induction H as [|a t opened inside [Le T] _ IH]; simpl; constructor; auto.
  split; [lia |]. eapply slice_extend; eauto.
Qed.

Lemma slice_empty (pos : nat) (input : string) : slice pos pos input = "".
Proof. unfold slice. rewrite Nat.sub_diag. apply substring_zero. Qed.

(** What the matcher returns spells the pattern: the input from the
    position on starts with one part per node, the match ends after the
    parts, and the spans it adds hold the texts the groups consumed. *)
Lemma matchNodes_spells (input : string) (p : Pattern) :
  forall opened inside caps s pos e caps',
    drop pos input = s -> holds input pos opened inside ->
    matchNodes p opened caps s pos = Some (e, caps') ->
    exists parts rest,
      Forall2 nodeSpells p parts
      /\ s = spelled parts ++ rest
      /\ e = pos + String.length (spelled parts)
      /\ exists new,
          caps' = (caps ++ new)%list
          /\ map (fun span => slice (fst span) (snd span) input) new = captured p inside parts.
Proof.
  induction p as [|n p IH]; intros opened inside caps s pos e caps' D H M.
  - simpl in M. injection M as <- <-. exists [], s. simpl.
    split; [constructor |]. split; [reflexivity |]. split; [lia |].
    exists []. now rewrite app_nil_r.
  - assert (G : forall t s',
                s = t ++ s' -> nodeSpells n t ->
                (forall parts, captured (n :: p) inside (t :: parts)
                               = captured p (map (fun o => o ++ t) inside) parts) ->
                matchNodes p opened caps s' (pos + String.length t) = Some (e, caps') ->
                exists parts rest,
                  Forall2 nodeSpells (n :: p) parts
                  /\ s = spelled parts ++ rest
                  /\ e = pos + String.length (spelled parts)
                  /\ exists new,
                      caps' = (caps ++ new)%list
                      /\ map (fun span => slice (fst span) (snd span) input) new
                         = captured (n :: p) inside parts).
    { intros t s' E N C M'. rewrite E in D. rewrite E. clear E.
      destruct (IH opened (map (fun o => o ++ t) inside) caps s'
                  (pos + String.length t) e caps')
        as (parts & rest & F & -> & -> & new & -> & Cn);
        [eapply drop_extend; eauto | eapply holds_extend; eauto | exact M' |].
      exists (t :: parts), rest. split; [now constructor |].
      change (spelled (t :: parts)) with (t ++ spelled parts). rewrite append_assoc. split; [reflexivity |].
      rewrite append_length. split; [lia |].
      exists new. split; [reflexivity |]. now rewrite Cn, C. }
    destruct n as [l|cl|cl| |].
    + simpl in M. destruct (afterPrefix l s) as [s'|] eqn:A; [|discriminate].
      apply afterPrefix_inv in A. apply (G l s'); auto. reflexivity.
    + simpl in M. destruct (greedy_inv _ _ _ _ M) as (a & s' & E & A & K).
      apply (G a s'); auto.
    + simpl in M. destruct s as [|c s0]; [discriminate |].
      destruct (classMatches cl c) eqn:C; [|discriminate].
      destruct (greedy_inv _ _ _ _ M) as (a & s' & E & A & K).
      apply (G (String c a) s').
      * simpl. now rewrite E.
      * simpl. split; [discriminate | auto].
      * auto.
      * simpl. now replace (pos + S (String.length a)) with (S pos + String.length a) by lia.
    + simpl in M.
      destruct (IH (pos :: opened) ("" :: inside) caps s pos e caps' D) with (2 := M)
        as (parts & rest & F & -> & -> & new & -> & Cn).
      { constructor; [|exact H]. split; [lia | apply slice_empty]. }
      exists ("" :: parts), rest. split; [constructor; [reflexivity | exact F] |].
      simpl. split; [reflexivity |]. split; [reflexivity |].
      exists new. split; [reflexivity | exact Cn].
    + simpl in M. destruct opened as [|start opened]; [discriminate |].
      destruct inside as [|t i]; [inversion H |].
      apply Forall2_cons_iff in H. destruct H as [[Le T] H'].
      destruct (IH opened i (caps ++ [(start, pos)])%list s pos e caps' D H' M)
        as (parts & rest & F & -> & -> & new & -> & Cn).
      exists ("" :: parts), rest. split; [constructor; [reflexivity | exact F] |].
      simpl. split; [reflexivity |]. split; [reflexivity |].
      exists ((start, pos) :: new). split; [now rewrite <- app_assoc |].
      simpl. now rewrite Cn, T.
Qed.

End SpellFacts.

Module LayoutFacts.
Import RegExp RegExpSpec SpellSpec Directive DirectiveSpec LayoutSpec.
Import RegExpFacts ExecFacts StepFacts SpellFacts.

Lemma matchAt_spells (p : Pattern) (input : string) (pos : nat) (m : Match) :
  matchAt p input (drop pos input) pos = Some m ->
  exists parts rest,
    Forall2 nodeSpells p parts
    /\ drop pos input = spelled parts ++ rest
    /\ index m = pos
    /\ endIndex m = pos + String.length (spelled parts)
    /\ matched m = spelled parts
    /\ groups m = captured p [] parts.
Proof.
  unfold matchAt.
  destruct (matchNodes p [] [] (drop pos input) pos) as [[e caps]|] eqn:M; [|discriminate].
  intros H. injection H as <-.
  destruct (@matchNodes_spells input p [] [] [] (drop pos input) pos e caps eq_refl
              (Forall2_nil _) M)
    as (parts & rest & F & D & -> & new & -> & C).
  exists parts, rest. simpl. repeat split; auto.
  unfold slice. replace (pos + String.length (spelled parts) - pos)
    with (String.length (spelled parts)) by lia.
  replace pos with (pos + 0) at 1 by lia.
  rewrite substring_drop, D. apply substring_prefix.
Qed.

Lemma notChar_allIn (c : ascii) (s : string) :
  allIn (NotChar c) s -> hasChar c s = false.
Proof.
  induction s as [|a s IH]; simpl; [reflexivity |].
  intros [H1 H2]. apply negb_true_iff in H1. now rewrite H1, IH.
Qed.

Lemma Forall2_cons_l {A B : Type} (R : A -> B -> Prop) (x : A) (l : list A) (m : list B) :
  Forall2 R (x :: l) m -> exists y m', m = y :: m' /\ R x y /\ Forall2 R l m'.
Proof. intros H. inversion H; subst. eauto. Qed.

Lemma Forall2_nil_l {A B : Type} (R : A -> B -> Prop) (m : list B) :
  Forall2 R [] m -> m = [].
Proof. intros H. now inversion H. Qed.

Lemma layout_of_parts (parts : list string) :
  Forall2 nodeSpells toolRegex parts ->
  exists ws name body why,
    wellFormed ws name body why
    /\ spelled parts = layout ws name body why
    /\ captured toolRegex [] parts = [name; "{" ++ body ++ "}"; why].
Proof.
  unfold toolRegex. intros F.
  repeat match goal with
         | H : Forall2 _ (_ :: _) _ |- _ =>
             apply Forall2_cons_l in H;
             let t := fresh "t" in let l := fresh "l" in
             let N := fresh "N" in
             destruct H as (t & l & -> & N & H); simpl in N
         | H : Forall2 _ [] _ |- _ => apply Forall2_nil_l in H; subst
         end.
  subst.
  repeat match goal with H : _ /\ _ |- _ => destruct H end.
  match goal with
  | |- context [spelled [_; ?w0; _; ?w1; _; ?w2; _; _; ?name; _; _; ?w3; _; ?w4; _; ?w5;
                          _; _; ?body; _; _; ?w6; _; ?w7; _; ?w8; _; _; ?why; _; _; ?w9; _]] =>
      exists [w0; w1; w2; w3; w4; w5; w6; w7; w8; w9], name, body, why
  end.
  split.
  - unfold wellFormed, blank. repeat split; auto using notChar_allIn.
    repeat constructor; assumption.
  - split; [|reflexivity].
    unfold spelled, layout. simpl fold_right. simpl nth.
    repeat (rewrite ?append_assoc; simpl append). reflexivity.
Qed.

End LayoutFacts.

Module DecidedFacts.
Import RegExp RegExpSpec SpellSpec Directive DirectiveSpec LayoutSpec.
Import RegExpFacts ExecFacts StepFacts SpellFacts LayoutFacts.

(** Every match of the directive pattern has the layout of a directive. *)
Lemma match_layout (response : string) (m : Match) :
  In m (execAll toolRegex response) ->
  exists ws name body why post,
    wellFormed ws name body why
    /\ matched m = layout ws name body why
    /\ groups m = [name; "{" ++ body ++ "}"; why]
    /\ drop (index m) response = matched m ++ post
    /\ endIndex m = index m + String.length (matched m).
Proof.
  intros H. apply execAll_matchAt in H.
  destruct (matchAt_spells _ _ _ H) as (parts & rest & F & D & _ & E & M & G).
  destruct (layout_of_parts F) as (ws & name & body & why & W & L & C).
  exists ws, name, body, why, rest. rewrite M, G, E, D, <- L. auto.
Qed.

Section Steps.
Variables (p : Pattern) (opened : list nat) (caps : Captures).

Lemma lit_eq (l s s' : string) (pos : nat) :
  afterPrefix l s = Some s' ->
  matchNodes (Lit l :: p) opened caps s pos
  = matchNodes p opened caps s' (pos + String.length l).
Proof. intros H. simpl. now rewrite H. Qed.

Lemma star_eq (cl : CharClass) (c0 : ascii) (a s : string) (pos : nat) :
  allIn cl a -> stops cl s ->
  firstChar p = Some c0 -> classMatches cl c0 = false ->
  matchNodes (Star cl :: p) opened caps (a ++ s) pos
  = matchNodes p opened caps s (pos + String.length a).
Proof.
  intros Ha Hs F C. simpl. apply greedy_run; auto.
  eapply rejects_firstChar; eauto.
Qed.

Lemma plus_eq (cl : CharClass) (c0 : ascii) (a s : string) (pos : nat) :
  a <> "" -> allIn cl a -> stops cl s ->
  firstChar p = Some c0 -> classMatches cl c0 = false ->
  matchNodes (Plus cl :: p) opened caps (a ++ s) pos
  = matchNodes p opened caps s (pos + String.length a).
Proof.
  intros Ne Ha Hs F C. destruct a as [|x a]; [congruence |].
  destruct Ha as [Hx Ha].
  change (matchNodes (Plus cl :: p) opened caps (String x a ++ s) pos)
    with (if classMatches cl x
          then greedy cl (matchNodes p opened caps) (a ++ s) (S pos) else None).
  assert (R : rejects cl (matchNodes p opened caps))
    by (eapply rejects_firstChar; eauto).
  rewrite Hx, (@greedy_run _ _ _ _ Ha Hs R). simpl String.length.
  now replace (S pos + String.length a) with (pos + S (String.length a)) by lia.
Qed.

End Steps.

(** Parts that leave no choice are what the matcher finds. *)
Lemma matchNodes_decided (input : string) (p : Pattern) :
  forall opened inside caps parts rest pos,
    decided p (List.length opened) parts rest ->
    drop pos input = spelled parts ++ rest ->
    holds input pos opened inside ->
    exists new,
      matchNodes p opened caps (spelled parts ++ rest) pos
      = Some (pos + String.length (spelled parts), (caps ++ new)%list)
      /\ map (fun span => slice (fst span) (snd span) input) new = captured p inside parts.
Proof.
  induction p as [|n p IH]; intros opened inside caps parts rest pos Dc D H.
  - destruct parts; [|contradiction]. exists []. simpl.
    now rewrite Nat.add_0_r, app_nil_r.
  - destruct parts as [|t parts]; [destruct n; contradiction |].
    change (spelled (t :: parts)) with (t ++ spelled parts) in *.
    rewrite append_assoc in D |- *. rewrite append_length, Nat.add_assoc.
    assert (G : decided p (List.length opened) parts rest ->
                exists new,
                  matchNodes p opened caps (spelled parts ++ rest) (pos + String.length t)
                  = Some (pos + String.length t + String.length (spelled parts),
                          (caps ++ new)%list)
                  /\ map (fun span => slice (fst span) (snd span) input) new
                     = captured p (map (fun o => o ++ t) inside) parts).
    { intros Dp. apply IH; [exact Dp | eapply drop_extend; eauto | eapply holds_extend; eauto]. }
    destruct n as [l|cl|cl| |]; simpl in Dc.
    + destruct Dc as [-> Dp]. destruct (G Dp) as (new & M & C).
      exists new. split; [|exact C].
      rewrite (@lit_eq p opened caps l _ _ pos (afterPrefix_app l _)). exact M.
    + destruct Dc as (A & St & (c0 & F & Cl) & Dp). destruct (G Dp) as (new & M & C).
      exists new. split; [|exact C].
      rewrite (@star_eq p opened caps cl c0 t _ pos A St F Cl). exact M.
    + destruct Dc as (Ne & A & St & (c0 & F & Cl) & Dp). destruct (G Dp) as (new & M & C).
      exists new. split; [|exact C].
      rewrite (@plus_eq p opened caps cl c0 t _ pos Ne A St F Cl). exact M.
    + destruct Dc as [-> Dp]. simpl in *. rewrite Nat.add_0_r.
      destruct (IH (pos :: opened) ("" :: inside) caps parts rest pos Dp D) as (new & M & C).
      { constructor; [|exact H]. split; [lia | apply slice_empty]. }
      exists new. auto.
    + destruct Dc as [-> Dp]. simpl in *. rewrite Nat.add_0_r.
      destruct opened as [|start opened]; [contradiction |].
      destruct inside as [|i inside]; [inversion H |].
      apply Forall2_cons_iff in H. destruct H as [[Le T] H'].
      destruct (IH opened inside (caps ++ [(start, pos)])%list parts rest pos Dp D H')
        as (new & M & C).
      exists ((start, pos) :: new). split.
      * rewrite M. now rewrite <- app_assoc.
      * simpl. now rewrite C, T.
Qed.

Lemma nth_blank (ws : list string) (i : nat) : Forall blank ws -> blank (nth i ws "").
Proof.
  intros F. revert i; induction F as [|w ws Hw _ IH]; intros [|i]; simpl; auto; exact I.
Qed.

Lemma substring_skip (x w : string) (n : nat) :
  substring (String.length x) n (x ++ w) = substring 0 n w.
Proof. induction x as [|c x IH]; simpl; auto. Qed.

Lemma slice_at (input x y z : string) (pos a b : nat) :
  drop pos input = x ++ y ++ z ->
  a = pos + String.length x -> b = a + String.length y ->
  slice a b input = y.
Proof.
  intros D -> ->. unfold slice.
  replace (pos + String.length x + String.length y - (pos + String.length x))
    with (String.length y) by lia.
  rewrite substring_drop, D, substring_skip. apply substring_prefix.
Qed.

End DecidedFacts.

Module ScanFacts.
Import RegExp RegExpSpec SpellSpec Directive DirectiveSpec LayoutSpec.
Import RegExpFacts ExecFacts StepFacts SpellFacts LayoutFacts DecidedFacts DirectiveFacts.

Lemma layout_parts (ws : list string) (name body why : string) :
  spelled (partsOf ws name body why) = layout ws name body why.
Proof. reflexivity. Qed.

Lemma layout_decided (ws : list string) (name body why post : string) :
  wellFormed ws name body why -> decided toolRegex 0 (partsOf ws name body why) post.
Proof.
  intros (B & N1 & Q1 & N2 & Q2 & N3 & Q3).
  assert (W : forall i, allIn WhiteSpace (nth i ws "")) by (intros i; now apply nth_blank).
  unfold toolRegex, partsOf. simpl.
  repeat split; auto using allIn_notChar; eexists; split; reflexivity.
Qed.

Lemma layout_groups (ws : list string) (name body why : string) :
  captured toolRegex [] (partsOf ws name body why) = [name; "{" ++ body ++ "}"; why].
Proof. reflexivity. Qed.

(** A text with the layout of a directive is matched where it starts, with
    the name, the parameters and the reason as its captures. *)
Lemma layout_matchAt (input : string) (pos : nat) (ws : list string)
  (name body why post : string) :
  wellFormed ws name body why ->
  drop pos input = layout ws name body why ++ post ->
  matchAt toolRegex input (drop pos input) pos
  = Some {| index := pos; matched := layout ws name body why;
            groups := [name; "{" ++ body ++ "}"; why];
            endIndex := pos + String.length (layout ws name body why) |}.
Proof.
  intros W D. rewrite D at 1. rewrite <- layout_parts in *.
  destruct (@matchNodes_decided input toolRegex [] [] [] (partsOf ws name body why) post pos
              (layout_decided post W) D (Forall2_nil _)) as (new & M & C).
  unfold matchAt. rewrite M. simpl app. f_equal. f_equal.
  - unfold slice.
    replace (pos + String.length (spelled (partsOf ws name body why)) - pos)
      with (String.length (spelled (partsOf ws name body why))) by lia.
    replace pos with (pos + 0) at 1 by lia.
    rewrite substring_drop, D. apply substring_prefix.
  - rewrite C. apply layout_groups.
Qed.

End ScanFacts.

Module ShiftFacts.
Import RegExp RegExpSpec SpellSpec Directive DirectiveSpec LayoutSpec.
Import RegExpFacts ExecFacts StepFacts SpellFacts LayoutFacts DecidedFacts DirectiveFacts ScanFacts.

Lemma greedy_shift (cl : CharClass) (k k' : Cont) (d : nat) :
  (forall s pos, k' s (pos + d) = shifted d (k s pos)) ->
  forall s pos, greedy cl k' s (pos + d) = shifted d (greedy cl k s pos).
Proof.
  intros K s; induction s as [|c s IH]; intros pos; simpl; [apply K |].
  destruct (classMatches cl c); [|apply K].
  change (S (pos + d)) with (S pos + d). rewrite IH.
  destruct (greedy cl k s (S pos)) as [[e caps]|]; [reflexivity | apply K].
Qed.

Lemma matchNodes_shift (d : nat) (p : Pattern) :
  forall opened caps s pos,
    matchNodes p (map (fun a => a + d) opened) (map (shiftSpan d) caps) s (pos + d)
    = shifted d (matchNodes p opened caps s pos).
Proof.
  induction p as [|n p IH]; intros opened caps s pos; [reflexivity |].
  destruct n as [l|cl|cl| |]; simpl.
  - destruct (afterPrefix l s) as [s'|]; [|reflexivity].
    replace (pos + d + String.length l) with (pos + String.length l + d) by lia.
    apply IH.
  - apply greedy_shift. intros. apply IH.
  - destruct s as [|c s]; [reflexivity |].
    destruct (classMatches cl c); [|reflexivity].
    change (S (pos + d)) with (S pos + d). apply greedy_shift. intros. apply IH.
  - apply (IH (pos :: opened)).
  - destruct opened as [|start opened]; [reflexivity |]. simpl.
    rewrite <- (IH opened (caps ++ [(start, pos)])%list). now rewrite map_app.
Qed.

Lemma slice_shift (a b d : nat) (input : string) :
  slice (a + d) (b + d) input = slice a b (drop d input).
Proof.
  unfold slice. replace (b + d - (a + d)) with (b - a) by lia.
  rewrite (Nat.add_comm a d). apply substring_drop.
Qed.

Lemma matchAt_shift (p : Pattern) (input s : string) (pos d : nat) :
  matchAt p input s (pos + d) = option_map (shiftMatch d) (matchAt p (drop d input) s pos).
Proof.
  unfold matchAt.
  pose proof (matchNodes_shift d p [] [] s pos) as E. simpl map in E. rewrite E. clear E.
  destruct (matchNodes p [] [] s pos) as [[e caps]|]; [|reflexivity].
  simpl. unfold shiftMatch. simpl. f_equal. f_equal.
  - apply slice_shift.
  - rewrite map_map. apply map_ext. intros [a b]. apply slice_shift.
Qed.

Lemma scan_shift (p : Pattern) (input : string) (d : nat) :
  forall s pos skip,
    scan p input s (pos + d) skip = map (shiftMatch d) (scan p (drop d input) s pos skip).
Proof.
  intros s; induction s as [|c s IH]; intros pos skip.
  - destruct skip; simpl; [|reflexivity]. rewrite matchAt_shift.
    destruct (matchAt p (drop d input) "" pos); reflexivity.
  - destruct skip as [|skip]; simpl.
    + rewrite matchAt_shift.
      destruct (matchAt p (drop d input) (String c s) pos) as [m|]; simpl.
      * f_equal. change (S (pos + d)) with (S pos + d).
        replace (endIndex m + d - (S pos + d)) with (endIndex m - S pos) by lia.
        apply IH.
      * apply (IH (S pos)).
    + apply (IH (S pos)).
Qed.

Lemma extracted_shift (d : nat) (m : Match) : extracted (shiftMatch d m) = extracted m.
Proof. reflexivity. Qed.

Lemma warned_shift (d : nat) (m : Match) : warned (shiftMatch d m) = warned m.
Proof. reflexivity. Qed.

Lemma flat_map_shift {A : Type} (f : Match -> list A) (d : nat) (l : list Match) :
  (forall m, f (shiftMatch d m) = f m) ->
  flat_map f (map (shiftMatch d) l) = flat_map f l.
Proof. intros H. induction l as [|m l IH]; simpl; [reflexivity | now rewrite H, IH]. Qed.

(** Before the first marker there is no match. *)
Lemma scan_to_marker (input : string) :
  forall s pos,
    scan toolRegex input s pos 0 =
    match indexOf "TOOL_REQUEST:" s with
    | Some i => scan toolRegex input (drop i s) (pos + i) 0
    | None => []
    end.
Proof.
  intros s; induction s as [|c s IH]; intros pos.
  - reflexivity.
  - destruct (afterPrefix "TOOL_REQUEST:" (String c s)) as [r|] eqn:A.
    + unfold indexOf. rewrite A. simpl drop. now rewrite Nat.add_0_r.
    + assert (I : indexOf "TOOL_REQUEST:" (String c s)
                  = option_map S (indexOf "TOOL_REQUEST:" s)).
      { unfold indexOf at 1. rewrite A. reflexivity. }
      rewrite I.
      assert (M : matchAt toolRegex input (String c s) pos = None).
      { apply matchAt_none. unfold toolRegex. now apply lit_fail. }
      change (scan toolRegex input (String c s) pos 0)
        with (match matchAt toolRegex input (String c s) pos with
              | Some m => m :: scan toolRegex input s (S pos) (endIndex m - S pos)
              | None => scan toolRegex input s (S pos) 0
              end).
      rewrite M, IH. destruct (indexOf "TOOL_REQUEST:" s) as [i|]; simpl; [|reflexivity].
      f_equal. lia.
Qed.

Lemma drop_length_le (n : nat) (s : string) : String.length (drop n s) <= String.length s.
Proof. rewrite drop_length. lia. Qed.

(** The matches of a text whose first marker starts a directive: that
    directive, then the matches of what follows it. *)
Lemma execAll_first (response : string) (i : nat) (ws : list string)
  (name body why post : string) :
  indexOf "TOOL_REQUEST:" response = Some i ->
  drop i response = layout ws name body why ++ post ->
  wellFormed ws name body why ->
  execAll toolRegex response
  = {| index := i; matched := layout ws name body why;
       groups := [name; "{" ++ body ++ "}"; why];
       endIndex := i + String.length (layout ws name body why) |}
    :: map (shiftMatch (i + String.length (layout ws name body why)))
         (execAll toolRegex post).
Proof.
  intros I D W. unfold execAll. rewrite scan_to_marker, I. simpl plus.
  rewrite (@scan_search toolRegex response toolRegex_consuming (drop i response) i eq_refl).
  assert (S1 : search toolRegex response (drop i response) i
               = Some {| index := i; matched := layout ws name body why;
                         groups := [name; "{" ++ body ++ "}"; why];
                         endIndex := i + String.length (layout ws name body why) |}).
  { assert (M := layout_matchAt response i W D).
    revert M. generalize (drop i response). intros s M.
    destruct s; cbn [search]; now rewrite M. }
  rewrite S1. f_equal. unfold scanFrom. cbn [endIndex].
  set (e := i + String.length (layout ws name body why)).
  assert (P : drop e response = post).
  { unfold e. rewrite <- drop_drop, D. apply drop_app. }
  rewrite P. change e with (0 + e) at 1. rewrite scan_shift, P. reflexivity.
Qed.

Lemma execAll_no_marker (response : string) :
  indexOf "TOOL_REQUEST:" response = None -> execAll toolRegex response = [].
Proof. intros I. unfold execAll. now rewrite scan_to_marker, I. Qed.

End ShiftFacts.

Module DirectiveProperties.
Import RegExp RegExpSpec SpellSpec Directive DirectiveSpec LayoutSpec Scenarios Examples.
Import RegExpFacts ExecFacts StepFacts SpellFacts LayoutFacts DecidedFacts DirectiveFacts.
Import ScanFacts ShiftFacts.

Lemma parse_braced (body : string) (v : Json.JSON) :
  Json.parse ("{" ++ body ++ "}") = Returns v -> exists members, v = Json.JObject members.
Proof.
  unfold Json.parse, Json.parseText.
  change ("{" ++ body ++ "}") with (String "{" (body ++ "}")).
  cbn [Json.parseValue Json.skipSpace].
  change (Json.isJsonSpace "{") with false. cbv iota.
  change ("{" =? "{")%char with true. cbv iota.
  destruct (Json.startsWith "}" (Json.skipSpace (body ++ "}"))).
  - destruct (Json.skipSpace (Json.tail _)); [|discriminate].
    intros H. injection H as <-. eauto.
  - destruct (Json.parseMembers _ _) as [ms r| |]; try discriminate.
    destruct (Json.skipSpace r); [|discriminate].
    intros H. injection H as <-. eauto.
Qed.

(** X14.  Round trip of a directive.  When the first occurrence of the
    marker [TOOL_REQUEST:] in a response starts a directive written in the
    prescribed layout (the members tool, parameters and reason in this
    order, white space where the pattern allows it, a name and a reason
    without double quote, parameters without closing brace inside) and the
    parameters parse as JSON, then [parseToolRequests] returns that request
    first, followed by the requests of the text after the directive, and
    the warnings are those of the text after the directive. *)
Theorem first_directive_is_extracted (response : string) (i : nat) (ws : list string)
  (name body why post : string) (params : Json.JSON) :
  indexOf "TOOL_REQUEST:" response = Some i ->
  drop i response = layout ws name body why ++ post ->
  wellFormed ws name body why ->
  Json.parse ("{" ++ body ++ "}") = Returns params ->
  parseToolRequests response
  = {| tool := name; parameters := params; reason := why |} :: parseToolRequests post
  /\ warnings (parseDirectives response) = warnings (parseDirectives post).
Proof.
  intros I D W P.
  destruct (parseDirectives_matches response) as [E1 E2].
  destruct (parseDirectives_matches post) as [F1 F2].
  rewrite E1, E2, F1, F2, (execAll_first _ I D W). simpl flat_map.
  rewrite !flat_map_shift by reflexivity.
  unfold extracted at 1, warned at 1. unfold group. cbn [groups nth Nat.sub].
  change ("{" ++ body ++ "}") with (String "{" (body ++ "}")) in P.
  rewrite P. split; reflexivity.
Qed.

Lemma first_directive_is_extracted_witness :
  indexOf "TOOL_REQUEST:" directiveAnswer = Some 19
  /\ drop 19 directiveAnswer
     = layout promptSpacing "web_search" sampleBody "current figures" ++ ""
  /\ wellFormed promptSpacing "web_search" sampleBody "current figures"
  /\ Json.parse ("{" ++ sampleBody ++ "}") = Returns (parameters sampleRequest)
  /\ parseToolRequests directiveAnswer = sampleRequest :: parseToolRequests "".
Proof.
  assert (I : indexOf "TOOL_REQUEST:" directiveAnswer = Some 19) by reflexivity.
  assert (D : drop 19 directiveAnswer
              = layout promptSpacing "web_search" sampleBody "current figures" ++ "")
    by reflexivity.
  assert (W : wellFormed promptSpacing "web_search" sampleBody "current figures").
  { split; [repeat constructor |]. repeat split; try reflexivity; discriminate. }
  assert (P : Json.parse ("{" ++ sampleBody ++ "}") = Returns (parameters sampleRequest))
    by (vm_compute; reflexivity).
  split; [exact I |]. split; [exact D |]. split; [exact W |]. split; [exact P |].
  exact (proj1 (@first_directive_is_extracted directiveAnswer 19 promptSpacing "web_search"
                  sampleBody "current figures" "" (parameters sampleRequest) I D W P)).
Defined.

(** X15.  A response in which the marker [TOOL_REQUEST:] does not occur
    yields no request and no warning. *)
Theorem no_marker_no_requests (response : string) :
  indexOf "TOOL_REQUEST:" response = None ->
  parseDirectives response = {| requests := []; warnings := [] |}.
Proof. intros I. apply no_match_no_output. now apply execAll_no_marker. Qed.

(** X16.  Every request [parseToolRequests] returns has a tool name and a
    reason that are not empty and hold no double quote, and parameters that
    are a JSON object. *)
Theorem requests_are_well_formed (response : string) (q : ToolRequest) :
  In q (parseToolRequests response) ->
  tool q <> "" /\ hasChar quote (tool q) = false
  /\ reason q <> "" /\ hasChar quote (reason q) = false
  /\ exists members, parameters q = Json.JObject members.
Proof.
  destruct (parseDirectives_matches response) as [-> _].
  intros H. apply in_flat_map in H. destruct H as (m & Hm & Hq).
  destruct (match_layout _ _ Hm) as (ws & name & body & why & post & W & _ & G & _).
  destruct W as (_ & N1 & Q1 & _ & _ & N3 & Q3).
  unfold extracted, group in Hq. rewrite G in Hq. cbn [nth Nat.sub] in Hq.
  destruct (Json.parse ("{" ++ body ++ "}")) as [v|e] eqn:P; [|contradiction].
  destruct Hq as [<-|[]]. simpl. repeat split; auto.
  eapply parse_braced; eauto.
Qed.

Lemma requests_are_well_formed_witness :
  In sampleRequest (parseToolRequests directiveAnswer)
  /\ tool sampleRequest <> ""
  /\ exists members, parameters sampleRequest = Json.JObject members.
Proof.
  assert (I : In sampleRequest (parseToolRequests directiveAnswer))
    by (vm_compute; left; reflexivity).
  split; [exact I |].
  destruct (@requests_are_well_formed directiveAnswer sampleRequest I) as (A & _ & _ & _ & B).
  split; [exact A | exact B].
Defined.

Lemma no_marker_no_requests_witness :
  indexOf "TOOL_REQUEST:" "Adopt policy X." = None
  /\ parseDirectives "Adopt policy X." = {| requests := []; warnings := [] |}.
Proof.
  split; [reflexivity |].
  apply (@no_marker_no_requests "Adopt policy X."). reflexivity.
Defined.

End DirectiveProperties.

(** * Version 1.0.0: validation, failures and the round limit *)

Module LegacyProperties.
Import RunSpec LegacySpec Scenarios Examples ConsensusFacts RunFacts RunTheorems LegacyFacts.

Local Arguments Nat.sub : simpl never.

Lemma falsy_number (n : JsNumber) :
  Value.falsy (JSNumber n) = true <-> (numberValue n == 0)%Q.
Proof. simpl. apply Qeq_bool_iff. Qed.

Lemma lessThan_true (x y : Q) : Legacy.lessThan x y = true <-> (x < y)%Q.
Proof.
  unfold Legacy.lessThan. rewrite negb_true_iff. split.
  - intros H. apply Qnot_le_lt. intros L. apply Qle_bool_iff in L. congruence.
  - intros H. destruct (Qle_bool y x) eqn:E; [|reflexivity].
    apply Qle_bool_iff in E. exfalso. exact (Qlt_not_le _ _ H E).
Qed.

Lemma lessThan_false (x y : Q) : Legacy.lessThan x y = false <-> (y <= x)%Q.
Proof.
  unfold Legacy.lessThan. rewrite negb_false_iff. apply Qle_bool_iff.
Qed.

(** What a validated input of the first version looks like. *)
Lemma legacy_validate_inv (input : JSValue) (v : Legacy.ConsensusData) :
  Legacy.validateConsensusData input = Returns v ->
  exists properties text elements m c,
    input = JSObject properties
    /\ Value.lookup properties "problem" = JSString text /\ text <> ""
    /\ Value.lookup properties "availableTools" = JSArray elements
    /\ Value.lookup properties "maxRounds" = JSNumber m
    /\ (1 <= numberValue m)%Q
    /\ Value.lookup properties "consensusThreshold" = JSNumber c
    /\ (0 < numberValue c)%Q /\ (numberValue c <= 1)%Q
    /\ v = {| Legacy.problem := text; Legacy.availableTools := elements;
              Legacy.maxRounds := numberValue m;
              Legacy.consensusThreshold := numberValue c |}.
Proof.
  intros H. unfold Legacy.validateConsensusData in H.
  destruct input as [| | | | |els|ps]; simpl in H; try discriminate.
  destruct (Value.lookup ps "problem") as [| |b|n|text|els|ps1] eqn:P;
    simpl in H; try discriminate;
    try (destruct b; discriminate);
    try (destruct (Qeq_bool (numberValue n) 0); discriminate).
  destruct (String.eqb text "") eqn:T; [discriminate |]. apply String.eqb_neq in T.
  simpl in H.
  destruct (Value.lookup ps "availableTools") as [| |b|n|s|els|ps1] eqn:A;
    simpl in H; try discriminate;
    try (destruct b; discriminate);
    try (destruct (Qeq_bool (numberValue n) 0); discriminate);
    try (destruct (String.eqb s ""); discriminate).
  destruct (Value.lookup ps "maxRounds") as [| |b|m|s|els1|ps1] eqn:M;
    simpl in H; try discriminate;
    try (destruct b; discriminate);
    try (destruct (String.eqb s ""); discriminate).
  destruct (Qeq_bool (numberValue m) 0) eqn:Zm; [discriminate |]. simpl in H.
  destruct (Legacy.lessThan (numberValue m) 1) eqn:Lm; [discriminate |].
  apply lessThan_false in Lm.
  destruct (Value.lookup ps "consensusThreshold") as [| |b|c|s|els1|ps1] eqn:C;
    simpl in H; try discriminate;
    try (destruct b; discriminate);
    try (destruct (String.eqb s ""); discriminate).
  destruct (Qeq_bool (numberValue c) 0) eqn:Zc; [discriminate |]. simpl in H.
  destruct (Legacy.lessThan (numberValue c) 0) eqn:L0; [discriminate |].
  destruct (Legacy.lessThan 1 (numberValue c)) eqn:L1; [discriminate |].
  apply lessThan_false in L0, L1.
  injection H as <-.
  exists ps, text, els, m, c. repeat split; auto.
  apply Qle_lt_or_eq in L0. destruct L0 as [L0|L0]; [exact L0 |].
  exfalso. symmetry in L0. apply Qeq_bool_iff in L0. congruence.
Qed.

(** X17.  Validation in version 1.0.0 succeeds exactly when the input is
    an object whose problem is a non-empty string, whose availableTools is
    an array, whose maxRounds is a number of at least 1 and whose
    consensusThreshold is a number above 0 and at most 1: a threshold of 0
    is rejected, and maxRounds has no upper bound and need not be an
    integer. *)
Theorem legacy_validation_exact (input : JSValue) :
  (exists v, Legacy.validateConsensusData input = Returns v)
  <-> exists properties text elements m c,
        input = JSObject properties
        /\ Value.lookup properties "problem" = JSString text /\ text <> ""
        /\ Value.lookup properties "availableTools" = JSArray elements
        /\ Value.lookup properties "maxRounds" = JSNumber m
        /\ (1 <= numberValue m)%Q
        /\ Value.lookup properties "consensusThreshold" = JSNumber c
        /\ (0 < numberValue c)%Q /\ (numberValue c <= 1)%Q.
Proof.
  split.
  - intros (v & H).
    destruct (legacy_validate_inv _ H) as (ps & text & els & m & c & E & P & T & A & M & Lm & C & L0 & L1 & _).
    exists ps, text, els, m, c. repeat split; auto.
  - intros (ps & text & els & m & c & -> & P & T & A & M & Lm & C & L0 & L1).
    unfold Legacy.validateConsensusData. simpl. rewrite P, A, M, C. simpl.
    apply String.eqb_neq in T. rewrite T. simpl.
    assert (Zm : Qeq_bool (numberValue m) 0 = false).
    { destruct (Qeq_bool (numberValue m) 0) eqn:E; [|reflexivity].
      apply Qeq_bool_iff in E. rewrite E in Lm. unfold Qle in Lm. simpl in Lm. lia. }
    assert (Zc : Qeq_bool (numberValue c) 0 = false).
    { destruct (Qeq_bool (numberValue c) 0) eqn:E; [|reflexivity].
      apply Qeq_bool_iff in E. rewrite E in L0. unfold Qlt in L0. simpl in L0. lia. }
    rewrite Zm, Zc. simpl.
    rewrite (proj2 (lessThan_false _ _) Lm).
    rewrite (proj2 (lessThan_false _ _) (Qlt_le_weak _ _ L0)).
    rewrite (proj2 (lessThan_false _ _) L1).
    simpl. eauto.
Qed.

Section WithRoster.
Variable advisors : list AdvisorConfig.
Variable create : Oracle.



(** The rounds the loop adds stay within the limit. *)
Lemma legacy_loop_length (budget : nat) (v : Legacy.ConsensusData) (st : RunState) :
  List.length (legacyHistoryOf (Legacy.roundsLoop advisors create budget v st))
  <= List.length (history st) + (S (Legacy.budgetOf (Legacy.maxRounds v)) - roundNo st).
Proof.
  revert st; induction budget as [|b IH]; intros st; rewrite legacy_unfold.
  - destruct (_ && _)%bool; simpl; lia.
  - destruct (Qle_bool (inject_Z (Z.of_nat (roundNo st))) (Legacy.maxRounds v)
              && negb (truthyText (finalConsensusVar st)))%bool eqn:C; [|simpl; lia].
    apply andb_true_iff in C. destruct C as [C _]. apply within_limit in C.
    destruct (Legacy.askEach _ _ _ _ _ _) as [[rs ts]|e'] eqn:A; [|simpl; lia].
    destruct (hasConsensus _); [simpl; rewrite length_app; simpl; lia |].
    destruct (0 <? List.length ts); [simpl; rewrite length_app; simpl; lia |].
    etransitivity; [apply IH |]. simpl. rewrite length_app. simpl. lia.
Qed.

(** The loop is left without a consensus only when the round limit is
    passed. *)
Lemma legacy_limit (budget : nat) (v : Legacy.ConsensusData) (st st' : RunState) :
  S (Legacy.budgetOf (Legacy.maxRounds v)) - roundNo st <= budget ->
  Legacy.roundsLoop advisors create budget v st = Legacy.Left st' ->
  truthyText (finalConsensusVar st') = false ->
  Qle_bool (inject_Z (Z.of_nat (roundNo st'))) (Legacy.maxRounds v) = false
  /\ List.length (history st') + roundNo st = List.length (history st) + roundNo st'.
Proof.
  revert st; induction budget as [|b IH]; intros st B; rewrite legacy_unfold;
    destruct (Qle_bool (inject_Z (Z.of_nat (roundNo st))) (Legacy.maxRounds v)
              && negb (truthyText (finalConsensusVar st)))%bool eqn:C.
  - apply andb_true_iff in C. destruct C as [C _]. apply within_limit in C. lia.
  - intros E T. injection E as <-. rewrite T in C. simpl in C.
    rewrite andb_true_r in C. split; [exact C | lia].
  - apply andb_true_iff in C. destruct C as [C _]. apply within_limit in C.
    destruct (Legacy.askEach _ _ _ _ _ _) as [[rs ts]|e'] eqn:A; [|discriminate].
    destruct (hasConsensus (checkConsensus rs (Legacy.consensusThreshold v))) eqn:H.
    + intros E T. injection E as <-. simpl in T. exfalso.
      apply askEach_spec in A. destruct A as (rs' & E1 & _ & P). simpl in E1. subst rs'.
      destruct (@checkConsensus_some _ _ H) as (r & Ir & Ct).
      rewrite Ct in T. simpl in T. destruct (P r Ir) as [Tr _]. congruence.
    + destruct (0 <? List.length ts); [discriminate |].
      intros E T. apply IH in E; [| simpl; lia | exact T].
      simpl in E. rewrite length_app in E. simpl in E. destruct E as [E1 E2].
      split; [exact E1 | lia].
  - intros E T. injection E as <-. rewrite T in C. simpl in C.
    rewrite andb_true_r in C. split; [exact C | lia].
Qed.

(** X18.  In version 1.0.0 a run on a valid input leaves at most
    [maxRounds] rounds in the history, numbered from 1; when it ends with
    the status [max_rounds_reached] their number is the integer part of
    [maxRounds]. *)
Theorem legacy_history_within_limit (before : list DiscussionRound) (input : JSValue)
  (v : Legacy.ConsensusData) :
  Legacy.validateConsensusData input = Returns v ->
  (inject_Z (Z.of_nat (List.length
     (Legacy.historyAfter (Legacy.processConsensus advisors create before input))))
   <= Legacy.maxRounds v)%Q
  /\ map round (Legacy.historyAfter (Legacy.processConsensus advisors create before input))
     = seq 1 (List.length
                (Legacy.historyAfter (Legacy.processConsensus advisors create before input)))
  /\ (Legacy.statusOf (Legacy.payload (Legacy.processConsensus advisors create before input))
      = "max_rounds_reached" ->
      (Legacy.maxRounds v
       < inject_Z (Z.of_nat (List.length
           (Legacy.historyAfter (Legacy.processConsensus advisors create before input)) + 1)))%Q).
Proof.
  intros V.
  destruct (legacy_validate_inv _ V)
    as (ps & text & els & m & c & _ & _ & _ & _ & _ & Lm & _ & _ & _ & Ev).
  assert (L1 : (1 <= Legacy.maxRounds v)%Q) by (rewrite Ev; exact Lm).
  rewrite (@legacy_run_unfold advisors create before input v V).
  set (st0 := initialState {| problem := Legacy.problem v;
                              availableTools := Legacy.availableTools v |}).
  set (b := Legacy.budgetOf (Legacy.maxRounds v)).
  assert (Len := legacy_loop_length b v st0).
  destruct (legacy_loop_spec advisors create b v st0) as (new & E & Nr & _ & _).
  assert (F : (0 <= Qfloor (Legacy.maxRounds v))%Z).
  { change 0%Z with (Qfloor 0). apply Qfloor_resp_le.
    apply Qle_trans with (2 := L1). discriminate. }
  assert (G : forall h : list DiscussionRound, List.length h <= b ->
              (inject_Z (Z.of_nat (List.length h)) <= Legacy.maxRounds v)%Q).
  { intros h Hh. apply Qle_trans with (inject_Z (Qfloor (Legacy.maxRounds v))).
    - rewrite <- Zle_Qle. unfold b, Legacy.budgetOf in Hh. lia.
    - apply Qfloor_le. }
  simpl in Len, E, Nr.
  assert (Hb : List.length (legacyHistoryOf (Legacy.roundsLoop advisors create b v st0)) <= b)
    by (unfold b in *; lia).
  destruct (Legacy.roundsLoop advisors create b v st0) as [st|p h|e h] eqn:Lp;
    simpl in Hb, E; simpl.
  - split; [now apply G |]. split; [rewrite E; exact Nr |].
    intros St.
    assert (T : truthyText (finalConsensusVar st) = false)
      by (destruct (truthyText (finalConsensusVar st)); [discriminate | reflexivity]).
    assert (B : S (Legacy.budgetOf (Legacy.maxRounds v)) - roundNo st0 <= b)
      by (unfold st0, initialState, b; simpl roundNo; lia).
    destruct (@legacy_limit b v st0 st B Lp T) as [C Eq]. simpl in Eq.
    replace (List.length (history st) + 1) with (roundNo st) by lia.
    apply Qnot_le_lt. intros Le. apply Qle_bool_iff in Le. congruence.
  - split; [now apply G |]. split; [rewrite E; exact Nr |].
    destruct (legacy_loop_spec advisors create b v st0) as (new' & _ & _ & _ & K).
    rewrite Lp in K. destruct K as (qs & d & _ & _ & _ & _ & ->). discriminate.
  - split; [now apply G |]. split; [rewrite E; exact Nr | discriminate].
Qed.


End WithRoster.

Lemma legacy_history_within_limit_witness :
  Legacy.validateConsensusData legacyInput = Returns legacyData
  /\ (inject_Z (Z.of_nat (List.length
        (Legacy.historyAfter (Legacy.processConsensus roster disagreeingOracle []
                                legacyInput))))
      <= Legacy.maxRounds legacyData)%Q.
Proof.
  assert (V : Legacy.validateConsensusData legacyInput = Returns legacyData) by reflexivity.
  split; [exact V |].
  exact (proj1 (@legacy_history_within_limit roster disagreeingOracle [] legacyInput
                  legacyData V)).
Defined.


End LegacyProperties.

(** * The constructor *)

Module ConfigFacts.
Import Number ConfigSpec.

Lemma digitValue_decimal (c : ascii) :
  Json.isDigit c = true -> digitValue 10 c = Some (N_of_ascii c - 48)%N.
Proof.
  unfold digitValue, Json.isDigit. intros H. rewrite H.
  unfold inRange in H. apply andb_true_iff in H. destruct H as [H1 H2].
  apply N.leb_le in H1, H2.
  destruct (N.ltb_spec (N_of_ascii c - 48) 10); [reflexivity | lia].
Qed.

Lemma digitValue_stop (c : ascii) : Json.isDigit c = false -> digitValue 10 c = None.
Proof.
  unfold digitValue, Json.isDigit. intros H. rewrite H.
  destruct (inRange 97 122 c) eqn:L.
  - unfold inRange in L. apply andb_true_iff in L. destruct L as [L1 L2].
    apply N.leb_le in L1, L2.
    destruct (N.ltb_spec (N_of_ascii c - 87) 10); [lia | reflexivity].
  - destruct (inRange 65 90 c) eqn:U; [|reflexivity].
    unfold inRange in U. apply andb_true_iff in U. destruct U as [U1 U2].
    apply N.leb_le in U1, U2.
    destruct (N.ltb_spec (N_of_ascii c - 55) 10); [lia | reflexivity].
Qed.

Lemma digits_stop (acc : option N) (rest : string) :
  endsNumber rest = true -> digits 10 acc rest = acc.
Proof.
  destruct rest as [|c r]; [reflexivity |]. simpl. intros H.
  apply negb_true_iff, orb_false_iff in H. destruct H as [H _].
  apply orb_false_iff in H. destruct H as [H _].
  now rewrite (@digitValue_stop _ H).
Qed.

(** Reading the digits of a decimal numeral gives the number it writes. *)
Lemma digits_numeral (rest : string) (d : Decimal.uint) :
  endsNumber rest = true ->
  forall a,
    digits 10 (Some a) (NilEmpty.string_of_uint d ++ rest)
    = Some (N.of_nat (Nat.of_uint_acc d (N.to_nat a))).
Proof.
  intros E. induction d; intros a; simpl NilEmpty.string_of_uint; simpl append;
    try (cbn [digits]; rewrite digitValue_decimal by reflexivity; rewrite IHd;
         f_equal; simpl Nat.of_uint_acc; rewrite Nat.tail_mul_spec;
         f_equal; f_equal; simpl; lia).
  rewrite digits_stop by exact E. simpl. now rewrite N2Nat.id.
Qed.

Lemma numeral_digits (d : Decimal.uint) :
  d <> Decimal.Nil ->
  exists c t, NilEmpty.string_of_uint d = String c t /\ Json.isDigit c = true
              /\ (t = "" \/ exists c' t', t = String c' t' /\ Json.isDigit c' = true).
Proof.
  destruct d; intros N; try congruence; simpl; eexists _, _;
    (split; [reflexivity |]); (split; [reflexivity |]);
    (destruct d; [now left | right; simpl; eexists _, _; split; reflexivity ..]).
Qed.

Lemma to_uint_not_Nil (n : nat) : Nat.to_uint n <> Decimal.Nil.
Proof.
  intros E. assert (H := Unsigned.to_of (Nat.to_uint n)).
  pose proof (Unsigned.of_to n) as G.
  assert (U : Decimal.unorm (Nat.to_uint n) = Nat.to_uint n).
  { rewrite <- H. now rewrite G. }
  rewrite E in U. discriminate.
Qed.

Lemma trimStart_blank (pad t : string) :
  allWhiteSpace pad = true -> trimStart (pad ++ t) = trimStart t.
Proof.
  induction pad as [|c pad IH]; simpl; [reflexivity |].
  intros H. apply andb_true_iff in H. destruct H as [H1 H2]. now rewrite H1, IH.
Qed.

Lemma digit_facts (c : ascii) :
  Json.isDigit c = true ->
  isWhiteSpace c = false /\ Ascii.eqb c "-" = false /\ Ascii.eqb c "+" = false
  /\ Ascii.eqb c "x" = false /\ Ascii.eqb c "X" = false.
Proof.
  unfold Json.isDigit, inRange. intros H. apply andb_true_iff in H. destruct H as [H1 H2].
  apply N.leb_le in H1, H2.
  assert (G : forall k : ascii, (N_of_ascii k < 48 \/ 57 < N_of_ascii k)%N -> Ascii.eqb c k = false).
  { intros k Hk. destruct (Ascii.eqb c k) eqn:E; [|reflexivity].
    apply Ascii.eqb_eq in E. subst k. lia. }
  split.
  - unfold isWhiteSpace, inRange.
    destruct (N.leb_spec 9 (N_of_ascii c)), (N.leb_spec (N_of_ascii c) 13); simpl; try lia;
      destruct (N.eqb_spec (N_of_ascii c) 32), (N.eqb_spec (N_of_ascii c) 160);
      simpl; try lia; reflexivity.
  - repeat split; apply G; simpl; lia.
Qed.

(** [parseInt] reads back the number that [String(n)] writes, whatever
    white space comes before it and whatever text ends it. *)
Lemma parseInt_numeral (pad rest : string) (n : nat) :
  allWhiteSpace pad = true -> endsNumber rest = true ->
  parseInt (pad ++ ofNat n ++ rest) = Some (Z.of_nat n).
Proof.
  intros P E. unfold parseInt, ofNat. rewrite (@trimStart_blank pad _ P).
  assert (NN := to_uint_not_Nil n).
  assert (S0 : NilZero.string_of_uint (Nat.to_uint n)
               = NilEmpty.string_of_uint (Nat.to_uint n)).
  { destruct (Nat.to_uint n); [congruence | reflexivity ..]. }
  rewrite S0.
  destruct (@numeral_digits _ NN) as (c & t & Ec & Dc & Dt).
  destruct (@digit_facts _ Dc) as (W & M & Pl & _ & _).
  assert (V : digits 10 None (NilEmpty.string_of_uint (Nat.to_uint n) ++ rest)
              = Some (N.of_nat n)).
  { transitivity (digits 10 (Some 0%N) (NilEmpty.string_of_uint (Nat.to_uint n) ++ rest)).
    - rewrite Ec. simpl. rewrite (@digitValue_decimal _ Dc). reflexivity.
    - rewrite (@digits_numeral rest _ E). f_equal. f_equal.
      change (N.to_nat 0) with 0. apply Unsigned.of_to. }
  assert (T : trimStart (NilEmpty.string_of_uint (Nat.to_uint n) ++ rest)
              = NilEmpty.string_of_uint (Nat.to_uint n) ++ rest).
  { rewrite Ec. simpl. now rewrite W. }
  rewrite T.
  assert (Sg : signOf (NilEmpty.string_of_uint (Nat.to_uint n) ++ rest)
               = (false, NilEmpty.string_of_uint (Nat.to_uint n) ++ rest)).
  { rewrite Ec. simpl. now rewrite M, Pl. }
  rewrite Sg.
  assert (R : match NilEmpty.string_of_uint (Nat.to_uint n) ++ rest with
              | String z (String x r) =>
                  if (Ascii.eqb z "0" && (Ascii.eqb x "x" || Ascii.eqb x "X"))%bool
                  then (16%N, r)
                  else (10%N, NilEmpty.string_of_uint (Nat.to_uint n) ++ rest)
              | _ => (10%N, NilEmpty.string_of_uint (Nat.to_uint n) ++ rest)
              end = (10%N, NilEmpty.string_of_uint (Nat.to_uint n) ++ rest)).
  { rewrite Ec. destruct Dt as [->|(c' & t' & -> & Dc')]; simpl.
    - destruct rest as [|x r]; [reflexivity |]. simpl in E.
      apply negb_true_iff, orb_false_iff in E. destruct E as [E X2].
      apply orb_false_iff in E. destruct E as [_ X1].
      rewrite X1, X2. simpl. now rewrite andb_false_r.
    - destruct (@digit_facts _ Dc') as (_ & _ & _ & X1 & X2).
      rewrite X1, X2. simpl. now rewrite andb_false_r. }
  rewrite R, V. f_equal. now rewrite nat_N_Z.
Qed.

End ConfigFacts.

Module RoundingFacts.
Import Number.





End RoundingFacts.

Module ConfigProperties.
Import Number ConfigSpec Examples ConfigFacts RoundingFacts.

(** X20.  A server the constructor returns has a round limit from 1 to 10,
    a threshold whose double lies between 0 and 1, and the five advisors of
    the roster; the API key was set and not empty; and logging is disabled
    exactly when DISABLE_CONSENSUS_LOGGING is set to [true] in whatever
    letter case. *)
Theorem constructed_server_passes_the_checks (env : Env) (server : Server) :
  constructor env = Returns server ->
  1 <= maxRounds server <= 10
  /\ (exists d, toDouble (consensusThreshold server) = Some d /\ (0 <= d <= 1)%Q)
  /\ preConfiguredAdvisors server = roster
  /\ (exists key, OPENROUTER_API_KEY env = Some key /\ key <> "")
  /\ (disableLogging server = true
      <-> exists text, DISABLE_CONSENSUS_LOGGING env = Some text
                       /\ toLowerCase text = "true").
Proof.
  unfold constructor.
  destruct (isSet (OPENROUTER_API_KEY env)) eqn:K; [|discriminate]. simpl.
  destruct (parseInt _) as [z|]; [|discriminate].
  destruct ((z <? 1)%Z || (10 <? z)%Z)%bool eqn:R; [discriminate |].
  apply orb_false_iff in R. destruct R as [R1 R2].
  apply Z.ltb_ge in R1, R2.
  unfold parseFloat.
  destruct (strDecimalLiteral _) as [| |q]; try discriminate.
  destruct (toDouble q) as [d|] eqn:D; [|discriminate].
  destruct (negb (Qle_bool 0 d) || negb (Qle_bool d 1))%bool eqn:T; [discriminate |].
  apply orb_false_iff in T. destruct T as [T1 T2].
  apply negb_false_iff, Qle_bool_iff in T1, T2.
  intros H. injection H as <-. simpl.
  split; [lia |].
  split; [exists d; split; [exact D | split; assumption] |].
  split; [reflexivity |]. split.
  - unfold isSet in K. destruct (OPENROUTER_API_KEY env) as [key|]; [|discriminate].
    exists key. split; [reflexivity |]. intros ->. discriminate.
  - unfold orElse. destruct (DISABLE_CONSENSUS_LOGGING env) as [text|].
    + destruct (truthy text) eqn:Tt.
      * rewrite String.eqb_eq. split; [eauto |]. intros (t & E & L). congruence.
      * split; [discriminate |]. intros (t & E & L). injection E as <-.
        destruct text; [discriminate L | discriminate Tt].
    + split; [discriminate |]. intros (t & E & _). discriminate.
Qed.

Lemma constructed_server_passes_the_checks_witness :
  constructor sampleEnv
  = Returns {| disableLogging := true; maxRounds := 7; consensusThreshold := 75 # 100;
               preConfiguredAdvisors := roster |}
  /\ 1 <= 7 <= 10
  /\ exists d, toDouble (75 # 100) = Some d /\ (0 <= d <= 1)%Q.
Proof.
  assert (C : constructor sampleEnv
              = Returns {| disableLogging := true; maxRounds := 7;
                           consensusThreshold := 75 # 100;
                           preConfiguredAdvisors := roster |})
    by (vm_compute; reflexivity).
  split; [exact C |].
  destruct (@constructed_server_passes_the_checks sampleEnv _ C) as (A & B & _).
  split; [exact A | exact B].
Defined.

Lemma ofNat_not_empty (n : nat) (rest : string) : truthy (ofNat n ++ rest) = true.
Proof.
  unfold ofNat.
  assert (NN := to_uint_not_Nil n).
  destruct (Nat.to_uint n); try congruence; reflexivity.
Qed.

(** X21.  With the API key set and no threshold configured, a round limit
    written as a decimal number, after any white space and before any text
    that does not go on with a digit or an [x], is read back by the
    constructor: from 1 to 10 it is the limit of the server, whose
    threshold is 0.8, and any other number is refused with the message
    about CONSENSUS_MAX_ROUNDS. *)
Theorem max_rounds_read_back (key pad rest : string) (logging : option string) (n : nat) :
  key <> "" -> allWhiteSpace pad = true -> endsNumber rest = true ->
  constructor (environment key logging (Some (pad ++ ofNat n ++ rest)) None)
  = if ((1 <=? n) && (n <=? 10))%bool
    then Returns {| disableLogging := String.eqb (toLowerCase (orElse logging "")) "true";
                    maxRounds := n;
                    consensusThreshold := consensusThreshold defaultServer;
                    preConfiguredAdvisors := roster |}
    else Throws (ThrownError "CONSENSUS_MAX_ROUNDS must be a number between 1 and 10").
Proof.
  intros K P E. unfold constructor, environment.
  cbn [orElse isSet OPENROUTER_API_KEY CONSENSUS_MAX_ROUNDS CONSENSUS_THRESHOLD
       DISABLE_CONSENSUS_LOGGING].
  assert (Tk : truthy key = true) by (destruct key; [congruence | reflexivity]).
  rewrite Tk. cbn [negb].
  assert (Tr : truthy (pad ++ ofNat n ++ rest) = true).
  { destruct pad; [apply ofNat_not_empty | reflexivity]. }
  rewrite Tr, (@parseInt_numeral pad rest n P E).
  assert (L : strDecimalLiteral "0.8" = DecimalLiteral (consensusThreshold defaultServer))
    by (vm_compute; reflexivity).
  assert (F : exists d, parseFloat "0.8" = FloatValue d
                        /\ (negb (Qle_bool 0 d) || negb (Qle_bool d 1))%bool = false)
    by (eexists; split; vm_compute; reflexivity).
  destruct F as (d & F & Q0).
  rewrite F, L, Q0.
  destruct (Nat.leb_spec 1 n), (Nat.leb_spec n 10); simpl;
    destruct (Z.ltb_spec (Z.of_nat n) 1), (Z.ltb_spec 10 (Z.of_nat n)); simpl; try lia;
    try reflexivity.
  now rewrite Nat2Z.id.
Qed.

Lemma max_rounds_read_back_witness :
  constructor (environment "sk-or-v1-0000" None (Some (" " ++ ofNat 5 ++ " rounds")) None)
  = Returns defaultServer.
Proof.
  apply (@max_rounds_read_back "sk-or-v1-0000" " " " rounds" None 5);
    [discriminate | reflexivity | reflexivity].
Defined.

(** With the key set and nothing else, the constructor builds the default
    server. *)
Lemma default_server_constructed (key : string) :
  key <> "" -> constructor (environment key None None None) = Returns defaultServer.
Proof.
  intros K. unfold constructor, environment.
  cbn [orElse isSet OPENROUTER_API_KEY CONSENSUS_MAX_ROUNDS CONSENSUS_THRESHOLD
       DISABLE_CONSENSUS_LOGGING].
  assert (Tk : truthy key = true) by (destruct key; [congruence | reflexivity]).
  rewrite Tk. vm_compute. reflexivity.
Qed.



End ConfigProperties.

(** * The requests sent to the remote model *)

Module RequestFacts.
Import RequestSpec RunSpec RunFacts RunTheorems.

Local Arguments Nat.sub : simpl never.

Lemma mapFrom_ext_nth {A B : Type} (f g : nat -> A -> B) (l : list A) :
  forall i,
    (forall j a, nth_error l j = Some a -> f (i + j) a = g (i + j) a) ->
    mapFrom i f l = mapFrom i g l.
Proof.
  induction l as [|x l IH]; intros i H; simpl; [reflexivity |].
  f_equal.
  - specialize (H 0 x eq_refl). now rewrite Nat.add_0_r in H.
  - apply IH. intros j a N. specialize (H (S j) a N).
    now replace (i + S j) with (S i + j) in H by lia.
Qed.

Section WithServer.
Variable server : Server.
Variable create : Oracle.

Lemma queryAdvisor_guarded (phase j : nat) (a : AdvisorConfig) (prompt : string) :
  nth_error (preConfiguredAdvisors server) j = Some a ->
  queryAdvisor (guarded server create) phase j a prompt None
  = queryAdvisor create phase j a prompt None.
Proof.
  intros N. unfold queryAdvisor, guarded. rewrite N. unfold expected. simpl.
  now rewrite !String.eqb_refl.
Qed.

Lemma askAll_guarded (v : ConsensusData) (st : RunState) :
  askAll server (guarded server create) v st = askAll server create v st.
Proof.
  unfold askAll. f_equal. apply mapFrom_ext_nth. intros j a N.
  unfold advisorTask. simpl. now rewrite (@queryAdvisor_guarded _ _ _ _ N).
Qed.

Lemma roundsLoop_guarded (budget : nat) (v : ConsensusData) (st : RunState) :
  roundsLoop server (guarded server create) budget v st
  = roundsLoop server create budget v st.
Proof.
  revert st; induction budget as [|b IH]; intros st;
    rewrite (roundsLoop_unfold server create), (roundsLoop_unfold server (guarded server create));
    [reflexivity |].
  rewrite askAll_guarded.
  destruct (_ && _)%bool; [|reflexivity].
  destruct (askAll server create v st) as [rs ts]. cbv zeta.
  destruct (hasConsensus _); [reflexivity |].
  destruct (0 <? List.length ts); [reflexivity | apply IH].
Qed.

Lemma conclude_guarded (st : RunState) :
  conclude server (guarded server create) st = conclude server create st.
Proof.
  unfold conclude.
  replace (mapFrom 0 (summaryTask (guarded server create)
                        (summaryPrompt (finalConsensusVar st) (history st)))
             (preConfiguredAdvisors server))
    with (mapFrom 0 (summaryTask create (summaryPrompt (finalConsensusVar st) (history st)))
            (preConfiguredAdvisors server)); [reflexivity |].
  apply mapFrom_ext_nth. intros j a N. unfold summaryTask. simpl.
  now rewrite (@queryAdvisor_guarded _ _ _ _ N).
Qed.

End WithServer.
End RequestFacts.

Module RequestProperties.
Import RequestSpec RequestFacts.

(** X12.  Every request a run sends to the remote model is the expected
    one for the advisor it is sent for: the advisor's model, its system
    prompt followed by one user message, the temperature 0.7 and no limit
    on the length of the completion.  A remote model that fails on any
    other request gives the same reply of the run. *)
Theorem only_expected_requests_matter (server : Server) (create : Oracle)
  (before : list DiscussionRound) (input : JSValue) :
  processConsensus server (guarded server create) before input
  = processConsensus server create before input.
Proof.
  unfold processConsensus.
  destruct (validateConsensusData input) as [v|e]; [|reflexivity].
  rewrite roundsLoop_guarded.
  destruct (roundsLoop _ _ _ _ _) as [st|p h]; [apply conclude_guarded | reflexivity].
Qed.

End RequestProperties.

(** * The discussion context *)

Module ContextFacts.
Import ContextSpec.

Lemma responseLines_shown (rs rs' : list AdvisorResponse) :
  map (fun r => (advisorId r, prefix_of_length 200 (response r))) rs
  = map (fun r => (advisorId r, prefix_of_length 200 (response r))) rs' ->
  map responseLine rs = map responseLine rs'.
Proof.
  revert rs'; induction rs as [|r rs IH]; intros [|r' rs'] H; simpl in *;
    try discriminate; [reflexivity |].
  injection H as E1 E2 E3. rewrite (IH _ E3). unfold responseLine. now rewrite E1, E2.
Qed.

Lemma roundBlocks_shown (h h' : list DiscussionRound) :
  map shown h = map shown h' -> map roundBlock h = map roundBlock h'.
Proof.
  revert h'; induction h as [|d h IH]; intros [|d' h'] H;
    try discriminate; [reflexivity |].
  cbn [map] in *. injection H as E1 E2 E3. rewrite (IH _ E3). f_equal.
  unfold roundBlock. now rewrite E1, (@responseLines_shown _ _ E2).
Qed.

End ContextFacts.

Module ContextProperties.
Import ContextSpec Examples ContextFacts.

(** X13.  The discussion context shows of each round its number and, for
    each response, the advisor and the first 200 characters: two histories
    that agree on these give the same context. *)
Theorem context_shows_200_characters (h h' : list DiscussionRound) :
  map shown h = map shown h' ->
  generateDiscussionContext h = generateDiscussionContext h'.
Proof.
  intros H. unfold generateDiscussionContext. now rewrite (@roundBlocks_shown _ _ H).
Qed.

Lemma context_shows_200_characters_witness :
  map shown (oneAnswer (longAnswer ", so adopt the policy"))
  = map shown (oneAnswer (longAnswer ", so reject the policy"))
  /\ generateDiscussionContext (oneAnswer (longAnswer ", so adopt the policy"))
     = generateDiscussionContext (oneAnswer (longAnswer ", so reject the policy")).
Proof.
  assert (H : map shown (oneAnswer (longAnswer ", so adopt the policy"))
              = map shown (oneAnswer (longAnswer ", so reject the policy")))
    by reflexivity.
  split; [exact H |].
  exact (@context_shows_200_characters _ _ H).
Defined.

End ContextProperties.
